(** * clickSUMO: road-network templates, signal timing and XML serialisation

    A shallow embedding of the algorithmic core of clickSUMO:
    - [src/core/xml_generators.py]: the entity dataclasses ([Node], [Edge],
      [Phase], [TrafficLight], [VehicleType], [Route], [Vehicle], [Flow]),
      the four XML generators and [calculate_webster_cycle];
    - [src/network/templates.py]: the six network templates;
    - [app.py], [show_signal_designer]: the Webster optimisation, the
      green-wave offset calculation and the capacity analysis written
      inline in the page handler;
    - [app.py], [show_network_studio]: the "Generate Network" button of the
      templates tab and the custom network editor;
    - [app.py], [show_demand_generator]: the "Generate Route File" button.

    Conventions of the embedding.
    - Python [int] is [Z].  Python [float] is idealised as an exact rational
      [Q]: rounding of binary64 is not modelled, results are compared with
      [==] ([Qeq]).
    - A Python exception is a value of [exn]; code that may raise returns a
      [result].
    - The [NetworkGenerator] object mutated by [add_node], [add_edge], ... is
      threaded explicitly through a state-and-exception monad [prog].
    - Functions of the Python runtime that the repository only calls
      ([str] on a float, [math.cos], [xml.dom.minidom], [os.path.join]) are
      the fields of the class [Runtime]. *)

From Stdlib Require Import ZArith QArith Qround Lia Lqa.
From stdpp Require Import base list strings pretty gmap.

Set Default Proof Using "Type".

(* ===================================================================== *)
(** * Python runtime                                                      *)
(* ===================================================================== *)

Module Py.

(** The exceptions the modelled code can raise. *)
Inductive exn : Type :=
| ValueError (msg : string)
| ZeroDivisionError.

Inductive result (A : Type) : Type :=
| Ok (a : A)
| Raise (e : exn).
Arguments Ok {A} a.
Arguments Raise {A} e.

Global Instance result_ret : MRet result := λ A a, Ok a.
Global Instance result_bind : MBind result := λ A B f m,
  match m with
  | Ok a => f a
  | Raise e => Raise e
  end.

(** State threaded through code that may raise: a statement of a method
    body that mutates an object of type [S]. *)
Record prog (S A : Type) : Type := Prog { run : S → result (A * S) }.
Arguments Prog {S A} run.
Arguments run {S A} p s.

Global Instance prog_ret {S} : MRet (prog S) := λ A a, Prog (λ s, Ok (a, s)).
Global Instance prog_bind {S} : MBind (prog S) := λ A B f m,
  Prog (λ s, match run m s with
             | Ok (a, s') => run (f a) s'
             | Raise e => Raise e
             end).

(** Evaluation of a constructor call (or any expression that may raise)
    inside a method body. *)
Definition lift {S A} (r : result A) : prog S A :=
  Prog (λ s, match r with Ok a => Ok (a, s) | Raise e => Raise e end).

Definition modify {S} (f : S → S) : prog S unit := Prog (λ s, Ok (tt, f s)).

(** [for x in xs: body x] *)
Fixpoint for_each {S A} (xs : list A) (body : A → prog S unit) : prog S unit :=
  match xs with
  | [] => mret tt
  | x :: rest => body x ≫= λ _, for_each rest body
  end.

(** The final object of a body run on a fresh object. *)
Definition exec {S A} (p : prog S A) (s : S) : result S :=
  match run p s with Ok (_, s') => Ok s' | Raise e => Raise e end.

(** [range(lo, hi)] and [range(n)]; empty when [hi <= lo]. *)
Definition range2 (lo hi : Z) : list Z := seqZ lo (hi - lo).
Definition range (n : Z) : list Z := range2 0 n.

(** [s * k] on a string: [k] copies of [s], none when [k <= 0]. *)
Fixpoint str_repeat_nat (s : string) (k : nat) : string :=
  match k with
  | O => ""
  | S k' => s +:+ str_repeat_nat s k'
  end.
Definition str_mul (s : string) (k : Z) : string := str_repeat_nat s (Z.to_nat k).

(** Truth value of a string: non-empty. *)
Definition truthy (s : string) : bool :=
  match s with EmptyString => false | String _ _ => true end.

(** [sum(l)]: left to right from [0]. *)
Definition sum (l : list Q) : Q := fold_left Qplus l 0%Q.

(** [a / b] on numbers: true division. *)
Definition truediv (a b : Q) : result Q :=
  if Qeq_bool b 0 then Raise ZeroDivisionError else Ok (a / b)%Q.

(** [a % b] on floats: the result has the sign of the divisor,
    [a - b * floor (a / b)]. *)
Definition mod_ (a b : Q) : result Q :=
  if Qeq_bool b 0 then Raise ZeroDivisionError
  else Ok (a - b * inject_Z (Qfloor (a / b)))%Q.

(** [min(a, b)] and [max(a, b)]: the first argument unless the second is
    strictly smaller (resp. larger). *)
Definition min (a b : Q) : Q := if Qle_bool a b then a else b.
Definition max (a b : Q) : Q := if Qle_bool b a then a else b.

(** [for x in xs: acc = body acc x], for a loop that also updates a local
    variable. *)
Fixpoint fold_each {S A B} (xs : list A) (acc : B) (body : B → A → prog S B)
  : prog S B :=
  match xs with
  | [] => mret acc
  | x :: rest => body acc x ≫= λ acc', fold_each rest acc' body
  end.

(** [[f x for x in xs]] where [f] may raise. *)
Fixpoint comprehension {A B} (f : A → result B) (xs : list A) : result (list B) :=
  match xs with
  | [] => mret []
  | x :: rest => f x ≫= λ y, comprehension f rest ≫= λ ys, mret (y :: ys)
  end.

(** [enumerate(xs)] *)
Definition enumerate {A} (xs : list A) : list (Z * A) :=
  imap (λ i x, (Z.of_nat i, x)) xs.

(** Characters are code points below 256; [c.isspace()] on those. *)
Definition isspace (c : Ascii.ascii) : bool :=
  let n := Ascii.nat_of_ascii c in
  ((9 <=? n) && (n <=? 13) || (28 <=? n) && (n <=? 32)
   || (n =? 133) || (n =? 160))%nat.

(** [bool(line.strip())]: some character is not white space. *)
Fixpoint strip_nonempty (line : string) : bool :=
  match line with
  | EmptyString => false
  | String c rest => negb (isspace c) || strip_nonempty rest
  end.

Definition newline : Ascii.ascii := Ascii.ascii_of_nat 10.

(** [s.split('\n')]: one more piece than there are newlines. *)
Fixpoint split_newline_go (cur : string) (s : string) : list string :=
  match s with
  | EmptyString => [String.rev cur]
  | String c rest =>
      if decide (c = newline) then String.rev cur :: split_newline_go "" rest
      else split_newline_go (String c cur) rest
  end.
Definition split_newline (s : string) : list string := split_newline_go "" s.

(** ['\n'.join(lines)] *)
Fixpoint join_newline (lines : list string) : string :=
  match lines with
  | [] => ""
  | [l] => l
  | l :: rest => l +:+ String newline (join_newline rest)
  end.

(** [sep.join(l)] *)
Fixpoint join (sep : string) (l : list string) : string :=
  match l with
  | [] => ""
  | [x] => x
  | x :: rest => x +:+ sep +:+ join sep rest
  end.

(** [any(p(x) for x in l)] *)
Definition any {A} (p : A → bool) (l : list A) : bool := existsb p l.

End Py.

Import Py.


(* ===================================================================== *)
(** * xml.etree.ElementTree                                               *)
(* ===================================================================== *)

Module ET.

(** A dictionary with string keys in insertion order. *)
Definition dict : Type := list (string * string).

(** [d[k] = v]: overwrite in place, or append a new key. *)
Fixpoint dict_set (d : dict) (k v : string) : dict :=
  match d with
  | [] => [(k, v)]
  | (k', v') :: d' =>
      if decide (k' = k) then (k, v) :: d' else (k', v') :: dict_set d' k v
  end.

Fixpoint dict_get (d : dict) (k : string) : option string :=
  match d with
  | [] => None
  | (k', v') :: d' => if decide (k' = k) then Some v' else dict_get d' k
  end.

#[warnings="-register-all"]
Inductive Element : Type :=
| Elem (tag : string) (attrib : dict) (children : list Element).

Definition tag (e : Element) : string := let 'Elem t _ _ := e in t.
Definition attrib (e : Element) : dict := let 'Elem _ a _ := e in a.
Definition children (e : Element) : list Element := let 'Elem _ _ c := e in c.

(** [ET.Element(tag)] *)
Definition Element_new (t : string) : Element := Elem t [] [].

(** [elem.set(key, value)] *)
Definition set (e : Element) (k v : string) : Element :=
  let 'Elem t a c := e in Elem t (dict_set a k v) c.

(** [parent.append(child)]; [ET.SubElement(parent, tag)] followed by the
    [set] calls on the new child builds the child and appends it. *)
Definition append (parent child : Element) : Element :=
  let 'Elem t a c := parent in Elem t a (c ++ [child]).

(** [for key, value in d.items(): elem.set(key, value)] *)
Definition set_items (e : Element) (d : dict) : Element :=
  fold_left (λ e kv, set e kv.1 kv.2) d e.

End ET.

(** Functions of the Python runtime and standard library that the
    repository calls and does not define. *)
Class Runtime : Type := {
  (** [str(x)] on a number held in a float-typed field *)
  str_float : Q → string;
  (** [math.radians], [math.cos], [math.sin] *)
  math_radians : Q → Q;
  math_cos : Q → Q;
  math_sin : Q → Q;
  (** [minidom.parseString(ET.tostring(elem, encoding='unicode')).toprettyxml(indent="    ")] *)
  toprettyxml : ET.Element → string;
  (** [os.path.join(a, b)] *)
  path_join : string → string → string;
}.

(* ===================================================================== *)
(** * src/core/xml_generators.py                                          *)
(* ===================================================================== *)

Module XmlGenerators.

(** The files written so far: path to content. *)
Abbreviation files := (gmap string string).

Section XmlGenerators.
Context `{RT : Runtime}.

(** ** Data classes *)

Record Node : Type := mkNode {
  Node_id : string;
  Node_x : Q;
  Node_y : Q;
  node_type : string;
  Node_tl_type : string;
}.

Definition valid_types : list string :=
  ["priority"; "traffic_light"; "right_before_left"; "unregulated"; "dead_end"].

(** [Node(id, x, y, node_type, tl_type)]: the dataclass constructor
    followed by [__post_init__].  The [isinstance] tests hold by typing. *)
Definition Node_new (id : string) (x y : Q) (node_type tl_type : string)
  : result Node :=
  if negb (truthy id) then Raise (ValueError "Node ID must be a non-empty string")
  else if negb (bool_decide (node_type ∈ valid_types))
  then Raise (ValueError "Invalid node_type. Must be one of: ['priority', 'traffic_light', 'right_before_left', 'unregulated', 'dead_end']")
  else Ok (mkNode id x y node_type tl_type).

Definition Node_to_xml_attrib (self : Node) : ET.dict :=
  let attrib := [("id", Node_id self); ("x", str_float (Node_x self));
                 ("y", str_float (Node_y self)); ("type", node_type self)] in
  if bool_decide (node_type self = "traffic_light") && truthy (Node_tl_type self)
  then ET.dict_set attrib "tlType" (Node_tl_type self)
  else attrib.

Record Edge : Type := mkEdge {
  Edge_id : string;
  from_node : string;
  to_node : string;
  num_lanes : Z;
  speed : Q;
  priority : Z;
  edge_type : string;
  allow : string;
  disallow : string;
}.

(** [Edge(id, from_node, to_node, num_lanes=..., speed=..., priority=...)]
    with [edge_type], [allow] and [disallow] left at their default [""]. *)
Definition Edge_new (id from_node to_node : string) (num_lanes : Z) (speed : Q)
    (priority : Z) : result Edge :=
  if negb (truthy id) then Raise (ValueError "Edge ID must be a non-empty string")
  else if negb (truthy from_node)
  then Raise (ValueError "from_node must be a non-empty string")
  else if negb (truthy to_node)
  then Raise (ValueError "to_node must be a non-empty string")
  else if bool_decide (from_node = to_node)
  then Raise (ValueError ("Edge cannot connect node to itself: " +:+ from_node))
  else if (num_lanes <? 1)%Z
  then Raise (ValueError "num_lanes must be a positive integer")
  else if Qle_bool speed 0
  then Raise (ValueError "speed must be a positive number")
  else Ok (mkEdge id from_node to_node num_lanes speed priority "" "" "").

Definition Edge_to_xml_attrib (self : Edge) : ET.dict :=
  let attrib := [("id", Edge_id self); ("from", from_node self);
                 ("to", to_node self); ("numLanes", pretty (num_lanes self));
                 ("speed", str_float (speed self));
                 ("priority", pretty (priority self))] in
  let attrib := if truthy (edge_type self)
                then ET.dict_set attrib "type" (edge_type self) else attrib in
  let attrib := if truthy (allow self)
                then ET.dict_set attrib "allow" (allow self) else attrib in
  if truthy (disallow self)
  then ET.dict_set attrib "disallow" (disallow self) else attrib.

Record Connection : Type := mkConnection {
  Connection_from_edge : string;
  Connection_to_edge : string;
  from_lane : Z;
  to_lane : Z;
}.

Definition Connection_to_xml_attrib (self : Connection) : ET.dict :=
  [("from", Connection_from_edge self); ("to", Connection_to_edge self);
   ("fromLane", pretty (from_lane self)); ("toLane", pretty (to_lane self))].

Record Phase : Type := mkPhase {
  duration : Z;
  state : string;
  min_dur : Z;
  max_dur : Z;
  Phase_name : string;
}.

(** [Phase(duration, state, min_dur, max_dur, name)] with [__post_init__]. *)
Definition Phase_new (duration : Z) (state : string) (min_dur max_dur : Z)
    (name : string) : result Phase :=
  if (duration <=? 0)%Z
  then Raise (ValueError "Phase duration must be a positive integer")
  else if negb (truthy state)
  then Raise (ValueError "Phase state must be a non-empty string")
  else if (min_dur <? 0)%Z then Raise (ValueError "min_dur cannot be negative")
  else if (max_dur <? 0)%Z then Raise (ValueError "max_dur cannot be negative")
  else if (0 <? max_dur)%Z && (0 <? min_dur)%Z && (max_dur <? min_dur)%Z
  then Raise (ValueError "min_dur cannot be greater than max_dur")
  else Ok (mkPhase duration state min_dur max_dur name).

Definition Phase_to_xml_attrib (self : Phase) : ET.dict :=
  let attrib := [("duration", pretty (duration self)); ("state", state self)] in
  let attrib := if (0 <? min_dur self)%Z
                then ET.dict_set attrib "minDur" (pretty (min_dur self))
                else attrib in
  let attrib := if (0 <? max_dur self)%Z
                then ET.dict_set attrib "maxDur" (pretty (max_dur self))
                else attrib in
  if truthy (Phase_name self)
  then ET.dict_set attrib "name" (Phase_name self) else attrib.

(** The dataclass has no [__post_init__]: any list of phases is accepted. *)
Record TrafficLight : Type := mkTrafficLight {
  TrafficLight_id : string;
  phases : list Phase;
  TrafficLight_tl_type : string;
  program_id : string;
  offset : Z;
}.

(** [TrafficLight(id, phases=..., tl_type=...)], the other fields at their
    defaults. *)
Definition TrafficLight_new (id : string) (phases : list Phase)
    (tl_type : string) : TrafficLight :=
  mkTrafficLight id phases tl_type "0" 0.

Definition phase_element (phase : Phase) : ET.Element :=
  ET.set_items (ET.Element_new "phase") (Phase_to_xml_attrib phase).

Definition TrafficLight_to_xml_element (self : TrafficLight) : ET.Element :=
  let tl := ET.Element_new "tlLogic" in
  let tl := ET.set tl "id" (TrafficLight_id self) in
  let tl := ET.set tl "type" (TrafficLight_tl_type self) in
  let tl := ET.set tl "programID" (program_id self) in
  let tl := ET.set tl "offset" (pretty (offset self)) in
  fold_left (λ tl phase, ET.append tl (phase_element phase)) (phases self) tl.


Record Flow : Type := mkFlow {
  Flow_id : string;
  Flow_from_edge : string;
  Flow_to_edge : string;
  route_id : string;
  vtype : string;
  Flow_begin : Q;
  Flow_end : Q;
  vehs_per_hour : Q;
  probability : Q;
  period : Q;
  number : Z;
}.

(** [x > 0] on a number *)
Definition positive (x : Q) : bool := negb (Qle_bool x 0).

Definition Flow_to_xml_element (self : Flow) : ET.Element :=
  let flow := ET.Element_new "flow" in
  let flow := ET.set flow "id" (Flow_id self) in
  let flow := ET.set flow "type" (vtype self) in
  let flow := ET.set flow "begin" (str_float (Flow_begin self)) in
  let flow := ET.set flow "end" (str_float (Flow_end self)) in
  let flow :=
    if truthy (route_id self) then ET.set flow "route" (route_id self)
    else
      let flow := if truthy (Flow_from_edge self)
                  then ET.set flow "from" (Flow_from_edge self) else flow in
      if truthy (Flow_to_edge self)
      then ET.set flow "to" (Flow_to_edge self) else flow in
  if positive (vehs_per_hour self)
  then ET.set flow "vehsPerHour" (str_float (vehs_per_hour self))
  else if positive (probability self)
  then ET.set flow "probability" (str_float (probability self))
  else if positive (period self)
  then ET.set flow "period" (str_float (period self))
  else if (0 <? number self)%Z
  then ET.set flow "number" (pretty (number self))
  else flow.

(** ** XML generators *)

(** [XMLGenerator.prettify] *)
Definition prettify (elem : ET.Element) : string := toprettyxml elem.

(** [XMLGenerator.save]: the pretty-printed text without its blank lines. *)
Definition file_text (elem : ET.Element) : string :=
  let xml_string := prettify elem in
  let lines := filter (λ line, strip_nonempty line = true)
                 (split_newline xml_string) in
  join_newline lines.

Definition save (elem : ET.Element) (filepath : string) : prog files unit :=
  modify (λ fs : files, <[filepath := file_text elem]> fs).

Record NetworkGenerator : Type := mkNetworkGenerator {
  nodes : list Node;
  edges : list Edge;
  connections : list Connection;
  traffic_lights : list TrafficLight;
}.

(** [NetworkGenerator()] *)
Definition NetworkGenerator_new : NetworkGenerator :=
  mkNetworkGenerator [] [] [] [].

Definition add_node (node : Node) : prog NetworkGenerator unit :=
  modify (λ self, mkNetworkGenerator (nodes self ++ [node]) (edges self)
                    (connections self) (traffic_lights self)).

Definition add_edge (edge : Edge) : prog NetworkGenerator unit :=
  modify (λ self, mkNetworkGenerator (nodes self) (edges self ++ [edge])
                    (connections self) (traffic_lights self)).


Definition add_traffic_light (tl : TrafficLight) : prog NetworkGenerator unit :=
  modify (λ self, mkNetworkGenerator (nodes self) (edges self)
                    (connections self) (traffic_lights self ++ [tl])).

(** [ET.SubElement(root, tag)] then one [set] per item of [attrib]. *)
Definition sub_element (root : ET.Element) (tag : string) (attrib : ET.dict)
  : ET.Element :=
  ET.append root (ET.set_items (ET.Element_new tag) attrib).

Definition generate_nodes_xml (self : NetworkGenerator) : ET.Element :=
  fold_left (λ root node, sub_element root "node" (Node_to_xml_attrib node))
    (nodes self) (ET.Element_new "nodes").

Definition generate_edges_xml (self : NetworkGenerator) : ET.Element :=
  fold_left (λ root edge, sub_element root "edge" (Edge_to_xml_attrib edge))
    (edges self) (ET.Element_new "edges").

Definition generate_connections_xml (self : NetworkGenerator) : ET.Element :=
  fold_left (λ root conn,
               sub_element root "connection" (Connection_to_xml_attrib conn))
    (connections self) (ET.Element_new "connections").

Definition generate_tll_xml (self : NetworkGenerator) : ET.Element :=
  fold_left (λ root tl, ET.append root (TrafficLight_to_xml_element tl))
    (traffic_lights self) (ET.Element_new "tlLogics").

(** Truth value of a list: non-empty. *)
Definition nonempty {A} (l : list A) : bool :=
  match l with [] => false | _ :: _ => true end.

(** [save_all]: directories are not modelled, [os.makedirs] has no effect
    on [files]. *)
Definition save_all (self : NetworkGenerator) (base_path name : string)
  : prog files unit :=
  save (generate_nodes_xml self) (path_join base_path (name +:+ ".nod.xml")) ≫= λ _,
  save (generate_edges_xml self) (path_join base_path (name +:+ ".edg.xml")) ≫= λ _,
  (if nonempty (connections self)
   then save (generate_connections_xml self)
          (path_join base_path (name +:+ ".con.xml"))
   else mret tt) ≫= λ _,
  (if nonempty (traffic_lights self)
   then save (generate_tll_xml self) (path_join base_path (name +:+ ".tll.xml"))
   else mret tt).

(** ** Helper functions *)

Definition kmh_to_ms (kmh : Q) : Q := (kmh / 3.6)%Q.

Definition calculate_webster_cycle (critical_ratios : list Q) (lost_time : Q)
  : result Q :=
  let Y := Py.sum critical_ratios in
  if Qle_bool 1 Y
  then Raise (ValueError "Sum of critical ratios must be less than 1")
  else truediv (1.5 * lost_time + 5)%Q (1 - Y)%Q.

Definition ms_to_kmh (ms : Q) : Q := (ms * 3.6)%Q.

(** ** Demand data classes *)

Record VehicleType : Type := mkVehicleType {
  VehicleType_id : string;
  vt_length : Q;
  min_gap : Q;
  max_speed : Q;
  accel : Q;
  decel : Q;
  sigma : Q;
  tau : Q;
  vclass : string;
  color : string;
  emission_class : string;
  car_follow_model : string;
}.

Definition VehicleType_to_xml_element (self : VehicleType) : ET.Element :=
  let vtype := ET.Element_new "vType" in
  let vtype := ET.set vtype "id" (VehicleType_id self) in
  let vtype := ET.set vtype "length" (str_float (vt_length self)) in
  let vtype := ET.set vtype "minGap" (str_float (min_gap self)) in
  let vtype := ET.set vtype "maxSpeed" (str_float (max_speed self)) in
  let vtype := ET.set vtype "accel" (str_float (accel self)) in
  let vtype := ET.set vtype "decel" (str_float (decel self)) in
  let vtype := ET.set vtype "sigma" (str_float (sigma self)) in
  let vtype := ET.set vtype "tau" (str_float (tau self)) in
  let vtype := ET.set vtype "vClass" (vclass self) in
  let vtype := ET.set vtype "emissionClass" (emission_class self) in
  let vtype := if truthy (color self)
               then ET.set vtype "color" (color self) else vtype in
  if truthy (car_follow_model self)
  then ET.set vtype "carFollowModel" (car_follow_model self) else vtype.

Record Route : Type := mkRoute {
  Route_id : string;
  Route_edges : list string;
}.

Definition Route_to_xml_element (self : Route) : ET.Element :=
  let route := ET.Element_new "route" in
  let route := ET.set route "id" (Route_id self) in
  ET.set route "edges" (join " " (Route_edges self)).

Record Vehicle : Type := mkVehicle {
  Vehicle_id : string;
  Vehicle_route_id : string;
  route_edges : list string;
  Vehicle_vtype : string;
  depart : string;
  depart_lane : string;
  depart_speed : string;
}.

Definition Vehicle_to_xml_element (self : Vehicle) : ET.Element :=
  let veh := ET.Element_new "vehicle" in
  let veh := ET.set veh "id" (Vehicle_id self) in
  let veh := ET.set veh "type" (Vehicle_vtype self) in
  let veh := ET.set veh "depart" (depart self) in
  let veh := ET.set veh "departLane" (depart_lane self) in
  let veh := ET.set veh "departSpeed" (depart_speed self) in
  if truthy (Vehicle_route_id self)
  then ET.set veh "route" (Vehicle_route_id self)
  else if nonempty (route_edges self)
  then ET.append veh (ET.set (ET.Element_new "route") "edges"
                        (join " " (route_edges self)))
  else veh.

(** ** RouteGenerator *)

Record RouteGenerator : Type := mkRouteGenerator {
  vehicle_types : list VehicleType;
  routes : list Route;
  vehicles : list Vehicle;
  flows : list Flow;
}.

Definition RouteGenerator_new : RouteGenerator := mkRouteGenerator [] [] [] [].

Definition add_vehicle_type (vtype : VehicleType) : prog RouteGenerator unit :=
  modify (λ self, mkRouteGenerator (vehicle_types self ++ [vtype]) (routes self)
                    (vehicles self) (flows self)).

Definition add_route (route : Route) : prog RouteGenerator unit :=
  modify (λ self, mkRouteGenerator (vehicle_types self) (routes self ++ [route])
                    (vehicles self) (flows self)).

Definition add_vehicle (vehicle : Vehicle) : prog RouteGenerator unit :=
  modify (λ self, mkRouteGenerator (vehicle_types self) (routes self)
                    (vehicles self ++ [vehicle]) (flows self)).

Definition add_flow (flow : Flow) : prog RouteGenerator unit :=
  modify (λ self, mkRouteGenerator (vehicle_types self) (routes self)
                    (vehicles self) (flows self ++ [flow])).

Definition RouteGenerator_generate_xml (self : RouteGenerator) : ET.Element :=
  let root := ET.Element_new "routes" in
  let root := fold_left (λ root vtype,
                           ET.append root (VehicleType_to_xml_element vtype))
                (vehicle_types self) root in
  let root := fold_left (λ root route, ET.append root (Route_to_xml_element route))
                (routes self) root in
  let root := fold_left (λ root vehicle,
                           ET.append root (Vehicle_to_xml_element vehicle))
                (vehicles self) root in
  fold_left (λ root flow, ET.append root (Flow_to_xml_element flow))
    (flows self) root.

Definition RouteGenerator_save (self : RouteGenerator) (filepath : string)
  : prog files unit :=
  save (RouteGenerator_generate_xml self) filepath.

(** ** ConfigGenerator *)

Record ConfigGenerator : Type := mkConfigGenerator {
  net_file : string;
  route_files : list string;
  additional_files : list string;
  Config_begin : Q;
  Config_end : Q;
  step_length : Q;
  tripinfo_output : string;
  fcd_output : string;
  emission_output : string;
  summary_output : string;
  queue_output : string;
  statistic_output : string;
  time_to_teleport : Z;
  ignore_route_errors : bool;
}.

Definition ConfigGenerator_new : ConfigGenerator :=
  mkConfigGenerator "" [] [] 0 3600 1 "" "" "" "" "" "" (-1) true.

Definition set_network (net_file : string) : prog ConfigGenerator unit :=
  modify (λ self,
    mkConfigGenerator net_file (route_files self) (additional_files self)
      (Config_begin self) (Config_end self) (step_length self)
      (tripinfo_output self) (fcd_output self) (emission_output self)
      (summary_output self) (queue_output self) (statistic_output self)
      (time_to_teleport self) (ignore_route_errors self)).

Definition add_route_file (route_file : string) : prog ConfigGenerator unit :=
  modify (λ self,
    mkConfigGenerator (net_file self) (route_files self ++ [route_file])
      (additional_files self)
      (Config_begin self) (Config_end self) (step_length self)
      (tripinfo_output self) (fcd_output self) (emission_output self)
      (summary_output self) (queue_output self) (statistic_output self)
      (time_to_teleport self) (ignore_route_errors self)).

Definition add_additional_file (add_file : string) : prog ConfigGenerator unit :=
  modify (λ self,
    mkConfigGenerator (net_file self) (route_files self)
      (additional_files self ++ [add_file])
      (Config_begin self) (Config_end self) (step_length self)
      (tripinfo_output self) (fcd_output self) (emission_output self)
      (summary_output self) (queue_output self) (statistic_output self)
      (time_to_teleport self) (ignore_route_errors self)).

(** [set_time(begin, end, step_length)]; a caller that leaves [step_length]
    out passes its default [1.0]. *)
Definition set_time (begin end_ step_length : Q) : prog ConfigGenerator unit :=
  modify (λ self,
    mkConfigGenerator (net_file self) (route_files self) (additional_files self)
      begin end_ step_length
      (tripinfo_output self) (fcd_output self) (emission_output self)
      (summary_output self) (queue_output self) (statistic_output self)
      (time_to_teleport self) (ignore_route_errors self)).

(** [set_outputs(tripinfo, fcd, emission, summary, queue, statistic)]; a
    keyword that the caller leaves out has its default [""]. *)
Definition set_outputs (tripinfo fcd emission summary queue statistic : string)
  : prog ConfigGenerator unit :=
  modify (λ self,
    mkConfigGenerator (net_file self) (route_files self) (additional_files self)
      (Config_begin self) (Config_end self) (step_length self)
      tripinfo fcd emission summary queue statistic
      (time_to_teleport self) (ignore_route_errors self)).

(** [ET.SubElement(parent, tag).set("value", value)] *)
Definition value_child (parent : ET.Element) (tag value : string) : ET.Element :=
  ET.append parent (ET.set (ET.Element_new tag) "value" value).

(** The section elements are created by [ET.SubElement(root, ...)] and filled
    afterwards through the same object; the tree that results is the one
    built here by filling each section and then appending it. *)
Definition ConfigGenerator_generate_xml (self : ConfigGenerator) : ET.Element :=
  let root := ET.Element_new "configuration" in
  let input_elem := ET.Element_new "input" in
  let input_elem := if truthy (net_file self)
                    then value_child input_elem "net-file" (net_file self)
                    else input_elem in
  let input_elem := if nonempty (route_files self)
                    then value_child input_elem "route-files"
                           (join "," (route_files self))
                    else input_elem in
  let input_elem := if nonempty (additional_files self)
                    then value_child input_elem "additional-files"
                           (join "," (additional_files self))
                    else input_elem in
  let time_elem := ET.Element_new "time" in
  let time_elem := value_child time_elem "begin" (str_float (Config_begin self)) in
  let time_elem := value_child time_elem "end" (str_float (Config_end self)) in
  let time_elem := value_child time_elem "step-length"
                     (str_float (step_length self)) in
  let output_elem := ET.Element_new "output" in
  let output_elem := if truthy (tripinfo_output self)
                     then value_child output_elem "tripinfo-output"
                            (tripinfo_output self)
                     else output_elem in
  let output_elem := if truthy (fcd_output self)
                     then value_child output_elem "fcd-output" (fcd_output self)
                     else output_elem in
  let output_elem := if truthy (emission_output self)
                     then value_child output_elem "emission-output"
                            (emission_output self)
                     else output_elem in
  let output_elem := if truthy (summary_output self)
                     then value_child output_elem "summary-output"
                            (summary_output self)
                     else output_elem in
  let output_elem := if truthy (queue_output self)
                     then value_child output_elem "queue-output" (queue_output self)
                     else output_elem in
  let output_elem := if truthy (statistic_output self)
                     then value_child output_elem "statistic-output"
                            (statistic_output self)
                     else output_elem in
  let processing_elem := ET.Element_new "processing" in
  let processing_elem := value_child processing_elem "time-to-teleport"
                           (pretty (time_to_teleport self)) in
  let processing_elem := if ignore_route_errors self
                         then value_child processing_elem "ignore-route-errors"
                                "true"
                         else processing_elem in
  ET.append (ET.append (ET.append (ET.append root input_elem) time_elem)
               output_elem) processing_elem.

Definition ConfigGenerator_save (self : ConfigGenerator) (filepath : string)
  : prog files unit :=
  save (ConfigGenerator_generate_xml self) filepath.

(** ** AdditionalGenerator *)

Record AdditionalGenerator : Type := mkAdditionalGenerator {
  elements : list ET.Element;
}.

Definition AdditionalGenerator_new : AdditionalGenerator :=
  mkAdditionalGenerator [].

Definition elements_append (elem : ET.Element) : prog AdditionalGenerator unit :=
  modify (λ self, mkAdditionalGenerator (elements self ++ [elem])).

(** The keyword arguments with a default ([period], [file], [endPos],
    [name], [capacity]) are passed by the caller. *)
Definition add_induction_loop (id lane : string) (pos : Q) (period : Z)
    (file : string) : prog AdditionalGenerator unit :=
  let elem := ET.Element_new "inductionLoop" in
  let elem := ET.set elem "id" id in
  let elem := ET.set elem "lane" lane in
  let elem := ET.set elem "pos" (str_float pos) in
  let elem := ET.set elem "period" (pretty period) in
  let elem := ET.set elem "file" file in
  elements_append elem.

Definition add_lane_area_detector (id lane : string) (pos endPos : Q)
    (period : Z) (file : string) : prog AdditionalGenerator unit :=
  let elem := ET.Element_new "laneAreaDetector" in
  let elem := ET.set elem "id" id in
  let elem := ET.set elem "lane" lane in
  let elem := ET.set elem "pos" (str_float pos) in
  let elem := if positive endPos
              then ET.set elem "endPos" (str_float endPos) else elem in
  let elem := ET.set elem "period" (pretty period) in
  let elem := ET.set elem "file" file in
  elements_append elem.

Definition add_bus_stop (id lane : string) (start_pos end_pos : Q)
    (name : string) : prog AdditionalGenerator unit :=
  let elem := ET.Element_new "busStop" in
  let elem := ET.set elem "id" id in
  let elem := ET.set elem "lane" lane in
  let elem := ET.set elem "startPos" (str_float start_pos) in
  let elem := ET.set elem "endPos" (str_float end_pos) in
  let elem := if truthy name then ET.set elem "name" name else elem in
  elements_append elem.

Definition add_parking_area (id lane : string) (start_pos end_pos : Q)
    (capacity : Z) : prog AdditionalGenerator unit :=
  let elem := ET.Element_new "parkingArea" in
  let elem := ET.set elem "id" id in
  let elem := ET.set elem "lane" lane in
  let elem := ET.set elem "startPos" (str_float start_pos) in
  let elem := ET.set elem "endPos" (str_float end_pos) in
  let elem := ET.set elem "roadsideCapacity" (pretty capacity) in
  elements_append elem.

Definition AdditionalGenerator_generate_xml (self : AdditionalGenerator)
  : ET.Element :=
  fold_left (λ root elem, ET.append root elem) (elements self)
    (ET.Element_new "additional").

Definition AdditionalGenerator_save (self : AdditionalGenerator)
    (filepath : string) : prog files unit :=
  save (AdditionalGenerator_generate_xml self) filepath.

End XmlGenerators.
End XmlGenerators.

(* ===================================================================== *)
(** * src/network/templates.py                                            *)
(* ===================================================================== *)

(** Each template class is a module: [t] holds the fields that [__init__]
    stores, [generate] is the method.  The [name] and [description] strings
    of the base class are not used by [generate] and are left out. *)

Module FourWayIntersection.
Section FourWayIntersection.
Context `{RT : Runtime}.
Import XmlGenerators.
Local Open Scope Z_scope.

Record t : Type := mk {
  arm_length : Q;
  lanes_per_arm : Z;
  speed_limit : Q;
  signal_type : string;
  green_time_ns : Z;
  green_time_ew : Z;
  yellow_time : Z;
}.

Definition edge_table : list (string * string * string) :=
  [("N2C", "N", "C"); ("C2N", "C", "N"); ("S2C", "S", "C"); ("C2S", "C", "S");
   ("E2C", "E", "C"); ("C2E", "C", "E"); ("W2C", "W", "C"); ("C2W", "C", "W")].

Definition generate_body (self : t) : prog NetworkGenerator unit :=
  let speed := kmh_to_ms (speed_limit self) in
  lift (Node_new "C" 0 0 "traffic_light" (signal_type self)) ≫= add_node;;
  lift (Node_new "N" 0 (arm_length self) "priority" "") ≫= add_node;;
  lift (Node_new "S" 0 (- arm_length self) "priority" "") ≫= add_node;;
  lift (Node_new "E" (arm_length self) 0 "priority" "") ≫= add_node;;
  lift (Node_new "W" (- arm_length self) 0 "priority" "") ≫= add_node;;
  for_each edge_table (λ '(edge_id, from_node, to_node),
    lift (Edge_new edge_id from_node to_node (lanes_per_arm self) speed 1)
      ≫= add_edge);;
  let n := lanes_per_arm self in
  let ns_green := str_mul "G" (n * 2) +:+ str_mul "r" (n * 2)
                  +:+ str_mul "G" (n * 2) +:+ str_mul "r" (n * 2) in
  let ns_yellow := str_mul "y" (n * 2) +:+ str_mul "r" (n * 2)
                   +:+ str_mul "y" (n * 2) +:+ str_mul "r" (n * 2) in
  let ew_green := str_mul "r" (n * 2) +:+ str_mul "G" (n * 2)
                  +:+ str_mul "r" (n * 2) +:+ str_mul "G" (n * 2) in
  let ew_yellow := str_mul "r" (n * 2) +:+ str_mul "y" (n * 2)
                   +:+ str_mul "r" (n * 2) +:+ str_mul "y" (n * 2) in
  p1 ← lift (Phase_new (green_time_ns self) ns_green 0 0 "NS_Green");
  p2 ← lift (Phase_new (yellow_time self) ns_yellow 0 0 "NS_Yellow");
  p3 ← lift (Phase_new (green_time_ew self) ew_green 0 0 "EW_Green");
  p4 ← lift (Phase_new (yellow_time self) ew_yellow 0 0 "EW_Yellow");
  add_traffic_light (TrafficLight_new "C" [p1; p2; p3; p4] (signal_type self)).

Definition generate (self : t) : result NetworkGenerator :=
  exec (generate_body self) NetworkGenerator_new.

End FourWayIntersection.
End FourWayIntersection.

Module ThreeWayIntersection.
Section ThreeWayIntersection.
Context `{RT : Runtime}.
Import XmlGenerators.
Local Open Scope Z_scope.

Record t : Type := mk {
  arm_length : Q;
  lanes_per_arm : Z;
  speed_limit : Q;
  has_signal : bool;
}.

Definition edge_table : list (string * string * string) :=
  [("N2C", "N", "C"); ("C2N", "C", "N"); ("E2C", "E", "C"); ("C2E", "C", "E");
   ("W2C", "W", "C"); ("C2W", "C", "W")].

Definition generate_body (self : t) : prog NetworkGenerator unit :=
  let speed := kmh_to_ms (speed_limit self) in
  let node_type := if has_signal self then "traffic_light" else "priority" in
  lift (Node_new "C" 0 0 node_type "") ≫= add_node;;
  lift (Node_new "N" 0 (arm_length self) "priority" "") ≫= add_node;;
  lift (Node_new "E" (arm_length self) 0 "priority" "") ≫= add_node;;
  lift (Node_new "W" (- arm_length self) 0 "priority" "") ≫= add_node;;
  for_each edge_table (λ '(edge_id, from_node, to_node),
    lift (Edge_new edge_id from_node to_node (lanes_per_arm self) speed 1)
      ≫= add_edge);;
  if has_signal self then
    let n := lanes_per_arm self in
    p1 ← lift (Phase_new 30 (str_mul "G" (n * 2) +:+ str_mul "r" (n * 2)
                              +:+ str_mul "r" (n * 2)) 0 0 "");
    p2 ← lift (Phase_new 3 (str_mul "y" (n * 2) +:+ str_mul "r" (n * 2)
                             +:+ str_mul "r" (n * 2)) 0 0 "");
    p3 ← lift (Phase_new 30 (str_mul "r" (n * 2) +:+ str_mul "G" (n * 2)
                              +:+ str_mul "G" (n * 2)) 0 0 "");
    p4 ← lift (Phase_new 3 (str_mul "r" (n * 2) +:+ str_mul "y" (n * 2)
                             +:+ str_mul "y" (n * 2)) 0 0 "");
    add_traffic_light (TrafficLight_new "C" [p1; p2; p3; p4] "static")
  else mret tt.

Definition generate (self : t) : result NetworkGenerator :=
  exec (generate_body self) NetworkGenerator_new.

End ThreeWayIntersection.
End ThreeWayIntersection.

Module Roundabout.
Section Roundabout.
Context `{RT : Runtime}.
Import XmlGenerators.
Local Open Scope Z_scope.

Record t : Type := mk {
  num_arms : Z;
  radius : Q;
  arm_length : Q;
  lanes_per_arm : Z;
  roundabout_lanes : Z;
  speed_limit : Q;
}.

(** [f"R{i}"], [f"A{i}"] *)
Definition R (i : Z) : string := "R" +:+ pretty i.
Definition A (i : Z) : string := "A" +:+ pretty i.

Definition generate_body (self : t) : prog NetworkGenerator unit :=
  let speed := kmh_to_ms (speed_limit self) in
  angles ← lift (comprehension
                   (λ i, step ← truediv 360 (inject_Z (num_arms self));
                         mret (inject_Z i * step)%Q)
                   (range (num_arms self)));
  for_each (enumerate angles) (λ '(i, angle),
    let rad := math_radians (angle - 90) in
    let x := (radius self * math_cos rad)%Q in
    let y := (radius self * math_sin rad)%Q in
    lift (Node_new (R i) x y "priority" "") ≫= add_node);;
  for_each (enumerate angles) (λ '(i, angle),
    let rad := math_radians (angle - 90) in
    let x := ((radius self + arm_length self) * math_cos rad)%Q in
    let y := ((radius self + arm_length self) * math_sin rad)%Q in
    lift (Node_new (A i) x y "priority" "") ≫= add_node);;
  for_each (range (num_arms self)) (λ i,
    let next_i := ((i + 1) `mod` num_arms self)%Z in
    lift (Edge_new (R i +:+ "2" +:+ R next_i) (R i) (R next_i)
            (roundabout_lanes self) speed 1) ≫= add_edge);;
  for_each (range (num_arms self)) (λ i,
    lift (Edge_new (A i +:+ "2" +:+ R i) (A i) (R i)
            (lanes_per_arm self) speed 1) ≫= add_edge;;
    lift (Edge_new (R i +:+ "2" +:+ A i) (R i) (A i)
            (lanes_per_arm self) speed 1) ≫= add_edge).

Definition generate (self : t) : result NetworkGenerator :=
  exec (generate_body self) NetworkGenerator_new.

End Roundabout.
End Roundabout.

Module GridNetwork.
Section GridNetwork.
Context `{RT : Runtime}.
Import XmlGenerators.
Local Open Scope Z_scope.

Record t : Type := mk {
  rows : Z;
  cols : Z;
  block_length : Q;
  lanes : Z;
  speed_limit : Q;
  signalized : bool;
}.

(** [f"n{row}_{col}"] *)
Definition n_ (row col : Z) : string := "n" +:+ pretty row +:+ "_" +:+ pretty col.
(** [f"e{row}_{col}_EB"] and the like *)
Definition e_ (row col : Z) (dir : string) : string :=
  "e" +:+ pretty row +:+ "_" +:+ pretty col +:+ "_" +:+ dir.

Definition generate_body (self : t) : prog NetworkGenerator unit :=
  let speed := kmh_to_ms (speed_limit self) in
  for_each (range (rows self)) (λ row,
    for_each (range (cols self)) (λ col,
      let node_id := n_ row col in
      let x := (inject_Z col * block_length self)%Q in
      let y := (inject_Z row * block_length self)%Q in
      let is_edge := bool_decide (row = 0) || bool_decide (row = rows self - 1)
                     || bool_decide (col = 0) || bool_decide (col = cols self - 1) in
      let node_type := if is_edge || negb (signalized self)
                       then "priority" else "traffic_light" in
      lift (Node_new node_id x y node_type "") ≫= add_node));;
  for_each (range (rows self)) (λ row,
    for_each (range (cols self - 1)) (λ col,
      let from_id := n_ row col in
      let to_id := n_ row (col + 1) in
      lift (Edge_new (e_ row col "EB") from_id to_id (lanes self) speed 1)
        ≫= add_edge;;
      lift (Edge_new (e_ row col "WB") to_id from_id (lanes self) speed 1)
        ≫= add_edge));;
  for_each (range (rows self - 1)) (λ row,
    for_each (range (cols self)) (λ col,
      let from_id := n_ row col in
      let to_id := n_ (row + 1) col in
      lift (Edge_new (e_ row col "NB") from_id to_id (lanes self) speed 1)
        ≫= add_edge;;
      lift (Edge_new (e_ row col "SB") to_id from_id (lanes self) speed 1)
        ≫= add_edge));;
  if signalized self then
    for_each (range2 1 (rows self - 1)) (λ row,
      for_each (range2 1 (cols self - 1)) (λ col,
        let tl_id := n_ row col in
        let n := lanes self in
        p1 ← lift (Phase_new 30 (str_mul "G" (n * 4) +:+ str_mul "r" (n * 4)) 0 0 "");
        p2 ← lift (Phase_new 3 (str_mul "y" (n * 4) +:+ str_mul "r" (n * 4)) 0 0 "");
        p3 ← lift (Phase_new 30 (str_mul "r" (n * 4) +:+ str_mul "G" (n * 4)) 0 0 "");
        p4 ← lift (Phase_new 3 (str_mul "r" (n * 4) +:+ str_mul "y" (n * 4)) 0 0 "");
        add_traffic_light (TrafficLight_new tl_id [p1; p2; p3; p4] "static")))
  else mret tt.

Definition generate (self : t) : result NetworkGenerator :=
  exec (generate_body self) NetworkGenerator_new.

End GridNetwork.
End GridNetwork.

Module Corridor.
Section Corridor.
Context `{RT : Runtime}.
Import XmlGenerators.
Local Open Scope Z_scope.

Record t : Type := mk {
  num_intersections : Z;
  spacing : Q;
  main_lanes : Z;
  cross_lanes : Z;
  main_speed : Q;
  cross_speed : Q;
  signalized : bool;
}.

(** [f"M{i}"], [f"N{i}"], [f"S{i}"] *)
Definition M (i : Z) : string := "M" +:+ pretty i.
Definition N (i : Z) : string := "N" +:+ pretty i.
Definition S (i : Z) : string := "S" +:+ pretty i.

Definition cross_arm_length : Q := 150.

Definition generate_body (self : t) : prog NetworkGenerator unit :=
  let main_speed := kmh_to_ms (main_speed self) in
  let cross_speed := kmh_to_ms (cross_speed self) in
  for_each (range (num_intersections self + 2)) (λ i,
    let x := (inject_Z i * spacing self)%Q in
    if bool_decide (i = 0) || bool_decide (i = num_intersections self + 1)
    then lift (Node_new (M i) x 0 "priority" "") ≫= add_node
    else
      let node_type := if signalized self then "traffic_light" else "priority" in
      lift (Node_new (M i) x 0 node_type "") ≫= add_node;;
      lift (Node_new (N i) x cross_arm_length "priority" "") ≫= add_node;;
      lift (Node_new (S i) x (- cross_arm_length) "priority" "") ≫= add_node);;
  for_each (range (num_intersections self + 1)) (λ i,
    let from_id := M i in
    let to_id := M (i + 1) in
    lift (Edge_new ("main_" +:+ pretty i +:+ "_EB") from_id to_id
            (main_lanes self) main_speed 1) ≫= add_edge;;
    lift (Edge_new ("main_" +:+ pretty i +:+ "_WB") to_id from_id
            (main_lanes self) main_speed 1) ≫= add_edge);;
  for_each (range2 1 (num_intersections self + 1)) (λ i,
    let main_id := M i in
    let north_id := N i in
    let south_id := S i in
    lift (Edge_new ("cross_" +:+ pretty i +:+ "_NB") south_id main_id
            (cross_lanes self) cross_speed 1) ≫= add_edge;;
    lift (Edge_new ("cross_" +:+ pretty i +:+ "_NB2") main_id north_id
            (cross_lanes self) cross_speed 1) ≫= add_edge;;
    lift (Edge_new ("cross_" +:+ pretty i +:+ "_SB") north_id main_id
            (cross_lanes self) cross_speed 1) ≫= add_edge;;
    lift (Edge_new ("cross_" +:+ pretty i +:+ "_SB2") main_id south_id
            (cross_lanes self) cross_speed 1) ≫= add_edge;;
    if signalized self then
      let n_main := main_lanes self in
      let n_cross := cross_lanes self in
      p1 ← lift (Phase_new 40 (str_mul "G" (n_main * 4) +:+ str_mul "r" (n_cross * 4)) 0 0 "");
      p2 ← lift (Phase_new 3 (str_mul "y" (n_main * 4) +:+ str_mul "r" (n_cross * 4)) 0 0 "");
      p3 ← lift (Phase_new 25 (str_mul "r" (n_main * 4) +:+ str_mul "G" (n_cross * 4)) 0 0 "");
      p4 ← lift (Phase_new 3 (str_mul "r" (n_main * 4) +:+ str_mul "y" (n_cross * 4)) 0 0 "");
      add_traffic_light (TrafficLight_new main_id [p1; p2; p3; p4] "static")
    else mret tt).

Definition generate (self : t) : result NetworkGenerator :=
  exec (generate_body self) NetworkGenerator_new.

End Corridor.
End Corridor.

Module Highway.
Section Highway.
Context `{RT : Runtime}.
Import XmlGenerators.
Local Open Scope Z_scope.

Record t : Type := mk {
  length : Q;
  lanes : Z;
  speed_limit : Q;
  num_ramps : Z;
  ramp_lanes : Z;
}.

(** [f"junc_{i}"], [f"on_ramp_{i}"], [f"off_ramp_{i}"] *)
Definition junc_ (i : Z) : string := "junc_" +:+ pretty i.
Definition on_ramp_ (i : Z) : string := "on_ramp_" +:+ pretty i.
Definition off_ramp_ (i : Z) : string := "off_ramp_" +:+ pretty i.

Definition generate_body (self : t) : prog NetworkGenerator unit :=
  let speed := kmh_to_ms (speed_limit self) in
  let ramp_speed := kmh_to_ms 60 in
  ramp_spacing ← lift (truediv (length self) (inject_Z (num_ramps self + 1)));
  lift (Node_new "start" 0 0 "priority" "") ≫= add_node;;
  lift (Node_new "end" (length self) 0 "priority" "") ≫= add_node;;
  for_each (range2 1 (num_ramps self + 1)) (λ i,
    let x := (inject_Z i * ramp_spacing)%Q in
    lift (Node_new (junc_ i) x 0 "priority" "") ≫= add_node;;
    lift (Node_new (on_ramp_ i) (x - 100) (-100) "priority" "") ≫= add_node;;
    lift (Node_new (off_ramp_ i) (x + 100) (-100) "priority" "") ≫= add_node);;
  prev_node ← fold_each (range2 1 (num_ramps self + 1)) "start" (λ prev_node i,
    let junc := junc_ i in
    lift (Edge_new ("hw_" +:+ prev_node +:+ "_" +:+ junc) prev_node junc
            (lanes self) speed 3) ≫= add_edge;;
    mret junc);
  lift (Edge_new ("hw_" +:+ prev_node +:+ "_end") prev_node "end"
          (lanes self) speed 3) ≫= add_edge;;
  for_each (range2 1 (num_ramps self + 1)) (λ i,
    let junc := junc_ i in
    lift (Edge_new (on_ramp_ i) (on_ramp_ i) junc (ramp_lanes self) ramp_speed 1)
      ≫= add_edge;;
    lift (Edge_new (off_ramp_ i) junc (off_ramp_ i) (ramp_lanes self) ramp_speed 1)
      ≫= add_edge).

Definition generate (self : t) : result NetworkGenerator :=
  exec (generate_body self) NetworkGenerator_new.

End Highway.
End Highway.

(** ** Template registry *)

(** An instance of one of the six classes registered in [TEMPLATES]. *)
Inductive template : Type :=
| T4way (self : FourWayIntersection.t)
| T3way (self : ThreeWayIntersection.t)
| Troundabout (self : Roundabout.t)
| Tgrid (self : GridNetwork.t)
| Tcorridor (self : Corridor.t)
| Thighway (self : Highway.t).

(** [template.generate()], dispatched on the class of the instance. *)
Definition template_generate `{RT : Runtime} (tpl : template)
  : result XmlGenerators.NetworkGenerator :=
  match tpl with
  | T4way self => FourWayIntersection.generate self
  | T3way self => ThreeWayIntersection.generate self
  | Troundabout self => Roundabout.generate self
  | Tgrid self => GridNetwork.generate self
  | Tcorridor self => Corridor.generate self
  | Thighway self => Highway.generate self
  end.

(* ===================================================================== *)
(** * app.py, show_signal_designer: timing calculations                   *)
(* ===================================================================== *)

Module SignalDesigner.

(** [flow_ratios = [q/s for q, s in zip(flows, saturations)]] *)
Fixpoint flow_ratios_of (flows saturations : list Z) : result (list Q) :=
  match flows, saturations with
  | q :: flows', s :: saturations' =>
      y ← truediv (inject_Z q) (inject_Z s);
      ys ← flow_ratios_of flows' saturations';
      mret (y :: ys)
  | _, _ => mret []
  end.

(** [for ratio in flow_ratios: green_times.append((ratio / Y) * effective_green_time)] *)
Fixpoint green_loop (flow_ratios : list Q) (Y effective_green_time : Q)
    (green_times : list Q) : result (list Q) :=
  match flow_ratios with
  | [] => mret green_times
  | ratio :: rest =>
      r ← truediv ratio Y;
      green_loop rest Y effective_green_time
        (green_times ++ [(r * effective_green_time)%Q])
  end.

(** The Webster tab from the flow ratios on: the cycle length and the
    green times it shows. *)
Definition webster_timing (flow_ratios : list Q) (L : Q) : result (Q * list Q) :=
  let Y := Py.sum flow_ratios in
  C_opt ← truediv (1.5 * L + 5)%Q (1 - Y)%Q;
  let C_opt := Py.max 30 (Py.min C_opt 180) in
  let effective_green_time := (C_opt - L)%Q in
  green_times ← green_loop flow_ratios Y effective_green_time [];
  mret (C_opt, green_times).

(** The button handler of the Webster tab, from the widget values. *)
Definition webster_button (lost_time num_approaches : Z)
    (flows saturations : list Z) : result (Q * list Q) :=
  flow_ratios ← flow_ratios_of flows saturations;
  let L := inject_Z (lost_time * num_approaches) in
  webster_timing flow_ratios L.

(** [for dist in distances: ...; offsets.append(offset)] *)
Fixpoint offsets_loop (distances : list Q) (speed_ms common_cycle : Q)
    (offsets : list Q) : result (list Q) :=
  match distances with
  | [] => mret offsets
  | dist :: rest =>
      travel_time ← truediv dist speed_ms;
      let offset := (List.last offsets 0 + travel_time)%Q in
      offset ← mod_ offset common_cycle;
      offsets_loop rest speed_ms common_cycle (offsets ++ [offset])
  end.

(** The coordination tab from the speed in m/s on. *)
Definition green_wave_offsets (common_cycle speed_ms : Q) (distances : list Q)
  : result (list Q) :=
  offsets_loop distances speed_ms common_cycle [0%Q].

(** The button handler of the coordination tab, from the widget values. *)
Definition green_wave_button (common_cycle speed_limit : Z) (distances : list Z)
  : result (list Q) :=
  speed_ms ← truediv (inject_Z speed_limit) 3.6%Q;
  green_wave_offsets (inject_Z common_cycle) speed_ms (inject_Z <$> distances).

End SignalDesigner.


(* ===================================================================== *)
(** * app.py, show_signal_designer: capacity analysis                     *)
(* ===================================================================== *)

Module CapacityAnalysis.

(** [num_lanes * saturation_flow_per_lane * (green_time / cycle_length)] *)
Definition approach_capacity (num_lanes saturation_flow_per_lane green_time
    cycle_length : Z) : result Q :=
  share ← truediv (inject_Z green_time) (inject_Z cycle_length);
  mret (inject_Z (num_lanes * saturation_flow_per_lane) * share)%Q.

(** The "Analyze Capacity" button for a signalized intersection: the
    north-south, east-west and total capacity. *)
Definition analyze_button (num_lanes_ns num_lanes_ew cycle_length green_time_ns
    green_time_ew saturation_flow_per_lane : Z) : result (Q * Q * Q) :=
  capacity_ns ← approach_capacity num_lanes_ns saturation_flow_per_lane
                  green_time_ns cycle_length;
  capacity_ew ← approach_capacity num_lanes_ew saturation_flow_per_lane
                  green_time_ew cycle_length;
  let total_capacity := (capacity_ns + capacity_ew)%Q in
  mret (capacity_ns, capacity_ew, total_capacity).

(** The flows shown as the upper ends of the bands A to E. *)
Definition los_thresholds (total_capacity : Q) : list Q :=
  [total_capacity * 0.6; total_capacity * 0.7; total_capacity * 0.8;
   total_capacity * 0.9; total_capacity]%Q.

End CapacityAnalysis.

(* ===================================================================== *)
(** * app.py, show_network_studio: the custom network editor              *)
(* ===================================================================== *)

Module NetworkStudio.

(** The dictionaries kept in [st.session_state.custom_nodes] and
    [st.session_state.custom_edges]. *)
Record node_entry : Type := mkNodeEntry {
  n_id : string;
  n_x : Q;
  n_y : Q;
  n_type : string;
}.

Record edge_entry : Type := mkEdgeEntry {
  e_id : string;
  e_from : string;
  e_to : string;
  e_numLanes : Z;
  e_speed : Q;
  e_priority : Z;
}.

Record session : Type := mkSession {
  custom_nodes : list node_entry;
  custom_edges : list edge_entry;
}.

(** Both lists are created empty when the tab is first shown. *)
Definition session_new : session := mkSession [] [].

(** The options of the node type select box. *)
Definition type_options : list string :=
  ["priority"; "traffic_light"; "right_before_left"; "unregulated"].

(** [[n['id'] for n in st.session_state.custom_nodes]], the options of the
    two node select boxes. *)
Definition node_ids (st : session) : list string := n_id <$> custom_nodes st.

(** "Add Node": appends unless the id is empty or taken. *)
Definition add_node (node_id : string) (node_x node_y : Q) (node_type : string)
    (st : session) : session :=
  if truthy node_id
     && negb (any (λ n, bool_decide (n_id n = node_id)) (custom_nodes st))
  then mkSession (custom_nodes st ++ [mkNodeEntry node_id node_x node_y node_type])
         (custom_edges st)
  else st.

(** "Add Edge": appends unless the id is empty or taken or the two nodes are
    the same. *)
Definition add_edge (edge_id from_node to_node : string) (num_lanes : Z)
    (speed_limit : Q) (edge_priority : Z) (st : session) : session :=
  if truthy edge_id && negb (bool_decide (from_node = to_node))
     && negb (any (λ e, bool_decide (e_id e = edge_id)) (custom_edges st))
  then mkSession (custom_nodes st)
         (custom_edges st
          ++ [mkEdgeEntry edge_id from_node to_node num_lanes speed_limit
                edge_priority])
  else st.

(** The delete button of a node: the node goes, and every edge from or to
    it. *)
Definition delete_node (id : string) (st : session) : session :=
  mkSession
    (filter (λ n, n_id n ≠ id) (custom_nodes st))
    (filter (λ e, e_from e ≠ id ∧ e_to e ≠ id) (custom_edges st)).

(** The delete button of an edge. *)
Definition delete_edge (id : string) (st : session) : session :=
  mkSession (custom_nodes st) (filter (λ e, e_id e ≠ id) (custom_edges st)).

(** A click in the editor. *)
Inductive click : Type :=
| AddNode (node_id : string) (node_x node_y : Q) (node_type : string)
| AddEdge (edge_id from_node to_node : string) (num_lanes : Z) (speed_limit : Q)
    (edge_priority : Z)
| DeleteNode (id : string)
| DeleteEdge (id : string).

(** What the page lets the user do in state [st]: the node type comes from
    its select box; the edge form is shown once there are two nodes, its
    two nodes come from the select boxes over [node_ids] and its numbers
    from inputs bounded to 1..6 lanes, 5..40 m/s and priority 1..10; a
    delete button exists for each entry shown. *)
Definition offered (st : session) (c : click) : Prop :=
  match c with
  | AddNode _ _ _ node_type => node_type ∈ type_options
  | AddEdge _ from_node to_node num_lanes speed_limit edge_priority =>
      (2 ≤ length (custom_nodes st))%nat
      ∧ from_node ∈ node_ids st ∧ to_node ∈ node_ids st
      ∧ (1 ≤ num_lanes ≤ 6)%Z ∧ (5 <= speed_limit)%Q ∧ (speed_limit <= 40)%Q
      ∧ (1 ≤ edge_priority ≤ 10)%Z
  | DeleteNode id => id ∈ node_ids st
  | DeleteEdge id => id ∈ (e_id <$> custom_edges st)
  end.

(** The state after the rerun that follows a click. *)
Definition handle (c : click) (st : session) : session :=
  match c with
  | AddNode node_id node_x node_y node_type =>
      add_node node_id node_x node_y node_type st
  | AddEdge edge_id from_node to_node num_lanes speed_limit edge_priority =>
      add_edge edge_id from_node to_node num_lanes speed_limit edge_priority st
  | DeleteNode id => delete_node id st
  | DeleteEdge id => delete_edge id st
  end.

(** The states the editor can be in. *)
Inductive reachable : session → Prop :=
| reachable_new : reachable session_new
| reachable_click st c : reachable st → offered st c → reachable (handle c st).

End NetworkStudio.

(* ===================================================================== *)
(** * app.py, show_network_studio: the templates tab                      *)
(* ===================================================================== *)

Module TemplatesTab.
Section TemplatesTab.
Context `{RT : Runtime}.
Import XmlGenerators.
Local Open Scope Z_scope.

(** The selected template with the values of its sliders and check boxes:
    the dictionary [config] together with [selected_template]. *)
Inductive config : Type :=
| Config4way (arm_length lanes speed green_ns green_ew yellow : Z)
| ConfigGrid (rows cols block_length lanes speed : Z) (signalized : bool)
| ConfigCorridor (num_int spacing main_lanes cross_lanes main_speed : Z)
    (signalized : bool)
| ConfigRoundabout (num_arms radius arm_length lanes rb_lanes speed : Z)
| ConfigHighway (length lanes speed num_ramps ramp_lanes : Z)
| Config3way (arm_length lanes speed : Z) (has_signal : bool).

(** The bounds of the sliders. *)
Definition in_range (c : config) : Prop :=
  match c with
  | Config4way arm_length lanes speed green_ns green_ew yellow =>
      100 ≤ arm_length ≤ 500 ∧ 1 ≤ lanes ≤ 4 ∧ 30 ≤ speed ≤ 80
      ∧ 15 ≤ green_ns ≤ 60 ∧ 15 ≤ green_ew ≤ 60 ∧ 2 ≤ yellow ≤ 5
  | ConfigGrid rows cols block_length lanes speed _ =>
      2 ≤ rows ≤ 10 ∧ 2 ≤ cols ≤ 10 ∧ 100 ≤ block_length ≤ 500
      ∧ 1 ≤ lanes ≤ 4 ∧ 30 ≤ speed ≤ 80
  | ConfigCorridor num_int spacing main_lanes cross_lanes main_speed _ =>
      2 ≤ num_int ≤ 10 ∧ 200 ≤ spacing ≤ 500 ∧ 2 ≤ main_lanes ≤ 4
      ∧ 1 ≤ cross_lanes ≤ 3 ∧ 40 ≤ main_speed ≤ 80
  | ConfigRoundabout num_arms radius arm_length lanes rb_lanes speed =>
      3 ≤ num_arms ≤ 6 ∧ 15 ≤ radius ≤ 50 ∧ 100 ≤ arm_length ≤ 300
      ∧ 1 ≤ lanes ≤ 2 ∧ 1 ≤ rb_lanes ≤ 3 ∧ 20 ≤ speed ≤ 50
  | ConfigHighway length lanes speed num_ramps ramp_lanes =>
      1000 ≤ length ≤ 5000 ∧ 2 ≤ lanes ≤ 5 ∧ 80 ≤ speed ≤ 130
      ∧ 1 ≤ num_ramps ≤ 4 ∧ 1 ≤ ramp_lanes ≤ 2
  | Config3way arm_length lanes speed _ =>
      100 ≤ arm_length ≤ 500 ∧ 1 ≤ lanes ≤ 4 ∧ 30 ≤ speed ≤ 80
  end.

(** The class registered in [TEMPLATES] under the selected key, called
    with the configuration as keyword arguments; a parameter the
    page does not pass ([signal_type], [cross_speed]) has its default. *)
Definition template_of (c : config) : template :=
  match c with
  | Config4way arm_length lanes speed green_ns green_ew yellow =>
      T4way (FourWayIntersection.mk (inject_Z arm_length) lanes (inject_Z speed)
               "static" green_ns green_ew yellow)
  | ConfigGrid rows cols block_length lanes speed signalized =>
      Tgrid (GridNetwork.mk rows cols (inject_Z block_length) lanes
               (inject_Z speed) signalized)
  | ConfigCorridor num_int spacing main_lanes cross_lanes main_speed signalized =>
      Tcorridor (Corridor.mk num_int (inject_Z spacing) main_lanes cross_lanes
                   (inject_Z main_speed) 40 signalized)
  | ConfigRoundabout num_arms radius arm_length lanes rb_lanes speed =>
      Troundabout (Roundabout.mk num_arms (inject_Z radius) (inject_Z arm_length)
                     lanes rb_lanes (inject_Z speed))
  | ConfigHighway length lanes speed num_ramps ramp_lanes =>
      Thighway (Highway.mk (inject_Z length) lanes (inject_Z speed) num_ramps
                  ramp_lanes)
  | Config3way arm_length lanes speed has_signal =>
      T3way (ThreeWayIntersection.mk (inject_Z arm_length) lanes (inject_Z speed)
               has_signal)
  end.

(** [create_network] on the selected key and configuration; the key comes from the
    radio button over the keys of [TEMPLATES], so the unknown-template
    branch is not taken. *)
Definition create_network (c : config) : result NetworkGenerator :=
  template_generate (template_of c).

(** The "Generate Network" button up to the files it writes. *)
Definition generate_button (c : config) : prog files unit :=
  lift (create_network c) ≫= λ network, save_all network "outputs" "network".

End TemplatesTab.
End TemplatesTab.

(* ===================================================================== *)
(** * app.py, show_demand_generator: the route file                       *)
(* ===================================================================== *)

Module DemandGenerator.
Section DemandGenerator.
Context `{RT : Runtime}.
Import XmlGenerators.

(** The dictionaries kept in [st.session_state.vehicle_types] and
    [st.session_state.flows]. *)
Record vtype_entry : Type := mkVtypeEntry {
  v_id : string;
  v_vclass : string;
  v_length : Q;
  v_max_speed : Q;
  v_accel : Q;
  v_decel : Q;
  v_sigma : Q;
  v_color : string;
}.

Record flow_entry : Type := mkFlowEntry {
  f_id : string;
  f_from_edge : string;
  f_to_edge : string;
  f_vtype : string;
  f_begin : Z;
  f_end : Z;
  f_vph : Z;
}.

(** [VehicleType(id=..., vclass=..., length=..., max_speed=..., accel=...,
    decel=..., sigma=..., color=...)], the other fields at their defaults. *)
Definition vehicle_type_of (vt : vtype_entry) : VehicleType :=
  mkVehicleType (v_id vt) (v_length vt) 2.5 (v_max_speed vt) (v_accel vt)
    (v_decel vt) (v_sigma vt) 1 (v_vclass vt) (v_color vt)
    "HBEFA3/PC_G_EU4" "".

(** [Flow(id=..., from_edge=..., to_edge=..., vtype=..., begin=..., end=...,
    vehs_per_hour=fl['vph'])] *)
Definition flow_of (fl : flow_entry) : Flow :=
  mkFlow (f_id fl) (f_from_edge fl) (f_to_edge fl) "" (f_vtype fl)
    (inject_Z (f_begin fl)) (inject_Z (f_end fl)) (inject_Z (f_vph fl)) 0 0 0.

(** The two loops of "Generate Route File" on a fresh [RouteGenerator]. *)
Definition fill_routes (vehicle_types : list vtype_entry)
    (flows : list flow_entry) : prog RouteGenerator unit :=
  for_each vehicle_types (λ vt, add_vehicle_type (vehicle_type_of vt));;
  for_each flows (λ fl, add_flow (flow_of fl)).

Definition output_path : string := "outputs/network.rou.xml".

(** "Generate Route File" *)
Definition generate_button (vehicle_types : list vtype_entry)
    (flows : list flow_entry) : prog files unit :=
  lift (exec (fill_routes vehicle_types flows) RouteGenerator_new)
    ≫= λ routes, RouteGenerator_save routes output_path.

End DemandGenerator.
End DemandGenerator.

(* ===================================================================== *)
(** * A runtime for closed examples                                       *)
(* ===================================================================== *)

Module Example.

(** Numbers are printed as exact fractions. *)
Definition str_fraction (q : Q) : string :=
  pretty (Qnum q) +:+ "/" +:+ pretty (Zpos (Qden q)).

Definition quote : string := String (Ascii.ascii_of_nat 34) "".

Definition attribute_text (kv : string * string) : string :=
  " " +:+ kv.1 +:+ "=" +:+ quote +:+ kv.2 +:+ quote.

(** One element per line, children indented by four spaces. *)
Fixpoint element_text (indent : string) (e : ET.Element) : string :=
  let 'ET.Elem tag attrib children := e in
  let attrs := foldr (λ kv acc, attribute_text kv +:+ acc) "" attrib in
  match children with
  | [] => indent +:+ "<" +:+ tag +:+ attrs +:+ "/>" +:+ String newline ""
  | _ =>
      indent +:+ "<" +:+ tag +:+ attrs +:+ ">" +:+ String newline ""
      +:+ foldr (λ c acc, element_text ("    " +:+ indent) c +:+ acc) "" children
      +:+ indent +:+ "</" +:+ tag +:+ ">" +:+ String newline ""
  end.

Definition document_text (e : ET.Element) : string :=
  "<?xml version=" +:+ quote +:+ "1.0" +:+ quote +:+ " ?>"
  +:+ String newline "" +:+ element_text "" e.

(** Degrees to radians with 355/113 for pi; Taylor polynomials for the
    trigonometric functions. *)
Definition radians (deg : Q) : Q := (deg * (355 # 113) / 180)%Q.
Definition cos (x : Q) : Q := (1 - x * x / 2)%Q.
Definition sin (x : Q) : Q := (x - x * x * x / 6)%Q.

Definition runtime : Runtime := {|
  str_float := str_fraction;
  math_radians := radians;
  math_cos := cos;
  math_sin := sin;
  toprettyxml := document_text;
  path_join := λ a b, a +:+ "/" +:+ b;
|}.

End Example.

(* ===================================================================== *)
(** * Vocabulary of the specification                                     *)
(* ===================================================================== *)

Section TimingVocabulary.
Local Open Scope Q_scope.

(** [o] is the remainder of [x] modulo [C]: it differs from [x] by a whole
    number of cycles and lies in [[0, C)]. *)
Definition is_remainder (x C o : Q) : Prop :=
  (∃ k : Z, x == o + inject_Z k * C) ∧ 0 <= o ∧ o < C.

(** [C] is [x] clamped to the band [[lo, hi]]. *)
Definition clamped (lo hi x C : Q) : Prop :=
  (x <= lo → C == lo) ∧ (lo <= x ∧ x <= hi → C == x) ∧ (hi <= x → C == hi).

(** The recurrence of the corridor offsets: [new] lists the offsets that
    follow [prev], one per distance, each the remainder of its
    predecessor plus the travel time. *)
Inductive chained (C v : Q) : Q → list Q → list Q → Prop :=
| chained_nil prev : chained C v prev [] []
| chained_cons prev di d o new :
    is_remainder (prev + di / v) C o →
    chained C v o d new →
    chained C v prev (di :: d) (o :: new).

End TimingVocabulary.

Section ProgramLogic.
Context {S : Type}.

(** Partial correctness: when [m] returns from a state satisfying [P], the
    result and the final state satisfy [Q]. *)
Definition hoare {A} (P : S → Prop) (m : prog S A) (Q : A → S → Prop) : Prop :=
  ∀ s a s', P s → run m s = Ok (a, s') → Q a s'.

(** [m] returns from every state, with a result satisfying [φ]. *)
Definition returns {A} (m : prog S A) (φ : A → Prop) : Prop :=
  ∀ s, ∃ a s', run m s = Ok (a, s') ∧ φ a.

End ProgramLogic.

Section NetworkVocabulary.
Import XmlGenerators.
Local Open Scope Z_scope.

Definition node_ids (net : NetworkGenerator) : list string :=
  Node_id <$> nodes net.

(** Both endpoints of [e] are ids of nodes of [net]. *)
Definition resolves (net : NetworkGenerator) (e : Edge) : Prop :=
  from_node e ∈ node_ids net ∧ to_node e ∈ node_ids net.

Definition no_dangling (net : NetworkGenerator) : Prop :=
  ∀ e, e ∈ edges net → resolves net e.

(** The invariant of a [generate] body: the ids in [K] have been added as
    nodes, and no edge added so far dangles. *)
Definition closed_over (K : string → Prop) (net : NetworkGenerator) : Prop :=
  (∀ x, K x → x ∈ node_ids net) ∧ no_dangling net.

(** Every phase of [tl] has a state string of [w] characters. *)
Definition state_width (w : Z) (tl : TrafficLight) : Prop :=
  ∀ ph, ph ∈ phases tl → Z.of_nat (String.length (state ph)) = w.

(** All phases of [tl] have state strings of one length. *)
Definition same_width (tl : TrafficLight) : Prop :=
  ∀ p q, p ∈ phases tl → q ∈ phases tl →
         String.length (state p) = String.length (state q).

Definition all_width (w : Z) (net : NetworkGenerator) : Prop :=
  ∀ tl, tl ∈ traffic_lights net → state_width w tl ∧ same_width tl.


(** Parameters that pass every check made while a template is generated. *)
Definition valid (tpl : template) : Prop :=
  match tpl with
  | T4way self =>
      1 ≤ FourWayIntersection.lanes_per_arm self
      ∧ (0 < FourWayIntersection.speed_limit self)%Q
      ∧ 0 < FourWayIntersection.green_time_ns self
      ∧ 0 < FourWayIntersection.green_time_ew self
      ∧ 0 < FourWayIntersection.yellow_time self
  | T3way self =>
      1 ≤ ThreeWayIntersection.lanes_per_arm self
      ∧ (0 < ThreeWayIntersection.speed_limit self)%Q
  | Troundabout self =>
      2 ≤ Roundabout.num_arms self
      ∧ 1 ≤ Roundabout.lanes_per_arm self
      ∧ 1 ≤ Roundabout.roundabout_lanes self
      ∧ (0 < Roundabout.speed_limit self)%Q
  | Tgrid self =>
      1 ≤ GridNetwork.lanes self ∧ (0 < GridNetwork.speed_limit self)%Q
  | Tcorridor self =>
      1 ≤ Corridor.main_lanes self ∧ 1 ≤ Corridor.cross_lanes self
      ∧ (0 < Corridor.main_speed self)%Q ∧ (0 < Corridor.cross_speed self)%Q
  | Thighway self =>
      0 ≤ Highway.num_ramps self
      ∧ 1 ≤ Highway.lanes self ∧ 1 ≤ Highway.ramp_lanes self
      ∧ (0 < Highway.speed_limit self)%Q
  end.

End NetworkVocabulary.

Section SerialisationVocabulary.
Context `{RT : Runtime}.
Import XmlGenerators.


(** The files [save_all] writes, in the order it writes them. *)
Definition written (self : NetworkGenerator) (base_path name : string)
    (fs : files) : files :=
  let fs := <[path_join base_path (name +:+ ".nod.xml")
              := file_text (generate_nodes_xml self)]> fs in
  let fs := <[path_join base_path (name +:+ ".edg.xml")
              := file_text (generate_edges_xml self)]> fs in
  let fs := if nonempty (connections self)
            then <[path_join base_path (name +:+ ".con.xml")
                   := file_text (generate_connections_xml self)]> fs
            else fs in
  if nonempty (traffic_lights self)
  then <[path_join base_path (name +:+ ".tll.xml")
         := file_text (generate_tll_xml self)]> fs
  else fs.

(** The demand-rate attributes of a flow record. *)
Definition rate_keys : list string :=
  ["vehsPerHour"; "probability"; "period"; "number"].
Definition rate_attributes (e : ET.Element) : ET.dict :=
  filter (λ kv, kv.1 ∈ rate_keys) (ET.attrib e).

End SerialisationVocabulary.

Section Examples.
Import XmlGenerators.

Definition example_four_way : FourWayIntersection.t :=
  FourWayIntersection.mk 200 2 50 "static" 30 30 3.
Definition example_three_way : ThreeWayIntersection.t :=
  ThreeWayIntersection.mk 200 2 50 true.
Definition example_roundabout : Roundabout.t := Roundabout.mk 4 30 200 1 2 30.
Definition example_grid : GridNetwork.t := GridNetwork.mk 3 3 200 2 50 true.
Definition example_corridor : Corridor.t := Corridor.mk 5 300 3 2 60 40 true.
Definition example_highway : Highway.t := Highway.mk 2000 3 100 2 1.


(** A flow that leaves all four rates at their default. *)
Definition example_flow_no_rate : Flow :=
  mkFlow "f0" "N2C" "C2S" "" "DEFAULT_VEHTYPE" 0 3600 0 0 0 0.

(** A flow with a route and an origin/destination pair. *)
Definition example_flow_route : Flow :=
  mkFlow "f1" "N2C" "C2S" "r0" "DEFAULT_VEHTYPE" 0 3600 500 0 0 0.

End Examples.

(* ===================================================================== *)
(** * The networks of the templates in closed form                        *)
(* ===================================================================== *)

Section Writes.
Context {S X : Type}.

(** When [m] returns, it has appended [out] to the list [p] of the state. *)
Definition writes {A} (p : S → list X) (m : prog S A) (out : list X) : Prop :=
  ∀ s a s', run m s = Ok (a, s') → p s' = p s ++ out.

End Writes.

Section ExpectedNetworks.
Context `{RT : Runtime}.
Import XmlGenerators.
Local Open Scope Z_scope.

(** An edge as the templates construct it. *)
Definition edge_of (id from_node to_node : string) (num_lanes : Z) (speed : Q)
    (priority : Z) : Edge :=
  mkEdge id from_node to_node num_lanes speed priority "" "" "".

(** A program of four phases without duration bounds. *)
Definition program_of (id tl_type : string) (d1 d2 d3 d4 : Z)
    (s1 s2 s3 s4 n1 n2 n3 n4 : string) : TrafficLight :=
  TrafficLight_new id
    [mkPhase d1 s1 0 0 n1; mkPhase d2 s2 0 0 n2; mkPhase d3 s3 0 0 n3;
     mkPhase d4 s4 0 0 n4] tl_type.

(** Four blocks of [k] characters, and two blocks of [a] and [b]. *)
Definition blocks4 (c1 c2 c3 c4 : string) (k : Z) : string :=
  str_mul c1 k +:+ str_mul c2 k +:+ str_mul c3 k +:+ str_mul c4 k.
Definition blocks3 (c1 c2 c3 : string) (k : Z) : string :=
  str_mul c1 k +:+ str_mul c2 k +:+ str_mul c3 k.
Definition blocks2 (c1 c2 : string) (a b : Z) : string :=
  str_mul c1 a +:+ str_mul c2 b.

Definition four_way_network (self : FourWayIntersection.t) : NetworkGenerator :=
  let arm := FourWayIntersection.arm_length self in
  let n := FourWayIntersection.lanes_per_arm self in
  let speed := kmh_to_ms (FourWayIntersection.speed_limit self) in
  mkNetworkGenerator
    [mkNode "C" 0 0 "traffic_light" (FourWayIntersection.signal_type self);
     mkNode "N" 0 arm "priority" ""; mkNode "S" 0 (- arm) "priority" "";
     mkNode "E" arm 0 "priority" ""; mkNode "W" (- arm) 0 "priority" ""]
    ((λ '(id, f, t), edge_of id f t n speed 1)
       <$> FourWayIntersection.edge_table)
    []
    [program_of "C" (FourWayIntersection.signal_type self)
       (FourWayIntersection.green_time_ns self)
       (FourWayIntersection.yellow_time self)
       (FourWayIntersection.green_time_ew self)
       (FourWayIntersection.yellow_time self)
       (blocks4 "G" "r" "G" "r" (n * 2)) (blocks4 "y" "r" "y" "r" (n * 2))
       (blocks4 "r" "G" "r" "G" (n * 2)) (blocks4 "r" "y" "r" "y" (n * 2))
       "NS_Green" "NS_Yellow" "EW_Green" "EW_Yellow"].

Definition three_way_network (self : ThreeWayIntersection.t) : NetworkGenerator :=
  let arm := ThreeWayIntersection.arm_length self in
  let n := ThreeWayIntersection.lanes_per_arm self in
  let speed := kmh_to_ms (ThreeWayIntersection.speed_limit self) in
  mkNetworkGenerator
    [mkNode "C" 0 0 (if ThreeWayIntersection.has_signal self
                     then "traffic_light" else "priority") "";
     mkNode "N" 0 arm "priority" ""; mkNode "E" arm 0 "priority" "";
     mkNode "W" (- arm) 0 "priority" ""]
    ((λ '(id, f, t), edge_of id f t n speed 1)
       <$> ThreeWayIntersection.edge_table)
    []
    (if ThreeWayIntersection.has_signal self
     then [program_of "C" "static" 30 3 30 3
             (blocks3 "G" "r" "r" (n * 2)) (blocks3 "y" "r" "r" (n * 2))
             (blocks3 "r" "G" "G" (n * 2)) (blocks3 "r" "y" "y" (n * 2))
             "" "" "" ""]
     else []).

(** Arm [i] of a roundabout of [K] arms lies at [i * (360 / K) - 90]
    degrees. *)
Definition arm_angle (self : Roundabout.t) (i : Z) : Q :=
  math_radians (inject_Z i * (360 / inject_Z (Roundabout.num_arms self)) - 90)%Q.

Definition ring_node (self : Roundabout.t) (i : Z) : Node :=
  mkNode (Roundabout.R i)
    (Roundabout.radius self * math_cos (arm_angle self i))%Q
    (Roundabout.radius self * math_sin (arm_angle self i))%Q "priority" "".

Definition approach_node (self : Roundabout.t) (i : Z) : Node :=
  mkNode (Roundabout.A i)
    ((Roundabout.radius self + Roundabout.arm_length self)
     * math_cos (arm_angle self i))%Q
    ((Roundabout.radius self + Roundabout.arm_length self)
     * math_sin (arm_angle self i))%Q "priority" "".

Definition ring_edge (self : Roundabout.t) (i : Z) : Edge :=
  let next_i := (i + 1) `mod` Roundabout.num_arms self in
  edge_of (Roundabout.R i +:+ "2" +:+ Roundabout.R next_i)
    (Roundabout.R i) (Roundabout.R next_i) (Roundabout.roundabout_lanes self)
    (kmh_to_ms (Roundabout.speed_limit self)) 1.

Definition arm_edges (self : Roundabout.t) (i : Z) : list Edge :=
  [edge_of (Roundabout.A i +:+ "2" +:+ Roundabout.R i)
     (Roundabout.A i) (Roundabout.R i) (Roundabout.lanes_per_arm self)
     (kmh_to_ms (Roundabout.speed_limit self)) 1;
   edge_of (Roundabout.R i +:+ "2" +:+ Roundabout.A i)
     (Roundabout.R i) (Roundabout.A i) (Roundabout.lanes_per_arm self)
     (kmh_to_ms (Roundabout.speed_limit self)) 1].

Definition roundabout_network (self : Roundabout.t) : NetworkGenerator :=
  let arms := range (Roundabout.num_arms self) in
  mkNetworkGenerator
    ((ring_node self <$> arms) ++ (approach_node self <$> arms))
    ((ring_edge self <$> arms) ++ (arms ≫= arm_edges self))
    [] [].

Definition grid_node (self : GridNetwork.t) (row col : Z) : Node :=
  let is_edge := bool_decide (row = 0) || bool_decide (row = GridNetwork.rows self - 1)
                 || bool_decide (col = 0)
                 || bool_decide (col = GridNetwork.cols self - 1) in
  mkNode (GridNetwork.n_ row col)
    (inject_Z col * GridNetwork.block_length self)%Q
    (inject_Z row * GridNetwork.block_length self)%Q
    (if is_edge || negb (GridNetwork.signalized self)
     then "priority" else "traffic_light") "".

Definition grid_edge (self : GridNetwork.t) (row col : Z) (dir : string)
    (from_id to_id : string) : Edge :=
  edge_of (GridNetwork.e_ row col dir) from_id to_id (GridNetwork.lanes self)
    (kmh_to_ms (GridNetwork.speed_limit self)) 1.

Definition grid_program (self : GridNetwork.t) (row col : Z) : TrafficLight :=
  let n := GridNetwork.lanes self in
  program_of (GridNetwork.n_ row col) "static" 30 3 30 3
    (blocks2 "G" "r" (n * 4) (n * 4)) (blocks2 "y" "r" (n * 4) (n * 4))
    (blocks2 "r" "G" (n * 4) (n * 4)) (blocks2 "r" "y" (n * 4) (n * 4))
    "" "" "" "".

Definition grid_network (self : GridNetwork.t) : NetworkGenerator :=
  let rows := GridNetwork.rows self in
  let cols := GridNetwork.cols self in
  mkNetworkGenerator
    (range rows ≫= λ row, grid_node self row <$> range cols)
    ((range rows ≫= λ row, range (cols - 1) ≫= λ col,
        [grid_edge self row col "EB" (GridNetwork.n_ row col)
           (GridNetwork.n_ row (col + 1));
         grid_edge self row col "WB" (GridNetwork.n_ row (col + 1))
           (GridNetwork.n_ row col)])
     ++ (range (rows - 1) ≫= λ row, range cols ≫= λ col,
           [grid_edge self row col "NB" (GridNetwork.n_ row col)
              (GridNetwork.n_ (row + 1) col);
            grid_edge self row col "SB" (GridNetwork.n_ (row + 1) col)
              (GridNetwork.n_ row col)]))
    []
    (if GridNetwork.signalized self
     then range2 1 (rows - 1) ≫= λ row,
            grid_program self row <$> range2 1 (cols - 1)
     else []).

Definition corridor_nodes (self : Corridor.t) (i : Z) : list Node :=
  let x := (inject_Z i * Corridor.spacing self)%Q in
  if bool_decide (i = 0) || bool_decide (i = Corridor.num_intersections self + 1)
  then [mkNode (Corridor.M i) x 0 "priority" ""]
  else [mkNode (Corridor.M i) x 0
          (if Corridor.signalized self then "traffic_light" else "priority") "";
        mkNode (Corridor.N i) x Corridor.cross_arm_length "priority" "";
        mkNode (Corridor.S i) x (- Corridor.cross_arm_length) "priority" ""].

Definition corridor_main_edges (self : Corridor.t) (i : Z) : list Edge :=
  [edge_of ("main_" +:+ pretty i +:+ "_EB") (Corridor.M i) (Corridor.M (i + 1))
     (Corridor.main_lanes self) (kmh_to_ms (Corridor.main_speed self)) 1;
   edge_of ("main_" +:+ pretty i +:+ "_WB") (Corridor.M (i + 1)) (Corridor.M i)
     (Corridor.main_lanes self) (kmh_to_ms (Corridor.main_speed self)) 1].

Definition corridor_cross_edges (self : Corridor.t) (i : Z) : list Edge :=
  let lanes := Corridor.cross_lanes self in
  let speed := kmh_to_ms (Corridor.cross_speed self) in
  [edge_of ("cross_" +:+ pretty i +:+ "_NB") (Corridor.S i) (Corridor.M i)
     lanes speed 1;
   edge_of ("cross_" +:+ pretty i +:+ "_NB2") (Corridor.M i) (Corridor.N i)
     lanes speed 1;
   edge_of ("cross_" +:+ pretty i +:+ "_SB") (Corridor.N i) (Corridor.M i)
     lanes speed 1;
   edge_of ("cross_" +:+ pretty i +:+ "_SB2") (Corridor.M i) (Corridor.S i)
     lanes speed 1].

Definition corridor_program (self : Corridor.t) (i : Z) : TrafficLight :=
  let a := Corridor.main_lanes self * 4 in
  let b := Corridor.cross_lanes self * 4 in
  program_of (Corridor.M i) "static" 40 3 25 3
    (blocks2 "G" "r" a b) (blocks2 "y" "r" a b)
    (blocks2 "r" "G" a b) (blocks2 "r" "y" a b) "" "" "" "".

Definition corridor_network (self : Corridor.t) : NetworkGenerator :=
  let N := Corridor.num_intersections self in
  mkNetworkGenerator
    (range (N + 2) ≫= corridor_nodes self)
    ((range (N + 1) ≫= corridor_main_edges self)
     ++ (range2 1 (N + 1) ≫= corridor_cross_edges self))
    []
    (if Corridor.signalized self
     then corridor_program self <$> range2 1 (N + 1) else []).

Definition highway_nodes (self : Highway.t) (i : Z) : list Node :=
  let x := (inject_Z i
            * (Highway.length self / inject_Z (Highway.num_ramps self + 1)))%Q in
  [mkNode (Highway.junc_ i) x 0 "priority" "";
   mkNode (Highway.on_ramp_ i) (x - 100) (-100) "priority" "";
   mkNode (Highway.off_ramp_ i) (x + 100) (-100) "priority" ""].

(** The main carriageway from [prev] through the junctions [js] to
    ["end"]. *)
Fixpoint highway_main (self : Highway.t) (prev : string) (js : list Z)
  : list Edge :=
  match js with
  | [] => [edge_of ("hw_" +:+ prev +:+ "_end") prev "end" (Highway.lanes self)
             (kmh_to_ms (Highway.speed_limit self)) 3]
  | i :: js' =>
      edge_of ("hw_" +:+ prev +:+ "_" +:+ Highway.junc_ i) prev (Highway.junc_ i)
        (Highway.lanes self) (kmh_to_ms (Highway.speed_limit self)) 3
      :: highway_main self (Highway.junc_ i) js'
  end.

Definition highway_ramps (self : Highway.t) (i : Z) : list Edge :=
  [edge_of (Highway.on_ramp_ i) (Highway.on_ramp_ i) (Highway.junc_ i)
     (Highway.ramp_lanes self) (kmh_to_ms 60) 1;
   edge_of (Highway.off_ramp_ i) (Highway.junc_ i) (Highway.off_ramp_ i)
     (Highway.ramp_lanes self) (kmh_to_ms 60) 1].

Definition highway_network (self : Highway.t) : NetworkGenerator :=
  let js := range2 1 (Highway.num_ramps self + 1) in
  mkNetworkGenerator
    ([mkNode "start" 0 0 "priority" "";
      mkNode "end" (Highway.length self) 0 "priority" ""]
     ++ (js ≫= highway_nodes self))
    (highway_main self "start" js ++ (js ≫= highway_ramps self))
    [] [].

(** The network of a template, written without loops or state. *)
Definition network_of (tpl : template) : NetworkGenerator :=
  match tpl with
  | T4way self => four_way_network self
  | T3way self => three_way_network self
  | Troundabout self => roundabout_network self
  | Tgrid self => grid_network self
  | Tcorridor self => corridor_network self
  | Thighway self => highway_network self
  end.

End ExpectedNetworks.

(* ===================================================================== *)
(** * Vocabulary for the generated networks                               *)
(* ===================================================================== *)

Section TemplateVocabulary.
Import XmlGenerators.
Local Open Scope Z_scope.

(** The checks of the three validating constructors, as properties of the
    record. *)
Definition node_ok (n : Node) : Prop :=
  Node_id n ≠ "" ∧ node_type n ∈ valid_types.

Definition edge_ok (e : Edge) : Prop :=
  Edge_id e ≠ "" ∧ from_node e ≠ "" ∧ to_node e ≠ ""
  ∧ from_node e ≠ to_node e ∧ 1 ≤ num_lanes e ∧ (0 < speed e)%Q.

Definition phase_ok (p : Phase) : Prop :=
  0 < duration p ∧ state p ≠ "" ∧ 0 ≤ min_dur p ∧ 0 ≤ max_dur p
  ∧ ¬ (0 < max_dur p ∧ 0 < min_dur p ∧ max_dur p < min_dur p).

Definition well_formed (net : NetworkGenerator) : Prop :=
  Forall node_ok (nodes net) ∧ Forall edge_ok (edges net)
  ∧ Forall (λ tl, Forall phase_ok (phases tl)) (traffic_lights net).

(** How many nodes, edges and signal programs a template makes. *)
Definition node_count (tpl : template) : nat :=
  match tpl with
  | T4way _ => 5
  | T3way _ => 4
  | Troundabout self => 2 * Z.to_nat (Roundabout.num_arms self)
  | Tgrid self => Z.to_nat (GridNetwork.rows self) * Z.to_nat (GridNetwork.cols self)
  | Tcorridor self =>
      Z.to_nat (Corridor.num_intersections self + 2)
      + 2 * Z.to_nat (Corridor.num_intersections self)
  | Thighway self => 2 + 3 * Z.to_nat (Highway.num_ramps self)
  end%nat.

Definition edge_count (tpl : template) : nat :=
  match tpl with
  | T4way _ => 8
  | T3way _ => 6
  | Troundabout self => 3 * Z.to_nat (Roundabout.num_arms self)
  | Tgrid self =>
      2 * (Z.to_nat (GridNetwork.rows self) * Z.to_nat (GridNetwork.cols self - 1))
      + 2 * (Z.to_nat (GridNetwork.rows self - 1) * Z.to_nat (GridNetwork.cols self))
  | Tcorridor self =>
      2 * Z.to_nat (Corridor.num_intersections self + 1)
      + 4 * Z.to_nat (Corridor.num_intersections self)
  | Thighway self => 1 + 3 * Z.to_nat (Highway.num_ramps self)
  end%nat.

Definition program_count (tpl : template) : nat :=
  match tpl with
  | T4way _ => 1
  | T3way self => if ThreeWayIntersection.has_signal self then 1 else 0
  | Troundabout _ => 0
  | Tgrid self =>
      if GridNetwork.signalized self
      then Z.to_nat (GridNetwork.rows self - 2) * Z.to_nat (GridNetwork.cols self - 2)
      else 0
  | Tcorridor self =>
      if Corridor.signalized self
      then Z.to_nat (Corridor.num_intersections self) else 0
  | Thighway _ => 0
  end%nat.

(** The ids of the nodes of type [traffic_light], and of the programs. *)
Definition signalised_ids (net : NetworkGenerator) : list string :=
  Node_id <$> filter (λ n, node_type n = "traffic_light") (nodes net).
Definition program_ids (net : NetworkGenerator) : list string :=
  TrafficLight_id <$> traffic_lights net.




(** [es] leads from [a] to [b], each edge starting where the one before
    it ends. *)
Fixpoint path (a b : string) (es : list Edge) : Prop :=
  match es with
  | [] => a = b
  | e :: es' => from_node e = a ∧ path (to_node e) b es'
  end.

End TemplateVocabulary.

Section IdVocabulary.

(** The characters of a printed integer: digits and the minus sign. *)
Definition is_num_char (c : Ascii.ascii) : bool :=
  let n := Ascii.nat_of_ascii c in
  ((48 <=? n) && (n <=? 57) || (n =? 45))%nat.

Fixpoint numeric (s : string) : bool :=
  match s with
  | EmptyString => true
  | String c rest => is_num_char c && numeric rest
  end.

End IdVocabulary.

Section FilesVocabulary.
Context `{RT : Runtime}.
Import XmlGenerators.

(** The node and edge files, and the signal file when [tll] is set. *)
Definition network_files (net : NetworkGenerator) (base_path name : string)
    (tll : bool) (fs : files) : files :=
  let fs := <[path_join base_path (name +:+ ".nod.xml")
              := file_text (generate_nodes_xml net)]> fs in
  let fs := <[path_join base_path (name +:+ ".edg.xml")
              := file_text (generate_edges_xml net)]> fs in
  if tll
  then <[path_join base_path (name +:+ ".tll.xml")
         := file_text (generate_tll_xml net)]> fs
  else fs.

(** Whether a template makes a signal program. *)
Definition has_programs (tpl : template) : bool :=
  negb (program_count tpl =? 0)%nat.

End FilesVocabulary.

Section CapacityVocabulary.
Local Open Scope Q_scope.

(** Each element is smaller than the next. *)
Fixpoint increasing (l : list Q) : Prop :=
  match l with
  | x :: (y :: _) as rest => x < y ∧ increasing rest
  | _ => True
  end.

End CapacityVocabulary.

(* ===================================================================== *)
(** * Clients of the route and additional generators                      *)
(* ===================================================================== *)

Section GeneratorClients.
Context `{RT : Runtime}.
Import XmlGenerators.

(** A call of one of the four [add_] methods of [RouteGenerator]. *)
Inductive route_call : Type :=
| AddVehicleType (vtype : VehicleType)
| AddRoute (route : Route)
| AddVehicle (vehicle : Vehicle)
| AddFlow (flow : Flow).

Definition route_call_run (c : route_call) : prog RouteGenerator unit :=
  match c with
  | AddVehicleType vtype => add_vehicle_type vtype
  | AddRoute route => add_route route
  | AddVehicle vehicle => add_vehicle vehicle
  | AddFlow flow => add_flow flow
  end.

(** The arguments of the calls of each kind, in call order. *)
Definition vehicle_types_of (cs : list route_call) : list VehicleType :=
  cs ≫= λ c, match c with AddVehicleType vtype => [vtype] | _ => [] end.
Definition routes_of (cs : list route_call) : list Route :=
  cs ≫= λ c, match c with AddRoute route => [route] | _ => [] end.
Definition vehicles_of (cs : list route_call) : list Vehicle :=
  cs ≫= λ c, match c with AddVehicle vehicle => [vehicle] | _ => [] end.
Definition flows_of (cs : list route_call) : list Flow :=
  cs ≫= λ c, match c with AddFlow flow => [flow] | _ => [] end.

(** A call of one of the four [add_] methods of [AdditionalGenerator]. *)
Inductive additional_call : Type :=
| AddInductionLoop (id lane : string) (pos : Q) (period : Z) (file : string)
| AddLaneAreaDetector (id lane : string) (pos endPos : Q) (period : Z)
    (file : string)
| AddBusStop (id lane : string) (start_pos end_pos : Q) (name : string)
| AddParkingArea (id lane : string) (start_pos end_pos : Q) (capacity : Z).

Definition additional_call_run (c : additional_call)
  : prog AdditionalGenerator unit :=
  match c with
  | AddInductionLoop id lane pos period file =>
      add_induction_loop id lane pos period file
  | AddLaneAreaDetector id lane pos endPos period file =>
      add_lane_area_detector id lane pos endPos period file
  | AddBusStop id lane start_pos end_pos name =>
      add_bus_stop id lane start_pos end_pos name
  | AddParkingArea id lane start_pos end_pos capacity =>
      add_parking_area id lane start_pos end_pos capacity
  end.

Definition additional_call_tag (c : additional_call) : string :=
  match c with
  | AddInductionLoop _ _ _ _ _ => "inductionLoop"
  | AddLaneAreaDetector _ _ _ _ _ _ => "laneAreaDetector"
  | AddBusStop _ _ _ _ _ => "busStop"
  | AddParkingArea _ _ _ _ _ => "parkingArea"
  end.

Definition additional_call_id (c : additional_call) : string :=
  match c with
  | AddInductionLoop id _ _ _ _ | AddLaneAreaDetector id _ _ _ _ _
  | AddBusStop id _ _ _ _ | AddParkingArea id _ _ _ _ => id
  end.

(** No character of the line is a newline. *)
Fixpoint one_line (s : string) : bool :=
  match s with
  | EmptyString => true
  | String c rest => negb (bool_decide (c = newline)) && one_line rest
  end.

End GeneratorClients.

Section ConfigVocabulary.
Import XmlGenerators.

(** The six output options with the element that holds each. *)
Definition output_settings (c : ConfigGenerator) : list (string * string) :=
  [("tripinfo-output", tripinfo_output c); ("fcd-output", fcd_output c);
   ("emission-output", emission_output c); ("summary-output", summary_output c);
   ("queue-output", queue_output c); ("statistic-output", statistic_output c)].

(** [<tag value="..."/>] *)
Definition value_element (kv : string * string) : ET.Element :=
  ET.Elem kv.1 [("value", kv.2)] [].

End ConfigVocabulary.

Section EditorVocabulary.
Import NetworkStudio.
Local Open Scope Z_scope.

(** What holds of the two lists of the custom editor: ids are non-empty
    and unique, node types come from the select box, every edge joins two
    different nodes of the list and has its numbers within the bounds of
    the inputs. *)
Definition node_entry_ok (n : node_entry) : Prop :=
  n_id n ≠ "" ∧ n_type n ∈ type_options.

Definition edge_entry_ok (st : session) (e : edge_entry) : Prop :=
  e_id e ≠ "" ∧ e_from e ∈ node_ids st ∧ e_to e ∈ node_ids st
  ∧ e_from e ≠ e_to e ∧ 1 ≤ e_numLanes e ≤ 6
  ∧ (5 <= e_speed e)%Q ∧ (e_speed e <= 40)%Q ∧ 1 ≤ e_priority e ≤ 10.

Definition editor_ok (st : session) : Prop :=
  NoDup (node_ids st) ∧ NoDup (e_id <$> custom_edges st)
  ∧ Forall node_entry_ok (custom_nodes st)
  ∧ Forall (edge_entry_ok st) (custom_edges st).

End EditorVocabulary.

(* ===================================================================== *)
(** * Properties of the timing calculations                               *)
(* ===================================================================== *)

Section Arithmetic.
Local Open Scope Q_scope.

Lemma truediv_ok (a b : Q) : ¬ b == 0 → truediv a b = Ok (a / b).
Proof.
  intros Hb. unfold truediv.
  destruct (Qeq_bool b 0) eqn:E; [|done].
  apply Qeq_bool_iff in E. contradiction.
Qed.

Lemma truediv_zero (a b : Q) : b == 0 → truediv a b = Raise ZeroDivisionError.
Proof.
  intros Hb. unfold truediv. apply Qeq_bool_iff in Hb. by rewrite Hb.
Qed.

Lemma min_spec (a b : Q) :
  (a <= b → Py.min a b == a) ∧ (b <= a → Py.min a b == b).
Proof.
  unfold Py.min. destruct (Qle_bool a b) eqn:E.
  - apply Qle_bool_iff in E. split; intros; [reflexivity | lra].
  - assert (¬ a <= b) by (rewrite <- Qle_bool_iff; congruence).
    split; intros; [lra | reflexivity].
Qed.

Lemma max_spec (a b : Q) :
  (b <= a → Py.max a b == a) ∧ (a <= b → Py.max a b == b).
Proof.
  unfold Py.max. destruct (Qle_bool b a) eqn:E.
  - apply Qle_bool_iff in E. split; intros; [reflexivity | lra].
  - assert (¬ b <= a) by (rewrite <- Qle_bool_iff; congruence).
    split; intros; [lra | reflexivity].
Qed.


Lemma mod_remainder (a b : Q) :
  0 < b → ∃ o, mod_ a b = Ok o ∧ is_remainder a b o.
Proof.
  intros Hb. unfold mod_.
  destruct (Qeq_bool b 0) eqn:E.
  { apply Qeq_bool_iff in E. lra. }
  eexists. split; [reflexivity|].
  pose proof (Qfloor_le (a / b)) as Hlo.
  pose proof (Qlt_floor (a / b)) as Hhi.
  rewrite inject_Z_plus in Hhi.
  set (f := inject_Z (Qfloor (a / b))) in *.
  assert (Ha : a == a / b * b) by (field; lra).
  set (q := a / b) in *.
  assert (H1 : 0 <= b * (q - f)) by (apply Qmult_le_0_compat; lra).
  assert (H2 : b * (q - f) < b * 1).
  { apply Qmult_lt_l; [done|]. change (inject_Z 1) with 1 in Hhi. lra. }
  split; [|split].
  - exists (Qfloor q). fold f. ring.
  - lra.
  - lra.
Qed.

End Arithmetic.

Section GreenWave.
Local Open Scope Q_scope.
Import SignalDesigner.


Lemma last_snoc (l : list Q) (x d : Q) : List.last (l ++ [x]) d = x.
Proof. apply List.last_last. Qed.

Lemma offsets_loop_chained (C v : Q) :
  0 < C → 0 < v →
  ∀ d offs, ∃ new,
    offsets_loop d v C offs = Ok (offs ++ new)
    ∧ chained C v (List.last offs 0) d new.
Proof.
  intros HC Hv. induction d as [|di d IH]; intros offs.
  - exists []. rewrite app_nil_r. split; [done | constructor].
  - cbn [offsets_loop]. rewrite truediv_ok by lra. cbn.
    destruct (mod_remainder (List.last offs 0 + di / v) C HC) as (o & -> & Ho).
    cbn. destruct (IH (offs ++ [o])) as (new & -> & Hnew).
    rewrite last_snoc in Hnew. exists (o :: new).
    rewrite <- app_assoc. split; [done | by constructor].
Qed.

Lemma chained_length C v prev d new :
  chained C v prev d new → length new = length d.
Proof. induction 1; cbn; congruence. Qed.

Lemma chained_range C v prev d new :
  chained C v prev d new → ∀ o, o ∈ new → 0 <= o ∧ o < C.
Proof.
  induction 1 as [|prev di d o new [_ Ho] _ IH]; intros x Hx.
  - by apply elem_of_nil in Hx.
  - apply elem_of_cons in Hx as [->|Hx]; [done | by apply IH].
Qed.

Lemma chained_lookup C v prev d new :
  chained C v prev d new →
  ∀ (i : nat) p di,
    (prev :: new) !! i = Some p → d !! i = Some di →
    ∃ o, (prev :: new) !! S i = Some o ∧ is_remainder (p + di / v) C o.
Proof.
  induction 1 as [|prev di0 d o new Ho _ IH]; intros i p di Hp Hd.
  - by rewrite lookup_nil in Hd.
  - destruct i as [|i]; cbn in *.
    + injection Hp as <-. injection Hd as <-. by exists o.
    + by apply IH.
Qed.

End GreenWave.

Section Webster.
Local Open Scope Q_scope.
Import SignalDesigner XmlGenerators.


Lemma clamp_30_180 (x : Q) : clamped 30 180 x (Py.max 30 (Py.min x 180)).
Proof.
  destruct (min_spec x 180) as [Hm1 Hm2].
  destruct (max_spec 30 (Py.min x 180)) as [HM1 HM2].
  unfold clamped. repeat split.
  - intros H. apply HM1. rewrite Hm1; lra.
  - intros [H1 H2]. rewrite HM2; rewrite Hm1; lra.
  - intros H. rewrite HM2; rewrite Hm2; lra.
Qed.

Lemma green_loop_spec (Y eff : Q) :
  ¬ Y == 0 →
  ∀ ys acc, green_loop ys Y eff acc = Ok (acc ++ ((λ y, y / Y * eff) <$> ys)).
Proof.
  intros HY. induction ys as [|y ys IH]; intros acc; cbn.
  - by rewrite app_nil_r.
  - rewrite truediv_ok by done. cbn. rewrite IH, <- app_assoc. done.
Qed.


(** [calculate_webster_cycle] rejects an oversaturated junction. *)
Lemma calculate_webster_cycle_oversaturated (ys : list Q) (L : Q) :
  1 <= Py.sum ys →
  calculate_webster_cycle ys L
  = Raise (ValueError "Sum of critical ratios must be less than 1").
Proof.
  intros HY. unfold calculate_webster_cycle.
  apply Qle_bool_iff in HY. by rewrite HY.
Qed.

(** [calculate_webster_cycle] returns Webster's formula below saturation. *)
Lemma calculate_webster_cycle_undersaturated (ys : list Q) (L : Q) :
  Py.sum ys < 1 →
  calculate_webster_cycle ys L = Ok ((1.5 * L + 5) / (1 - Py.sum ys)).
Proof.
  intros HY. unfold calculate_webster_cycle.
  destruct (Qle_bool 1 (Py.sum ys)) eqn:E.
  { apply Qle_bool_iff in E. lra. }
  apply truediv_ok. lra.
Qed.



End Webster.

Section TimingClaims.
Local Open Scope Q_scope.
Import SignalDesigner XmlGenerators.

(** C1.  The claim: with flow ratios summing to [Y >= 1] the Webster
    cycle-length calculation fails with a typed error.
    [calculate_webster_cycle] does so
    ([calculate_webster_cycle_oversaturated]); the calculation of the
    Webster tab of the signal designer does not.  On the values the page
    starts with (lost time 3 s, four approaches of 800 veh/h on a
    saturation flow of 1800 veh/h, [Y = 16/9]) and on two approaches at
    1800 veh/h of 1800 ([Y = 2]) it raises nothing and shows a cycle of
    30 seconds with its green split. *)
Theorem webster_button_accepts_oversaturated :
  (∃ ys C gs,
     flow_ratios_of [800; 800; 800; 800]%Z [1800; 1800; 1800; 1800]%Z = Ok ys
     ∧ 1 < Py.sum ys
     ∧ webster_button 3 4 [800; 800; 800; 800]%Z [1800; 1800; 1800; 1800]%Z
       = Ok (C, gs)
     ∧ C == 30 ∧ Forall2 Qeq gs [4.5; 4.5; 4.5; 4.5])
  ∧ (∃ ys C gs,
       flow_ratios_of [1800; 1800]%Z [1800; 1800]%Z = Ok ys
       ∧ 1 < Py.sum ys
       ∧ webster_button 3 2 [1800; 1800]%Z [1800; 1800]%Z = Ok (C, gs)
       ∧ C == 30 ∧ Forall2 Qeq gs [12; 12]).
Proof.
  split.
  - eexists _, _, _. split; [vm_compute; reflexivity|].
    split; [vm_compute; reflexivity|].
    split; [vm_compute; reflexivity|].
    split; [reflexivity|]. repeat constructor.
  - eexists _, _, _. split; [vm_compute; reflexivity|].
    split; [vm_compute; reflexivity|].
    split; [vm_compute; reflexivity|].
    split; [reflexivity|]. repeat constructor.
Qed.

(** C2, as stated, fails when every approach has zero flow: [Y = 0 < 1]
    and the green split divides by [Y]. *)
Lemma webster_timing_zero_flow_raises :
  Py.sum [0; 0] < 1
  ∧ webster_timing [0; 0] 6 = Raise ZeroDivisionError
  ∧ webster_button 3 2 [0; 0]%Z [1800; 1800]%Z = Raise ZeroDivisionError.
Proof. split; [reflexivity|]. split; reflexivity. Qed.

(** C2, amended.  For every lost time [L] and flow ratios [ys] with
    [Y = sum ys < 1] and [Y <> 0], the Webster tab returns the cycle length
    [(1.5 L + 5) / (1 - Y)] clamped to [[30, 180]] and, for each approach,
    the green time [(y_i / Y) * (C - L)]; for [ys = [0.3; 0.3]] and
    [L = 6] the cycle is 35 s and both green times are 14.5 s. *)
Theorem webster_timing_spec :
  (∀ (ys : list Q) (L : Q),
     Py.sum ys < 1 → ¬ Py.sum ys == 0 →
     ∃ C gs,
       webster_timing ys L = Ok (C, gs)
       ∧ clamped 30 180 ((1.5 * L + 5) / (1 - Py.sum ys)) C
       ∧ length gs = length ys
       ∧ ∀ (i : nat) y, ys !! i = Some y →
           ∃ g, gs !! i = Some g ∧ g == y / Py.sum ys * (C - L))
  ∧ (∃ C gs, webster_timing [0.3; 0.3] 6 = Ok (C, gs)
             ∧ C == 35 ∧ Forall2 Qeq gs [14.5; 14.5]).
Proof.
  split.
  - intros ys L HY1 HY0. unfold webster_timing.
    rewrite truediv_ok by lra. cbn.
    rewrite green_loop_spec by done. cbn.
    eexists _, _. split; [reflexivity|].
    split; [apply clamp_30_180|].
    split; [by rewrite length_fmap|].
    intros i y Hy. eexists. split; [|reflexivity].
    by rewrite list_lookup_fmap, Hy.
  - eexists _, _. split; [vm_compute; reflexivity|].
    split; [reflexivity|]. repeat constructor.
Qed.

Lemma webster_timing_spec_witness :
  ∃ C gs,
    webster_timing [0.3; 0.3] 6 = Ok (C, gs)
    ∧ clamped 30 180 ((1.5 * 6 + 5) / (1 - Py.sum [0.3; 0.3])) C
    ∧ length gs = length [0.3; 0.3]
    ∧ ∀ (i : nat) y, [0.3; 0.3] !! i = Some y →
        ∃ g, gs !! i = Some g ∧ g == y / Py.sum [0.3; 0.3] * (C - 6).
Proof.
  apply (proj1 webster_timing_spec [0.3; 0.3] 6).
  - reflexivity.
  - discriminate.
Defined.

(** C3.  For a cycle length [C > 0], a progression speed [v > 0] and
    distances [d], the coordination tab returns one offset more than there
    are distances; the first is 0, each next one is the remainder modulo
    [C] of its predecessor plus the travel time [d_i / v], and every offset
    lies in [[0, C)].  For [C = 60], [v = 10], [d = [300; 300]] the offsets
    are [[0; 30; 0]]. *)
Theorem green_wave_offsets_spec :
  (∀ (C v : Q) (d : list Q),
     0 < C → 0 < v →
     ∃ offsets,
       green_wave_offsets C v d = Ok offsets
       ∧ length offsets = S (length d)
       ∧ offsets !! 0%nat = Some 0
       ∧ (∀ (i : nat) prev di,
            offsets !! i = Some prev → d !! i = Some di →
            ∃ o, offsets !! S i = Some o ∧ is_remainder (prev + di / v) C o)
       ∧ (∀ o, o ∈ offsets → 0 <= o ∧ o < C))
  ∧ (∃ offsets, green_wave_offsets 60 10 [300; 300] = Ok offsets
                ∧ Forall2 Qeq offsets [0; 30; 0])
  ∧ (∃ offsets, green_wave_button 60 36 [300; 300]%Z = Ok offsets
                ∧ Forall2 Qeq offsets [0; 30; 0]).
Proof.
  split.
  - intros C v d HC Hv. unfold green_wave_offsets.
    destruct (offsets_loop_chained C v HC Hv d [0]) as (new & -> & Hch).
    cbn in Hch. exists (0 :: new).
    split; [done|].
    split; [cbn; by rewrite (chained_length _ _ _ _ _ Hch)|].
    split; [done|].
    split; [by apply chained_lookup|].
    intros o Ho. apply elem_of_cons in Ho as [->|Ho]; [lra|].
    by eapply chained_range.
  - split; (eexists; split; [vm_compute; reflexivity|]; repeat constructor).
Qed.

Lemma green_wave_offsets_spec_witness :
  ∃ offsets,
    green_wave_offsets 60 10 [300; 300] = Ok offsets
    ∧ length offsets = 3%nat
    ∧ offsets !! 0%nat = Some 0
    ∧ (∀ (i : nat) prev di,
         offsets !! i = Some prev → [300; 300] !! i = Some di →
         ∃ o, offsets !! S i = Some o ∧ is_remainder (prev + di / 10) 60 o)
    ∧ (∀ o, o ∈ offsets → 0 <= o ∧ o < 60).
Proof.
  apply (proj1 green_wave_offsets_spec 60 10 [300; 300]); reflexivity.
Defined.

End TimingClaims.

(* ===================================================================== *)
(** * A program logic for method bodies                                   *)
(* ===================================================================== *)

Section Hoare.
Context {S : Type}.


Lemma run_bind {A B} (m : prog S A) (f : A → prog S B) (s : S) :
  run (m ≫= f) s
  = match run m s with Ok (a, s') => run (f a) s' | Raise e => Raise e end.
Proof. reflexivity. Qed.

Lemma hoare_conseq {A} (P P' : S → Prop) (Q Q' : A → S → Prop) (m : prog S A) :
  (∀ s, P s → P' s) → (∀ a s, Q' a s → Q a s) →
  hoare P' m Q' → hoare P m Q.
Proof. unfold hoare. naive_solver. Qed.

Lemma hoare_post {A} (P : S → Prop) (Q Q' : A → S → Prop) (m : prog S A) :
  hoare P m Q' → (∀ a s, Q' a s → Q a s) → hoare P m Q.
Proof. unfold hoare. naive_solver. Qed.

(** A fact about local variables carried by the precondition. *)
Lemma hoare_pure {A} (P : S → Prop) (φ : Prop) (Q : A → S → Prop) (m : prog S A) :
  (φ → hoare P m Q) → hoare (λ s, P s ∧ φ) m Q.
Proof. intros H s a s' [HP Hφ]. by apply H. Qed.

Lemma hoare_ret {A} (P : S → Prop) (Q : A → S → Prop) (a : A) :
  (∀ s, P s → Q a s) → hoare P (mret a) Q.
Proof. intros H s a' s' HP [= <- <-]. by apply H. Qed.

Lemma hoare_bind {A B} (P : S → Prop) (R : A → S → Prop) (Q : B → S → Prop)
    (m : prog S A) (f : A → prog S B) :
  hoare P m R → (∀ a, hoare (R a) (f a) Q) → hoare P (m ≫= f) Q.
Proof.
  intros Hm Hf s b s' HP. rewrite run_bind.
  destruct (run m s) as [[a s1]|e] eqn:E; [|done].
  intros Hrun. eapply Hf; [|done]. by eapply Hm.
Qed.

Lemma hoare_lift {A} (P : S → Prop) (Q : A → S → Prop) (r : result A) :
  (∀ a s, r = Ok a → P s → Q a s) → hoare P (lift r) Q.
Proof. intros H s a s' HP. cbn. destruct r; [|done]. intros [= <- <-]. eauto. Qed.

Lemma hoare_lift_bind {A B} (P : S → Prop) (Q : B → S → Prop)
    (r : result A) (f : A → prog S B) :
  (∀ a, r = Ok a → hoare P (f a) Q) → hoare P (lift r ≫= f) Q.
Proof.
  intros H s b s' HP. rewrite run_bind. destruct r as [a|e]; [|done].
  cbn. intros Hrun. by eapply (H a).
Qed.

Lemma hoare_modify (P : S → Prop) (Q : unit → S → Prop) (f : S → S) :
  (∀ s, P s → Q tt (f s)) → hoare P (modify f) Q.
Proof. intros H s [] s' HP [= <-]. by apply H. Qed.

Lemma hoare_if {A} (P : S → Prop) (Q : A → S → Prop) (b : bool)
    (m1 m2 : prog S A) :
  (b = true → hoare P m1 Q) → (b = false → hoare P m2 Q) →
  hoare P (if b then m1 else m2) Q.
Proof. destruct b; auto. Qed.

(** A loop keeps an invariant that each iteration keeps. *)
Lemma hoare_for_each {A} (I : S → Prop) (xs : list A) (body : A → prog S unit) :
  (∀ x, x ∈ xs → hoare I (body x) (λ _, I)) →
  hoare I (for_each xs body) (λ _, I).
Proof.
  induction xs as [|x xs IH]; intros Hbody; cbn.
  - by apply hoare_ret.
  - eapply hoare_bind.
    + apply Hbody. by left.
    + intros ?. apply IH. intros y Hy. apply Hbody. by right.
Qed.

(** A loop over an invariant indexed by what has been established so far:
    iteration [x] adds [G x] to the index. *)
Lemma hoare_for_each_grow {A X} (I : (X → Prop) → S → Prop) (G : A → X → Prop)
    (xs : list A) (body : A → prog S unit) :
  (∀ K K' s, (∀ z, K' z → K z) → I K s → I K' s) →
  (∀ x K, x ∈ xs → hoare (I K) (body x) (λ _, I (λ z, K z ∨ G x z))) →
  ∀ K, hoare (I K) (for_each xs body)
         (λ _, I (λ z, K z ∨ ∃ x, x ∈ xs ∧ G x z)).
Proof.
  intros Hmono. induction xs as [|x xs IH]; intros Hbody K; cbn.
  - apply hoare_ret. intros s. apply Hmono. intros z [?|(x & Hx & _)]; [done|].
    by apply elem_of_nil in Hx.
  - eapply hoare_bind.
    + apply Hbody. by left.
    + intros ?. eapply hoare_conseq; [done | |apply IH].
      * intros ? s. apply Hmono. intros z [?|(y & Hy & HG)].
        -- by left; left.
        -- apply elem_of_cons in Hy as [->|Hy]; [by left; right|].
           right. eauto.
      * intros y K' Hy. apply Hbody. by right.
Qed.


(** A loop that also updates a local variable. *)
Lemma hoare_fold_each {A B} (I : B → S → Prop) (xs : list A)
    (body : B → A → prog S B) :
  (∀ acc x, x ∈ xs → hoare (I acc) (body acc x) I) →
  ∀ acc, hoare (I acc) (fold_each xs acc body) I.
Proof.
  induction xs as [|x xs IH]; intros Hbody acc; cbn.
  - by apply hoare_ret.
  - eapply hoare_bind.
    + apply Hbody. by left.
    + intros acc'. apply IH. intros b y Hy. apply Hbody. by right.
Qed.

Lemma hoare_exec {A} (P : S → Prop) (Q : S → Prop) (m : prog S A) (s s' : S) :
  hoare P m (λ _, Q) → P s → exec m s = Ok s' → Q s'.
Proof.
  intros H HP. unfold exec.
  destruct (run m s) as [[a s1]|e] eqn:E; [|done].
  intros [= <-]. by eapply H.
Qed.

End Hoare.

Section Ranges.
Local Open Scope Z_scope.

Lemma elem_of_range2 (lo hi x : Z) : x ∈ range2 lo hi ↔ lo ≤ x < hi.
Proof. unfold range2. rewrite elem_of_seqZ. lia. Qed.

Lemma elem_of_range (n x : Z) : x ∈ range n ↔ 0 ≤ x < n.
Proof. apply elem_of_range2. Qed.

Lemma range2_empty (lo hi : Z) : hi ≤ lo → range2 lo hi = [].
Proof.
  intros H. unfold range2, seqZ. by replace (Z.to_nat (hi - lo)) with 0%nat by lia.
Qed.


Lemma length_range (n : Z) : length (range n) = Z.to_nat n.
Proof. unfold range, range2. rewrite length_seqZ. f_equal. lia. Qed.

Lemma comprehension_length {A B} (f : A → result B) (xs : list A) (ys : list B) :
  comprehension f xs = Ok ys → length ys = length xs.
Proof.
  revert ys. induction xs as [|x xs IH]; intros ys; cbn.
  - by intros [= <-].
  - destruct (f x) as [y|]; [|done]. cbn.
    destruct (comprehension f xs) as [ys'|]; [|done]. cbn.
    intros [= <-]. cbn. f_equal. by apply IH.
Qed.

Lemma elem_of_enumerate {A} (xs : list A) (i : Z) (x : A) :
  (i, x) ∈ enumerate xs ↔ 0 ≤ i ∧ xs !! Z.to_nat i = Some x.
Proof.
  unfold enumerate. rewrite elem_of_lookup_imap. split.
  - intros (j & y & [= -> ->] & Hy). split; [lia|]. by rewrite Nat2Z.id.
  - intros [Hi Hx]. exists (Z.to_nat i), x. split; [|done].
    f_equal. lia.
Qed.

End Ranges.

(* ===================================================================== *)
(** * Generated networks have no dangling edge                            *)
(* ===================================================================== *)

Section NoDangling.
Import XmlGenerators.
Local Open Scope Z_scope.


Lemma closed_over_mono (K K' : string → Prop) net :
  (∀ z, K' z → K z) → closed_over K net → closed_over K' net.
Proof. intros HK [H1 H2]. split; [|done]. auto. Qed.

Lemma closed_over_new : closed_over (λ _, False) NetworkGenerator_new.
Proof.
  split; [done|]. intros e He. cbn in He. by apply elem_of_nil in He.
Qed.

Lemma Node_new_id id x y ty tl n : Node_new id x y ty tl = Ok n → Node_id n = id.
Proof.
  unfold Node_new. repeat case_match; try done. by intros [= <-].
Qed.

Lemma Edge_new_ends id f t l s p e :
  Edge_new id f t l s p = Ok e → from_node e = f ∧ to_node e = t.
Proof.
  unfold Edge_new. repeat case_match; try done. by intros [= <-].
Qed.

Lemma new_node_rule (K : string → Prop) id x y ty tl :
  hoare (closed_over K) (lift (Node_new id x y ty tl) ≫= add_node)
    (λ _, closed_over (λ z, K z ∨ z = id)).
Proof.
  apply hoare_lift_bind. intros n Hn%Node_new_id.
  apply hoare_modify. intros net [HK Hd]. unfold closed_over, no_dangling,
    resolves, node_ids in *. cbn. rewrite fmap_app. cbn. rewrite Hn. split.
  - intros z [Hz| ->]; apply elem_of_app; [left; auto | right; by left].
  - intros e He. destruct (Hd e He). split; apply elem_of_app; by left.
Qed.

Lemma new_edge_rule (K : string → Prop) id f t l s p :
  K f → K t →
  hoare (closed_over K) (lift (Edge_new id f t l s p) ≫= add_edge)
    (λ _, closed_over K).
Proof.
  intros Hf Ht. apply hoare_lift_bind. intros e [He1 He2]%Edge_new_ends.
  apply hoare_modify. intros net [HK Hd]. split; [done|].
  intros e' [He'|He']%elem_of_app.
  - by apply Hd.
  - apply list_elem_of_singleton in He' as ->. split.
    + rewrite He1. by apply HK.
    + rewrite He2. by apply HK.
Qed.

Lemma add_traffic_light_rule (K : string → Prop) tl :
  hoare (closed_over K) (add_traffic_light tl) (λ _, closed_over K).
Proof. apply hoare_modify. by intros net [HK Hd]. Qed.

Lemma enumerate_index {A} (xs : list A) (i : Z) :
  0 ≤ i < Z.of_nat (length xs) → ∃ x, (i, x) ∈ enumerate xs.
Proof.
  intros Hi. destruct (lookup_lt_is_Some_2 xs (Z.to_nat i)) as [x Hx]; [lia|].
  exists x. apply elem_of_enumerate. split; [lia | done].
Qed.

End NoDangling.

(** One statement of a body in the middle of a sequence. *)
Ltac hstep rule := eapply hoare_bind; [rule | intros ?].
(** The last statement: the index of the invariant is weakened to the one
    asked for. *)
Ltac hlast rule :=
  eapply hoare_conseq; [intros ? H; exact H | | rule];
  cbn beta; intros ? ?; apply closed_over_mono; tauto.
(** An element of a list written out in the source. *)
Ltac in_table H :=
  repeat (apply elem_of_cons in H as [H|H]; [injection H as -> -> ->|]);
  try (by apply elem_of_nil in H).

Section TemplatesNoDangling.
Import XmlGenerators.
Local Open Scope Z_scope.

Lemma closed_no_dangling (K : string → Prop) (u : unit) net :
  closed_over K net → no_dangling net.
Proof. by intros [_ H]. Qed.

Lemma FourWay_body_closed (self : FourWayIntersection.t) :
  hoare (closed_over (λ _, False)) (FourWayIntersection.generate_body self)
    (λ _, no_dangling).
Proof.
  unfold FourWayIntersection.generate_body.
  do 5 hstep ltac:(apply new_node_rule).
  eapply hoare_post; [|apply closed_no_dangling].
  hstep ltac:(apply hoare_for_each).
  { intros [[id f] t] Hx. unfold FourWayIntersection.edge_table in Hx.
    in_table Hx; apply new_edge_rule; tauto. }
  do 4 (apply hoare_lift_bind; intros ? _).
  apply add_traffic_light_rule.
Qed.

Lemma ThreeWay_body_closed (self : ThreeWayIntersection.t) :
  hoare (closed_over (λ _, False)) (ThreeWayIntersection.generate_body self)
    (λ _, no_dangling).
Proof.
  unfold ThreeWayIntersection.generate_body.
  do 4 hstep ltac:(apply new_node_rule).
  eapply hoare_post; [|apply closed_no_dangling].
  hstep ltac:(apply hoare_for_each).
  { intros [[id f] t] Hx. unfold ThreeWayIntersection.edge_table in Hx.
    in_table Hx; apply new_edge_rule; tauto. }
  apply hoare_if; intros _.
  - do 4 (apply hoare_lift_bind; intros ? _).
    apply add_traffic_light_rule.
  - by apply hoare_ret.
Qed.

Lemma Roundabout_body_closed `{RT : Runtime} (self : Roundabout.t) :
  hoare (closed_over (λ _, False)) (Roundabout.generate_body self)
    (λ _, no_dangling).
Proof.
  unfold Roundabout.generate_body.
  apply hoare_lift_bind. intros angles Hlen%comprehension_length.
  rewrite length_range in Hlen.
  hstep ltac:(apply (hoare_for_each_grow closed_over
                       (λ (x : Z * Q) z, z = Roundabout.R x.1))).
  { apply closed_over_mono. }
  { intros [i angle] K _. apply new_node_rule. }
  hstep ltac:(apply (hoare_for_each_grow closed_over
                       (λ (x : Z * Q) z, z = Roundabout.A x.1))).
  { apply closed_over_mono. }
  { intros [i angle] K _. apply new_node_rule. }
  eapply hoare_post; [|apply closed_no_dangling].
  assert (HR : ∀ i, 0 ≤ i < Roundabout.num_arms self →
               ∃ x : Z * Q, x ∈ enumerate angles ∧ Roundabout.R i = Roundabout.R x.1).
  { intros i Hi. destruct (enumerate_index angles i) as [ang Ha]; [lia|].
    by exists (i, ang). }
  assert (HA : ∀ i, 0 ≤ i < Roundabout.num_arms self →
               ∃ x : Z * Q, x ∈ enumerate angles ∧ Roundabout.A i = Roundabout.A x.1).
  { intros i Hi. destruct (enumerate_index angles i) as [ang Ha]; [lia|].
    by exists (i, ang). }
  hstep ltac:(apply hoare_for_each).
  { intros i Hi%elem_of_range. cbn beta zeta.
    assert (0 ≤ (i + 1) `mod` Roundabout.num_arms self < Roundabout.num_arms self)
      by (apply Z.mod_pos_bound; lia).
    apply new_edge_rule; left; right; by apply HR. }
  apply hoare_for_each.
  intros i Hi%elem_of_range.
  hstep ltac:(apply new_edge_rule).
  3: apply new_edge_rule.
  all: first [right; by apply HA | left; right; by apply HR].
Qed.

Lemma Grid_body_closed (self : GridNetwork.t) :
  hoare (closed_over (λ _, False)) (GridNetwork.generate_body self)
    (λ _, no_dangling).
Proof.
  unfold GridNetwork.generate_body.
  hstep ltac:(apply (hoare_for_each_grow closed_over
                (λ row z, ∃ col, col ∈ range (GridNetwork.cols self)
                                 ∧ z = GridNetwork.n_ row col))).
  { apply closed_over_mono. }
  { intros row K _.
    apply (hoare_for_each_grow closed_over (λ col z, z = GridNetwork.n_ row col)).
    - apply closed_over_mono.
    - intros col K' _. apply new_node_rule. }
  eapply hoare_post; [|apply closed_no_dangling].
  assert (Hn : ∀ row col, 0 ≤ row < GridNetwork.rows self →
               0 ≤ col < GridNetwork.cols self →
               False ∨ ∃ r, r ∈ range (GridNetwork.rows self)
                 ∧ ∃ c, c ∈ range (GridNetwork.cols self)
                      ∧ GridNetwork.n_ row col = GridNetwork.n_ r c).
  { intros row col Hr Hc. right. exists row. split; [by apply elem_of_range|].
    exists col. split; [by apply elem_of_range | done]. }
  hstep ltac:(apply hoare_for_each).
  { intros row Hr%elem_of_range. apply hoare_for_each.
    intros col Hc%elem_of_range.
    hstep ltac:(apply new_edge_rule).
    3: apply new_edge_rule.
    all: apply Hn; lia. }
  hstep ltac:(apply hoare_for_each).
  { intros row Hr%elem_of_range. apply hoare_for_each.
    intros col Hc%elem_of_range.
    hstep ltac:(apply new_edge_rule).
    3: apply new_edge_rule.
    all: apply Hn; lia. }
  apply hoare_if; intros _; [|by apply hoare_ret].
  apply hoare_for_each. intros row _. apply hoare_for_each. intros col _.
  do 4 (apply hoare_lift_bind; intros ? _).
  apply add_traffic_light_rule.
Qed.

Lemma Corridor_body_closed (self : Corridor.t) :
  hoare (closed_over (λ _, False)) (Corridor.generate_body self)
    (λ _, no_dangling).
Proof.
  unfold Corridor.generate_body.
  hstep ltac:(apply (hoare_for_each_grow closed_over
                (λ i z, z = Corridor.M i
                        ∨ (1 ≤ i ≤ Corridor.num_intersections self
                           ∧ (z = Corridor.N i ∨ z = Corridor.S i))))).
  { apply closed_over_mono. }
  { intros i K Hi%elem_of_range. apply hoare_if; intros Hb.
    - apply orb_true_iff in Hb. rewrite !bool_decide_eq_true in Hb.
      eapply hoare_post; [apply new_node_rule|].
      intros ? net. apply closed_over_mono.
      intros z [?|[?|[? ?]]]; [by left | by right | lia].
    - apply orb_false_iff in Hb as [H0 HN].
      apply bool_decide_eq_false in H0, HN.
      do 2 hstep ltac:(apply new_node_rule).
      hlast ltac:(apply new_node_rule). }
  eapply hoare_post; [|apply closed_no_dangling].
  assert (HM : ∀ i, 0 ≤ i < Corridor.num_intersections self + 2 →
    False ∨ ∃ x, x ∈ range (Corridor.num_intersections self + 2)
      ∧ (Corridor.M i = Corridor.M x
         ∨ (1 ≤ x ≤ Corridor.num_intersections self
            ∧ (Corridor.M i = Corridor.N x ∨ Corridor.M i = Corridor.S x)))).
  { intros i Hi. right. exists i. split; [by apply elem_of_range | by left]. }
  assert (HN : ∀ i, 1 ≤ i < Corridor.num_intersections self + 1 →
    False ∨ ∃ x, x ∈ range (Corridor.num_intersections self + 2)
      ∧ (Corridor.N i = Corridor.M x
         ∨ (1 ≤ x ≤ Corridor.num_intersections self
            ∧ (Corridor.N i = Corridor.N x ∨ Corridor.N i = Corridor.S x)))).
  { intros i Hi. right. exists i. split; [apply elem_of_range; lia|].
    right. split; [lia | by left]. }
  assert (HS : ∀ i, 1 ≤ i < Corridor.num_intersections self + 1 →
    False ∨ ∃ x, x ∈ range (Corridor.num_intersections self + 2)
      ∧ (Corridor.S i = Corridor.M x
         ∨ (1 ≤ x ≤ Corridor.num_intersections self
            ∧ (Corridor.S i = Corridor.N x ∨ Corridor.S i = Corridor.S x)))).
  { intros i Hi. right. exists i. split; [apply elem_of_range; lia|].
    right. split; [lia | by right]. }
  hstep ltac:(apply hoare_for_each).
  { intros i Hi%elem_of_range.
    hstep ltac:(apply new_edge_rule).
    3: apply new_edge_rule.
    all: apply HM; lia. }
  apply hoare_for_each. intros i Hi%elem_of_range2.
  do 4 (hstep ltac:(apply new_edge_rule);
        [first [apply HM; lia | apply HN; lia | apply HS; lia]..|]).
  apply hoare_if; intros _; [|by apply hoare_ret].
  do 4 (apply hoare_lift_bind; intros ? _).
  apply add_traffic_light_rule.
Qed.

Lemma Highway_body_closed (self : Highway.t) :
  hoare (closed_over (λ _, False)) (Highway.generate_body self)
    (λ _, no_dangling).
Proof.
  unfold Highway.generate_body.
  apply hoare_lift_bind. intros ramp_spacing _.
  do 2 hstep ltac:(apply new_node_rule).
  hstep ltac:(apply (hoare_for_each_grow closed_over
                (λ i z, z = Highway.junc_ i ∨ z = Highway.on_ramp_ i
                        ∨ z = Highway.off_ramp_ i))).
  { apply closed_over_mono. }
  { intros i K _. do 2 hstep ltac:(apply new_node_rule).
    hlast ltac:(apply new_node_rule). }
  set (K := λ z : string, _ ∨ _).
  assert (Hj : ∀ i, 1 ≤ i < Highway.num_ramps self + 1 → K (Highway.junc_ i)).
  { intros i Hi. right. exists i. split; [by apply elem_of_range2 | by left]. }
  assert (Hon : ∀ i, 1 ≤ i < Highway.num_ramps self + 1 → K (Highway.on_ramp_ i)).
  { intros i Hi. right. exists i.
    split; [by apply elem_of_range2 | by right; left]. }
  assert (Hoff : ∀ i, 1 ≤ i < Highway.num_ramps self + 1 → K (Highway.off_ramp_ i)).
  { intros i Hi. right. exists i.
    split; [by apply elem_of_range2 | by right; right]. }
  assert (Hstart : K "start") by (left; left; by right).
  assert (Hend : K "end") by (left; by right).
  clearbody K.
  eapply hoare_post; [|apply (closed_no_dangling K)].
  eapply hoare_bind.
  { eapply hoare_conseq;
      [| |apply (hoare_fold_each (λ prev net, closed_over K net ∧ K prev))].
    - intros net H. split; [exact H | exact Hstart].
    - intros prev net H. exact H.
    - intros prev i Hi%elem_of_range2. apply hoare_pure. intros Hprev.
      hstep ltac:(apply new_edge_rule; [exact Hprev | by apply Hj]).
      apply hoare_ret. intros net H. split; [done | by apply Hj]. }
  intros prev. apply hoare_pure. intros Hprev.
  hstep ltac:(by apply new_edge_rule).
  apply hoare_for_each. intros i Hi%elem_of_range2.
  hstep ltac:(apply new_edge_rule; [by apply Hon | by apply Hj]).
  apply new_edge_rule; [by apply Hj | by apply Hoff].
Qed.

End TemplatesNoDangling.

(* ===================================================================== *)
(** * Width of the state strings of generated signal programs             *)
(* ===================================================================== *)

Section StateWidth.
Import XmlGenerators.
Local Open Scope Z_scope.


Lemma length_append (s1 s2 : string) :
  String.length (s1 +:+ s2) = (String.length s1 + String.length s2)%nat.
Proof. induction s1 as [|c s1 IH]; simpl; [done | by f_equal]. Qed.

Lemma length_str_mul (c : Ascii.ascii) (k : Z) :
  String.length (str_mul (String c "") k) = Z.to_nat k.
Proof.
  unfold str_mul. induction (Z.to_nat k) as [|n IH]; simpl; [done | by f_equal].
Qed.
















End StateWidth.

(* ===================================================================== *)
(** * Serialisation                                                       *)
(* ===================================================================== *)

Section Serialisation.
Context `{RT : Runtime}.
Import XmlGenerators.



Lemma children_fold_append {A} (f : A → ET.Element) (xs : list A) root :
  ET.children (fold_left (λ r x, ET.append r (f x)) xs root)
  = ET.children root ++ (f <$> xs).
Proof.
  revert root. induction xs as [|x xs IH]; intros root; cbn.
  - by rewrite app_nil_r.
  - rewrite IH. destruct root as [t a c]. cbn. by rewrite <- app_assoc.
Qed.






Lemma run_save_all net base name fs :
  run (save_all net base name) fs = Ok (tt, written net base name fs).
Proof.
  unfold save_all, written. rewrite !run_bind. cbn.
  destruct (nonempty (connections net)), (nonempty (traffic_lights net)); done.
Qed.



End Serialisation.

Section FlowRecords.
Context `{RT : Runtime}.
Import XmlGenerators.

Lemma positive_iff (x : Q) : positive x = true ↔ (0 < x)%Q.
Proof.
  unfold positive. rewrite negb_true_iff, <- not_true_iff_false, Qle_bool_iff.
  split; [apply Qnot_le_lt | apply Qlt_not_le].
Qed.

Lemma positive_false_iff (x : Q) : positive x = false ↔ (x <= 0)%Q.
Proof.
  unfold positive. rewrite negb_false_iff. apply Qle_bool_iff.
Qed.

(** The rate attributes of a flow record, by cases on the four rates. *)
Lemma rate_attributes_flow (f : Flow) :
  rate_attributes (Flow_to_xml_element f)
  = if positive (vehs_per_hour f)
    then [("vehsPerHour", str_float (vehs_per_hour f))]
    else if positive (probability f)
    then [("probability", str_float (probability f))]
    else if positive (period f)
    then [("period", str_float (period f))]
    else if (0 <? number f)%Z
    then [("number", pretty (number f))]
    else [].
Proof.
  destruct f as [id fe te rid vt b e vph pr pe nu].
  unfold Flow_to_xml_element. cbn [Flow_id Flow_from_edge Flow_to_edge route_id
    vtype Flow_begin Flow_end vehs_per_hour probability period number].
  destruct (truthy rid), (truthy fe), (truthy te),
    (positive vph), (positive pr), (positive pe), (0 <? nu)%Z;
    vm_compute; reflexivity.
Qed.

(** The route and endpoint attributes of a flow record. *)
Lemma route_attributes_flow (f : Flow) :
  let a := ET.attrib (Flow_to_xml_element f) in
  ET.dict_get a "route" = (if truthy (route_id f) then Some (route_id f) else None)
  ∧ ET.dict_get a "from"
    = (if truthy (route_id f) then None
       else if truthy (Flow_from_edge f) then Some (Flow_from_edge f) else None)
  ∧ ET.dict_get a "to"
    = (if truthy (route_id f) then None
       else if truthy (Flow_to_edge f) then Some (Flow_to_edge f) else None).
Proof.
  destruct f as [id fe te rid vt b e vph pr pe nu].
  unfold Flow_to_xml_element. cbn [Flow_id Flow_from_edge Flow_to_edge route_id
    vtype Flow_begin Flow_end vehs_per_hour probability period number].
  destruct (truthy rid), (truthy fe), (truthy te),
    (positive vph), (positive pr), (positive pe), (0 <? nu)%Z;
    vm_compute; done.
Qed.

Lemma truthy_iff (s : string) : truthy s = true ↔ s ≠ "".
Proof. destruct s; cbn; split; done. Qed.

Lemma truthy_false_iff (s : string) : truthy s = false ↔ s = "".
Proof. destruct s; cbn; split; done. Qed.

End FlowRecords.

(* ===================================================================== *)
(** * Valid parameters are accepted                                       *)
(* ===================================================================== *)

Section Returns.
Context {S : Type}.

Lemma returns_ret {A} (a : A) (φ : A → Prop) :
  φ a → returns (mret a : prog S A) φ.
Proof. intros H s. by exists a, s. Qed.

Lemma returns_bind {A B} (m : prog S A) (f : A → prog S B) (φ : A → Prop)
    (ψ : B → Prop) :
  returns m φ → (∀ a, φ a → returns (f a) ψ) → returns (m ≫= f) ψ.
Proof.
  intros Hm Hf s. destruct (Hm s) as (a & s1 & E & Ha).
  destruct (Hf a Ha s1) as (b & s2 & E2 & Hb).
  exists b, s2. by rewrite run_bind, E.
Qed.

Lemma returns_seq {A B} (m : prog S A) (k : prog S B) (ψ : B → Prop) :
  returns m (λ _, True) → returns k ψ → returns (m ≫= λ _, k) ψ.
Proof. intros Hm Hk. eapply returns_bind; [exact Hm | by intros]. Qed.

Lemma returns_lift_bind {A B} (r : result A) (a : A) (f : A → prog S B)
    (ψ : B → Prop) :
  r = Ok a → returns (f a) ψ → returns (lift r ≫= f) ψ.
Proof.
  intros -> Hf s. destruct (Hf s) as (b & s' & E & Hb).
  exists b, s'. by rewrite run_bind.
Qed.

Lemma returns_modify (f : S → S) : returns (modify f) (λ _, True).
Proof. intros s. by exists tt, (f s). Qed.

Lemma returns_for_each {A} (xs : list A) (body : A → prog S unit) :
  (∀ x, x ∈ xs → returns (body x) (λ _, True)) →
  returns (for_each xs body) (λ _, True).
Proof.
  induction xs as [|x xs IH]; intros Hbody; cbn.
  - by apply returns_ret.
  - apply returns_seq; [apply Hbody; by left|].
    apply IH. intros y Hy. apply Hbody. by right.
Qed.

(** A loop over [range(lo, hi)] that updates a local variable, with an
    invariant on the variable that follows the index. *)
Lemma returns_fold_range {B} (I : Z → B → Prop) (hi : Z)
    (body : B → Z → prog S B) (n : nat) :
  ∀ (lo : Z) (acc : B),
    (lo + Z.of_nat n = hi)%Z →
    I lo acc →
    (∀ i acc, (lo ≤ i < hi)%Z → I i acc → returns (body acc i) (I (i + 1)%Z)) →
    returns (fold_each (seqZ lo (Z.of_nat n)) acc body) (I hi).
Proof.
  induction n as [|n IH]; intros lo acc Hhi Hacc Hbody.
  - cbn. apply returns_ret. by replace hi with lo by lia.
  - rewrite Nat2Z.inj_succ, seqZ_cons by lia. cbn.
    eapply returns_bind; [apply Hbody; [lia | done]|].
    intros acc' Hacc'. replace (Z.pred (Z.succ (Z.of_nat n))) with (Z.of_nat n) by lia.
    apply IH; [lia | by replace (Z.succ lo) with (lo + 1)%Z by lia|].
    intros i b Hi. apply Hbody. lia.
Qed.

Lemma returns_exec {A} (m : prog S A) (φ : A → Prop) (s : S) :
  returns m φ → ∃ s', exec m s = Ok s'.
Proof.
  intros Hm. destruct (Hm s) as (a & s' & E & _). exists s'.
  unfold exec. by rewrite E.
Qed.

End Returns.

Section Accepted.
Import XmlGenerators.
Local Open Scope Z_scope.

Lemma Node_new_ok id x y ty tl :
  id ≠ "" → ty ∈ valid_types → Node_new id x y ty tl = Ok (mkNode id x y ty tl).
Proof.
  intros Hid%truthy_iff Hty. unfold Node_new. rewrite Hid. cbn [negb].
  by rewrite bool_decide_eq_true_2.
Qed.

Lemma Edge_new_ok id f t l s p :
  id ≠ "" → f ≠ "" → t ≠ "" → f ≠ t → 1 ≤ l → (0 < s)%Q →
  Edge_new id f t l s p = Ok (mkEdge id f t l s p "" "" "").
Proof.
  intros Hid%truthy_iff Hf%truthy_iff Ht%truthy_iff Hft Hl Hs.
  unfold Edge_new. rewrite Hid, Hf, Ht. cbn [negb].
  rewrite bool_decide_eq_false_2 by done.
  destruct (l <? 1) eqn:E; [lia|].
  destruct (Qle_bool s 0) eqn:E2; [|done].
  apply Qle_bool_iff in E2. lra.
Qed.

Lemma Phase_new_ok d st nm :
  0 < d → st ≠ "" → Phase_new d st 0 0 nm = Ok (mkPhase d st 0 0 nm).
Proof.
  intros Hd Hst%truthy_iff. unfold Phase_new. rewrite Hst.
  destruct (d <=? 0) eqn:E; [lia | done].
Qed.

Lemma kmh_to_ms_pos (kmh : Q) : (0 < kmh)%Q → (0 < kmh_to_ms kmh)%Q.
Proof. intros H. unfold kmh_to_ms. apply Qlt_shift_div_l; lra. Qed.

Lemma app_cancel_r (s1 s2 t : string) : s1 +:+ t = s2 +:+ t → s1 = s2.
Proof.
  revert s2. induction s1 as [|c s1 IH]; intros [|c2 s2] H; [done| | |].
  - apply (f_equal String.length) in H.
    rewrite !length_append in H. simpl in H. lia.
  - apply (f_equal String.length) in H.
    rewrite !length_append in H. simpl in H. lia.
  - simpl in H. injection H as -> H. f_equal. by apply IH.
Qed.

Lemma prefix_pretty_inj (p : string) (i j : Z) : p +:+ pretty i = p +:+ pretty j → i = j.
Proof. intros H. apply (inj (String.app p)) in H. by apply (inj pretty) in H. Qed.

Lemma new_node_returns (id : string) x y ty tl :
  id ≠ "" → ty ∈ valid_types →
  returns (lift (Node_new id x y ty tl) ≫= add_node) (λ _, True).
Proof.
  intros Hid Hty. eapply returns_lift_bind; [by apply Node_new_ok|].
  apply returns_modify.
Qed.

Lemma new_edge_returns id f t l s p :
  id ≠ "" → f ≠ "" → t ≠ "" → f ≠ t → 1 ≤ l → (0 < s)%Q →
  returns (lift (Edge_new id f t l s p) ≫= add_edge) (λ _, True).
Proof.
  intros. eapply returns_lift_bind; [by apply Edge_new_ok|].
  apply returns_modify.
Qed.

Lemma str_mul_nonempty (c : Ascii.ascii) (k : Z) (rest : string) :
  0 < k → str_mul (String c "") k +:+ rest ≠ "".
Proof.
  intros Hk. unfold str_mul. destruct (Z.to_nat k) eqn:E; [lia | done].
Qed.

Lemma new_program_returns id ty d1 d2 d3 d4 s1 s2 s3 s4 n1 n2 n3 n4 :
  0 < d1 → 0 < d2 → 0 < d3 → 0 < d4 →
  s1 ≠ "" → s2 ≠ "" → s3 ≠ "" → s4 ≠ "" →
  returns
    (p1 ← lift (Phase_new d1 s1 0 0 n1);
     p2 ← lift (Phase_new d2 s2 0 0 n2);
     p3 ← lift (Phase_new d3 s3 0 0 n3);
     p4 ← lift (Phase_new d4 s4 0 0 n4);
     add_traffic_light (TrafficLight_new id [p1; p2; p3; p4] ty))
    (λ _, True).
Proof.
  intros. do 4 (eapply returns_lift_bind; [by apply Phase_new_ok|]).
  apply returns_modify.
Qed.

End Accepted.

Ltac in_valid_types := unfold XmlGenerators.valid_types; by repeat constructor.
Ltac node_ok := apply new_node_returns; [done | in_valid_types].

Section TemplatesAccepted.
Import XmlGenerators.
Local Open Scope Z_scope.

Lemma FourWay_body_returns (self : FourWayIntersection.t) :
  valid (T4way self) →
  returns (FourWayIntersection.generate_body self) (λ _, True).
Proof.
  intros (Hl & Hs%kmh_to_ms_pos & Hns & Hew & Hy).
  unfold FourWayIntersection.generate_body.
  do 5 (apply returns_seq; [node_ok|]).
  apply returns_seq.
  { apply returns_for_each. intros [[id f] t] Hx.
    unfold FourWayIntersection.edge_table in Hx.
    in_table Hx; by apply new_edge_returns. }
  apply new_program_returns; try done; apply str_mul_nonempty; lia.
Qed.

Lemma ThreeWay_body_returns (self : ThreeWayIntersection.t) :
  valid (T3way self) →
  returns (ThreeWayIntersection.generate_body self) (λ _, True).
Proof.
  intros (Hl & Hs%kmh_to_ms_pos).
  unfold ThreeWayIntersection.generate_body.
  apply returns_seq; [destruct (ThreeWayIntersection.has_signal self); node_ok|].
  do 3 (apply returns_seq; [node_ok|]).
  apply returns_seq.
  { apply returns_for_each. intros [[id f] t] Hx.
    unfold ThreeWayIntersection.edge_table in Hx.
    in_table Hx; by apply new_edge_returns. }
  destruct (ThreeWayIntersection.has_signal self); [|by apply returns_ret].
  apply new_program_returns; try done; apply str_mul_nonempty; lia.
Qed.

Lemma comprehension_ok {A B} (f : A → result B) (xs : list A) :
  (∀ x, x ∈ xs → ∃ y, f x = Ok y) → ∃ ys, comprehension f xs = Ok ys.
Proof.
  induction xs as [|x xs IH]; intros Hf; cbn.
  - by eexists.
  - destruct (Hf x) as [y ->]; [by left|].
    destruct IH as [ys ->]; [intros z Hz; apply Hf; by right|].
    by eexists.
Qed.

Lemma next_arm_differs (i K : Z) : 2 ≤ K → 0 ≤ i < K → (i + 1) `mod` K ≠ i.
Proof.
  intros HK Hi. destruct (decide (i + 1 < K)).
  - rewrite Z.mod_small by lia. lia.
  - replace (i + 1) with K by lia. rewrite Z.mod_same by lia. lia.
Qed.

Lemma Roundabout_body_returns `{RT : Runtime} (self : Roundabout.t) :
  valid (Troundabout self) →
  returns (Roundabout.generate_body self) (λ _, True).
Proof.
  intros (HK & Hl & Hr & Hs%kmh_to_ms_pos).
  unfold Roundabout.generate_body.
  edestruct (comprehension_ok
               (λ i, step ← truediv 360 (inject_Z (Roundabout.num_arms self));
                     mret (inject_Z i * step)%Q)
               (range (Roundabout.num_arms self))) as [angles Hangles].
  { intros i _. rewrite truediv_ok; [by eexists|].
    intros H. assert (Roundabout.num_arms self = 0); [|lia].
    unfold Qeq in H. cbn in H. lia. }
  eapply returns_lift_bind; [exact Hangles|].
  do 2 (apply returns_seq;
        [apply returns_for_each; intros [i angle] _; node_ok|]).
  apply returns_seq.
  { apply returns_for_each. intros i Hi%elem_of_range.
    apply new_edge_returns; try done.
    intros H%prefix_pretty_inj. by apply (next_arm_differs i (Roundabout.num_arms self)). }
  apply returns_for_each. intros i Hi%elem_of_range.
  apply returns_seq; by apply new_edge_returns.
Qed.

Lemma Grid_body_returns (self : GridNetwork.t) :
  valid (Tgrid self) → returns (GridNetwork.generate_body self) (λ _, True).
Proof.
  intros (Hl & Hs%kmh_to_ms_pos).
  unfold GridNetwork.generate_body.
  apply returns_seq.
  { apply returns_for_each. intros row _. apply returns_for_each. intros col _.
    cbn zeta. case_match; node_ok. }
  assert (Hcol : ∀ row col, GridNetwork.n_ row col ≠ GridNetwork.n_ row (col + 1)).
  { intros row col H. unfold GridNetwork.n_ in H.
    do 3 apply (inj (String.app _)) in H. apply (inj pretty) in H. lia. }
  assert (Hrow : ∀ row col, GridNetwork.n_ row col ≠ GridNetwork.n_ (row + 1) col).
  { intros row col H. unfold GridNetwork.n_ in H.
    apply (inj (String.app _)) in H. apply app_cancel_r in H.
    apply (inj pretty) in H. lia. }
  apply returns_seq.
  { apply returns_for_each. intros row _. apply returns_for_each. intros col _.
    apply returns_seq; by apply new_edge_returns. }
  apply returns_seq.
  { apply returns_for_each. intros row _. apply returns_for_each. intros col _.
    apply returns_seq; by apply new_edge_returns. }
  destruct (GridNetwork.signalized self); [|by apply returns_ret].
  apply returns_for_each. intros row _. apply returns_for_each. intros col _.
  apply new_program_returns; try done; apply str_mul_nonempty; lia.
Qed.

Lemma Corridor_body_returns (self : Corridor.t) :
  valid (Tcorridor self) → returns (Corridor.generate_body self) (λ _, True).
Proof.
  intros (Hm & Hc & Hms%kmh_to_ms_pos & Hcs%kmh_to_ms_pos).
  unfold Corridor.generate_body.
  apply returns_seq.
  { apply returns_for_each. intros i _. case_match; [node_ok|].
    apply returns_seq; [destruct (Corridor.signalized self); node_ok|].
    apply returns_seq; node_ok. }
  assert (HM : ∀ i, Corridor.M i ≠ Corridor.M (i + 1)).
  { intros i H%prefix_pretty_inj. lia. }
  apply returns_seq.
  { apply returns_for_each. intros i _.
    apply returns_seq; by apply new_edge_returns. }
  apply returns_for_each. intros i _.
  do 4 (apply returns_seq; [by apply new_edge_returns|]).
  destruct (Corridor.signalized self); [|by apply returns_ret].
  apply new_program_returns; try done; apply str_mul_nonempty; lia.
Qed.

Lemma Highway_body_returns (self : Highway.t) :
  valid (Thighway self) → returns (Highway.generate_body self) (λ _, True).
Proof.
  intros (HR & Hl & Hrl & Hs%kmh_to_ms_pos).
  assert (Hramp : (0 < kmh_to_ms 60)%Q) by by apply kmh_to_ms_pos.
  unfold Highway.generate_body.
  eapply returns_lift_bind.
  { apply truediv_ok. intros H. unfold Qeq in H. cbn in H. lia. }
  do 2 (apply returns_seq; [node_ok|]).
  apply returns_seq.
  { apply returns_for_each. intros i _. do 2 (apply returns_seq; [node_ok|]). node_ok. }
  eapply returns_bind.
  { unfold range2.
    replace (Highway.num_ramps self + 1 - 1)
      with (Z.of_nat (Z.to_nat (Highway.num_ramps self))) by lia.
    apply (returns_fold_range
             (λ i prev, (i = 1 ∧ prev = "start")
                        ∨ (1 < i ∧ prev = Highway.junc_ (i - 1)))
             (Highway.num_ramps self + 1)).
    - lia.
    - by left.
    - intros i prev Hi Hprev.
      apply returns_seq.
      + apply new_edge_returns; try done.
        * by destruct Hprev as [[_ ->]|[_ ->]].
        * destruct Hprev as [[_ ->]|[_ ->]]; [done|].
          intros H%prefix_pretty_inj. lia.
      + apply returns_ret. right. split; [lia|]. f_equal. lia. }
  intros prev Hprev. cbn beta in Hprev.
  apply returns_seq.
  { apply new_edge_returns; try done; by destruct Hprev as [[_ ->]|[_ ->]]. }
  apply returns_for_each. intros i _.
  apply returns_seq; by apply new_edge_returns.
Qed.

(** Every template generates a network from valid parameters. *)
Lemma generate_accepts_valid `{RT : Runtime} (tpl : template) :
  valid tpl → ∃ net, template_generate tpl = Ok net.
Proof.
  destruct tpl as [self|self|self|self|self|self]; intros Hv; cbn;
    eapply returns_exec.
  - by apply FourWay_body_returns.
  - by apply ThreeWay_body_returns.
  - by apply Roundabout_body_returns.
  - by apply Grid_body_returns.
  - by apply Corridor_body_returns.
  - by apply Highway_body_returns.
Qed.

End TemplatesAccepted.

(* ===================================================================== *)
(** * Networks, signal programs and records: the claims                   *)
(* ===================================================================== *)


Section Claims.
Import XmlGenerators.
Local Open Scope Z_scope.



(** C7.  For each of the six templates, in the network that [generate]
    returns every edge has a from-node and a to-node that are ids of nodes
    of that network; and [generate] returns a network from every valid
    parameter assignment. *)
Theorem generated_edges_resolve `{RT : Runtime} :
  (∀ (tpl : template) (net : NetworkGenerator),
     template_generate tpl = Ok net →
     ∀ e, e ∈ edges net →
       from_node e ∈ (Node_id <$> nodes net)
       ∧ to_node e ∈ (Node_id <$> nodes net))
  ∧ (∀ tpl : template, valid tpl → ∃ net, template_generate tpl = Ok net).
Proof.
  split; [|apply generate_accepts_valid].
  intros tpl net Hgen. change (no_dangling net).
  destruct tpl as [self|self|self|self|self|self]; cbn in Hgen;
    (eapply hoare_exec; [|apply closed_over_new|exact Hgen]).
  - apply FourWay_body_closed.
  - apply ThreeWay_body_closed.
  - apply Roundabout_body_closed.
  - apply Grid_body_closed.
  - apply Corridor_body_closed.
  - apply Highway_body_closed.
Qed.

Lemma generated_edges_resolve_witness :
  (∃ net,
     template_generate (RT := Example.runtime) (Troundabout example_roundabout)
     = Ok net
     ∧ length (edges net) = 12%nat
     ∧ ∀ e, e ∈ edges net →
         from_node e ∈ (Node_id <$> nodes net)
         ∧ to_node e ∈ (Node_id <$> nodes net))
  ∧ (∃ net,
       template_generate (RT := Example.runtime) (Thighway example_highway)
       = Ok net
       ∧ length (edges net) = 7%nat
       ∧ ∀ e, e ∈ edges net →
           from_node e ∈ (Node_id <$> nodes net)
           ∧ to_node e ∈ (Node_id <$> nodes net))
  ∧ valid (T3way example_three_way)
  ∧ ∃ net,
      template_generate (RT := Example.runtime) (T3way example_three_way)
      = Ok net.
Proof.
  split; [|split; [|split]].
  - eexists. split; [vm_compute; reflexivity|]. split; [reflexivity|].
    apply (proj1 (generated_edges_resolve (RT := Example.runtime))
             (Troundabout example_roundabout)).
    reflexivity.
  - eexists. split; [vm_compute; reflexivity|]. split; [reflexivity|].
    apply (proj1 (generated_edges_resolve (RT := Example.runtime))
             (Thighway example_highway)).
    reflexivity.
  - split; [cbn; lia | reflexivity].
  - apply (proj2 (generated_edges_resolve (RT := Example.runtime))
             (T3way example_three_way)).
    split; [cbn; lia | reflexivity].
Defined.







(** C8, as stated, fails: a flow that sets none of the four rates is
    written with no rate attribute. *)
Lemma flow_without_rate :
  rate_attributes (Flow_to_xml_element (RT := Example.runtime)
                     example_flow_no_rate) = []
  ∧ ¬ (∀ (RT : Runtime) (f : Flow),
         length (rate_attributes (Flow_to_xml_element f)) = 1%nat).
Proof.
  split; [by vm_compute|].
  intros H. specialize (H Example.runtime example_flow_no_rate).
  vm_compute in H. discriminate H.
Qed.

(** C8, amended.  A flow record carries at most one demand-rate attribute:
    that of the first rate that is positive, in the order vehicles per
    hour, probability, period, number; it carries none when no rate is
    positive. *)
Theorem flow_rate_attribute `{RT : Runtime} (f : Flow) :
  let rates := rate_attributes (Flow_to_xml_element f) in
  (length rates ≤ 1)%nat
  ∧ ((0 < vehs_per_hour f)%Q →
     rates = [("vehsPerHour", str_float (vehs_per_hour f))])
  ∧ ((vehs_per_hour f <= 0)%Q → (0 < probability f)%Q →
     rates = [("probability", str_float (probability f))])
  ∧ ((vehs_per_hour f <= 0)%Q → (probability f <= 0)%Q → (0 < period f)%Q →
     rates = [("period", str_float (period f))])
  ∧ ((vehs_per_hour f <= 0)%Q → (probability f <= 0)%Q → (period f <= 0)%Q →
     0 < number f →
     rates = [("number", pretty (number f))])
  ∧ ((vehs_per_hour f <= 0)%Q → (probability f <= 0)%Q → (period f <= 0)%Q →
     number f ≤ 0 →
     rates = []).
Proof.
  intros rates. unfold rates. rewrite rate_attributes_flow.
  destruct (positive (vehs_per_hour f)) eqn:E1;
    [apply positive_iff in E1 | apply positive_false_iff in E1].
  { repeat split; intros; first [done | cbn; lia | exfalso; lra]. }
  destruct (positive (probability f)) eqn:E2;
    [apply positive_iff in E2 | apply positive_false_iff in E2].
  { repeat split; intros; first [done | cbn; lia | exfalso; lra]. }
  destruct (positive (period f)) eqn:E3;
    [apply positive_iff in E3 | apply positive_false_iff in E3].
  { repeat split; intros; first [done | cbn; lia | exfalso; lra]. }
  destruct (0 <? number f) eqn:E4.
  { apply Z.ltb_lt in E4.
    repeat split; intros; first [done | cbn; lia | exfalso; lra | exfalso; lia]. }
  apply Z.ltb_ge in E4.
  repeat split; intros; first [done | cbn; lia | exfalso; lra | exfalso; lia].
Qed.

Lemma flow_rate_attribute_witness :
  let rates := rate_attributes (Flow_to_xml_element (RT := Example.runtime)
                                  example_flow_route) in
  (0 < vehs_per_hour example_flow_route)%Q
  ∧ rates = [("vehsPerHour", "500/1")].
Proof.
  split; [reflexivity|].
  apply (proj1 (proj2 (flow_rate_attribute (RT := Example.runtime)
                         example_flow_route))).
  reflexivity.
Defined.


(** C10.  A flow whose [route_id] is not empty is written with the [route]
    attribute and without [from] and [to], even when [from_edge] and
    [to_edge] are set; a flow whose [route_id] is empty is written without
    [route] and with [from] (resp. [to]) exactly when [from_edge] (resp.
    [to_edge]) is not empty. *)
Theorem flow_route_precedence `{RT : Runtime} (f : Flow) :
  let a := ET.attrib (Flow_to_xml_element f) in
  (route_id f ≠ "" →
   ET.dict_get a "route" = Some (route_id f)
   ∧ ET.dict_get a "from" = None ∧ ET.dict_get a "to" = None)
  ∧ (route_id f = "" →
     ET.dict_get a "route" = None
     ∧ ET.dict_get a "from"
       = (if truthy (Flow_from_edge f) then Some (Flow_from_edge f) else None)
     ∧ ET.dict_get a "to"
       = (if truthy (Flow_to_edge f) then Some (Flow_to_edge f) else None)).
Proof.
  intros a. destruct (route_attributes_flow f) as (Hr & Hf & Ht). fold a in Hr, Hf, Ht.
  split.
  - intros Hne%truthy_iff. rewrite Hne in Hr, Hf, Ht. done.
  - intros He%truthy_false_iff. rewrite He in Hr, Hf, Ht. done.
Qed.

Lemma flow_route_precedence_witness :
  let a := ET.attrib (Flow_to_xml_element (RT := Example.runtime)
                        example_flow_route) in
  Flow_from_edge example_flow_route = "N2C"
  ∧ Flow_to_edge example_flow_route = "C2S"
  ∧ ET.dict_get a "route" = Some "r0"
  ∧ ET.dict_get a "from" = None ∧ ET.dict_get a "to" = None.
Proof.
  split; [reflexivity|]. split; [reflexivity|].
  apply (proj1 (flow_route_precedence (RT := Example.runtime)
                  example_flow_route)).
  discriminate.
Defined.

End Claims.

(* ===================================================================== *)
(** * What a method body appends                                          *)
(* ===================================================================== *)

Section ListFacts.

Lemma bind_fmap_singleton {A B} (f : A → B) (xs : list A) :
  xs ≫= (λ x, [f x]) = f <$> xs.
Proof. induction xs as [|x xs IH]; cbn; [done | by rewrite IH]. Qed.

Lemma bind_ext_in {A B} (f g : A → list B) (xs : list A) :
  (∀ x, x ∈ xs → f x = g x) → xs ≫= f = xs ≫= g.
Proof.
  induction xs as [|x xs IH]; intros H; cbn; [done|].
  rewrite (H x) by by left. f_equal. apply IH. intros y Hy. apply H. by right.
Qed.

End ListFacts.

Section WritesRules.
Context {S X : Type}.
Implicit Types (p : S → list X).

Lemma writes_ret {A} p (a : A) : writes p (mret a : prog S A) [].
Proof. intros s a' s' [= <- <-]. by rewrite app_nil_r. Qed.

Lemma writes_seq {A B} p (m : prog S A) (k : A → prog S B) (o1 o2 : list X) :
  writes p m o1 → (∀ a, writes p (k a) o2) → writes p (m ≫= k) (o1 ++ o2).
Proof.
  intros Hm Hk s b s'. rewrite run_bind.
  destruct (run m s) as [[a s1]|e] eqn:E; [|done].
  intros Hrun. rewrite (Hk a _ _ _ Hrun), (Hm _ _ _ E). by rewrite app_assoc.
Qed.

(** The first statement appends nothing, or one element. *)
Lemma writes_skip {A B} p (m : prog S A) (k : A → prog S B) (o : list X) :
  writes p m [] → (∀ a, writes p (k a) o) → writes p (m ≫= k) o.
Proof. apply (writes_seq p m k [] o). Qed.

Lemma writes_cons {A B} p (m : prog S A) (k : A → prog S B) (x : X)
    (o : list X) :
  writes p m [x] → (∀ a, writes p (k a) o) → writes p (m ≫= k) (x :: o).
Proof. apply (writes_seq p m k [x] o). Qed.

(** The rest of the sequence appends nothing. *)
Lemma writes_seq_end {A B} p (m : prog S A) (k : A → prog S B) (o : list X) :
  writes p m o → (∀ a, writes p (k a) []) → writes p (m ≫= k) o.
Proof.
  intros Hm Hk. rewrite <- (app_nil_r o). by apply writes_seq.
Qed.

Lemma writes_lift_bind {A B} p (r : result A) (f : A → prog S B) (o : list X) :
  (∀ a, r = Ok a → writes p (f a) o) → writes p (lift r ≫= f) o.
Proof.
  intros H s b s'. rewrite run_bind. destruct r as [a|e]; [|done].
  cbn. by apply (H a).
Qed.

Lemma writes_modify p (f : S → S) (o : list X) :
  (∀ s, p (f s) = p s ++ o) → writes p (modify f) o.
Proof. intros H s [] s' [= <-]. apply H. Qed.

Lemma writes_if {A} p (b : bool) (m1 m2 : prog S A) (o1 o2 : list X) :
  writes p m1 o1 → writes p m2 o2 →
  writes p (if b then m1 else m2) (if b then o1 else o2).
Proof. by destruct b. Qed.

Lemma writes_for_each {A} p (xs : list A) (body : A → prog S unit)
    (F : A → list X) :
  (∀ x, x ∈ xs → writes p (body x) (F x)) →
  writes p (for_each xs body) (xs ≫= F).
Proof.
  induction xs as [|x xs IH]; intros Hbody; cbn.
  - apply writes_ret.
  - apply writes_seq; [apply Hbody; by left|].
    intros _. apply IH. intros y Hy. apply Hbody. by right.
Qed.

(** Each iteration appends one element. *)
Lemma writes_for_each_one {A} p (xs : list A) (body : A → prog S unit)
    (G : A → X) :
  (∀ x, x ∈ xs → writes p (body x) [G x]) →
  writes p (for_each xs body) (G <$> xs).
Proof. intros H. rewrite <- bind_fmap_singleton. by apply writes_for_each. Qed.

(** A loop over the image of a list. *)
Lemma writes_for_each_fmap {A A'} p (h : A → A') (xs : list A)
    (body : A' → prog S unit) (F : A → list X) :
  (∀ x, x ∈ xs → writes p (body (h x)) (F x)) →
  writes p (for_each (h <$> xs) body) (xs ≫= F).
Proof.
  induction xs as [|x xs IH]; intros Hbody; cbn.
  - apply writes_ret.
  - apply writes_seq; [apply Hbody; by left|].
    intros _. apply IH. intros y Hy. apply Hbody. by right.
Qed.

Lemma writes_for_each_fmap_one {A A'} p (h : A → A') (xs : list A)
    (body : A' → prog S unit) (G : A → X) :
  (∀ x, x ∈ xs → writes p (body (h x)) [G x]) →
  writes p (for_each (h <$> xs) body) (G <$> xs).
Proof.
  intros H. rewrite <- (bind_fmap_singleton G). by apply writes_for_each_fmap.
Qed.

Lemma writes_for_each_nil {A} p (xs : list A) (body : A → prog S unit) :
  (∀ x, x ∈ xs → writes p (body x) []) → writes p (for_each xs body) [].
Proof.
  intros H. replace (@nil X) with (xs ≫= λ _ : A, @nil X).
  - by apply writes_for_each.
  - induction xs as [|x xs IH]; [done|]. cbn. apply IH.
    intros y Hy. apply H. by right.
Qed.

(** Sequencing is associative, and [mret] is its unit. *)
Lemma writes_assoc {A B C} p (m : prog S A) (f : A → prog S B)
    (k : B → prog S C) (o : list X) :
  writes p (m ≫= λ a, f a ≫= k) o → writes p ((m ≫= f) ≫= k) o.
Proof.
  intros H s c s'. specialize (H s c s'). rewrite !run_bind in *.
  destruct (run m s) as [[a s1]|e]; [|done]. by rewrite run_bind in H.
Qed.

Lemma writes_assoc_rev {A B C} p (m : prog S A) (f : A → prog S B)
    (k : B → prog S C) (o : list X) :
  writes p ((m ≫= f) ≫= k) o → writes p (m ≫= λ a, f a ≫= k) o.
Proof.
  intros H s c s'. specialize (H s c s'). rewrite !run_bind in *.
  destruct (run m s) as [[a s1]|e]; [|done]. by rewrite run_bind.
Qed.

Lemma writes_ret_bind {A B} p (a : A) (k : A → prog S B) (o : list X) :
  writes p (k a) o → writes p (mret a ≫= k) o.
Proof. intros H s b s'. rewrite run_bind. apply H. Qed.

Lemma writes_fold_each_nil {A B} p (xs : list A) (body : B → A → prog S B) :
  (∀ acc x, writes p (body acc x) []) →
  ∀ acc, writes p (fold_each xs acc body) [].
Proof.
  intros H. induction xs as [|x xs IH]; intros acc; cbn.
  - apply writes_ret.
  - apply writes_skip; [apply H | intros acc'; apply IH].
Qed.

Lemma writes_exec {A} p (m : prog S A) (o : list X) (s s' : S) :
  writes p m o → exec m s = Ok s' → p s' = p s ++ o.
Proof.
  intros Hm. unfold exec. destruct (run m s) as [[a s1]|e] eqn:E; [|done].
  intros [= <-]. by eapply Hm.
Qed.

End WritesRules.


Section ConstructorsReturn.
Import XmlGenerators.

Lemma Node_new_inv id x y ty tl n :
  Node_new id x y ty tl = Ok n → n = mkNode id x y ty tl.
Proof. unfold Node_new. repeat case_match; try done. by intros [= <-]. Qed.

Lemma Edge_new_inv id f t l s p e :
  Edge_new id f t l s p = Ok e → e = edge_of id f t l s p.
Proof. unfold Edge_new. repeat case_match; try done. by intros [= <-]. Qed.

Lemma Phase_new_inv d s a b nm ph :
  Phase_new d s a b nm = Ok ph → ph = mkPhase d s a b nm.
Proof. unfold Phase_new. repeat case_match; try done. by intros [= <-]. Qed.

(** What a node statement appends to each list of the network. *)
Lemma node_writes_nodes id x y ty tl :
  writes nodes (lift (Node_new id x y ty tl) ≫= add_node) [mkNode id x y ty tl].
Proof.
  apply writes_lift_bind. intros n ->%Node_new_inv. by apply writes_modify.
Qed.

Lemma node_writes_edges id x y ty tl :
  writes edges (lift (Node_new id x y ty tl) ≫= add_node) [].
Proof.
  apply writes_lift_bind. intros n _. apply writes_modify.
  intros s. cbn. by rewrite app_nil_r.
Qed.

Lemma node_writes_programs id x y ty tl :
  writes traffic_lights (lift (Node_new id x y ty tl) ≫= add_node) [].
Proof.
  apply writes_lift_bind. intros n _. apply writes_modify.
  intros s. cbn. by rewrite app_nil_r.
Qed.

Lemma node_writes_connections id x y ty tl :
  writes connections (lift (Node_new id x y ty tl) ≫= add_node) [].
Proof.
  apply writes_lift_bind. intros n _. apply writes_modify.
  intros s. cbn. by rewrite app_nil_r.
Qed.

Lemma edge_writes_edges id f t l s p :
  writes edges (lift (Edge_new id f t l s p) ≫= add_edge) [edge_of id f t l s p].
Proof.
  apply writes_lift_bind. intros n ->%Edge_new_inv. by apply writes_modify.
Qed.

Lemma edge_writes_nodes id f t l s p :
  writes nodes (lift (Edge_new id f t l s p) ≫= add_edge) [].
Proof.
  apply writes_lift_bind. intros n _. apply writes_modify.
  intros net. cbn. by rewrite app_nil_r.
Qed.

Lemma edge_writes_programs id f t l s p :
  writes traffic_lights (lift (Edge_new id f t l s p) ≫= add_edge) [].
Proof.
  apply writes_lift_bind. intros n _. apply writes_modify.
  intros net. cbn. by rewrite app_nil_r.
Qed.

Lemma edge_writes_connections id f t l s p :
  writes connections (lift (Edge_new id f t l s p) ≫= add_edge) [].
Proof.
  apply writes_lift_bind. intros n _. apply writes_modify.
  intros net. cbn. by rewrite app_nil_r.
Qed.

Lemma program_writes_programs id ty d1 d2 d3 d4 s1 s2 s3 s4 n1 n2 n3 n4 :
  writes traffic_lights
    (p1 ← lift (Phase_new d1 s1 0 0 n1);
     p2 ← lift (Phase_new d2 s2 0 0 n2);
     p3 ← lift (Phase_new d3 s3 0 0 n3);
     p4 ← lift (Phase_new d4 s4 0 0 n4);
     add_traffic_light (TrafficLight_new id [p1; p2; p3; p4] ty))
    [program_of id ty d1 d2 d3 d4 s1 s2 s3 s4 n1 n2 n3 n4].
Proof.
  apply writes_lift_bind. intros p1 ->%Phase_new_inv.
  apply writes_lift_bind. intros p2 ->%Phase_new_inv.
  apply writes_lift_bind. intros p3 ->%Phase_new_inv.
  apply writes_lift_bind. intros p4 ->%Phase_new_inv.
  by apply writes_modify.
Qed.

Lemma program_writes_other {X} (p : NetworkGenerator → list X)
    id ty d1 d2 d3 d4 s1 s2 s3 s4 n1 n2 n3 n4 :
  (∀ net tl, p (mkNetworkGenerator (nodes net) (edges net) (connections net)
                  (traffic_lights net ++ [tl])) = p net) →
  writes p
    (p1 ← lift (Phase_new d1 s1 0 0 n1);
     p2 ← lift (Phase_new d2 s2 0 0 n2);
     p3 ← lift (Phase_new d3 s3 0 0 n3);
     p4 ← lift (Phase_new d4 s4 0 0 n4);
     add_traffic_light (TrafficLight_new id [p1; p2; p3; p4] ty))
    [].
Proof.
  intros Hp. do 4 (apply writes_lift_bind; intros ? _).
  apply writes_modify. intros net. cbn. by rewrite Hp, app_nil_r.
Qed.

End ConstructorsReturn.

(** A statement that leaves the list alone. *)
Ltac writes_nothing :=
  first
    [ apply node_writes_edges
    | apply node_writes_programs | apply node_writes_connections
    | apply edge_writes_nodes
    | apply edge_writes_programs | apply edge_writes_connections
    | apply program_writes_other; reflexivity
    | apply writes_ret
    | apply writes_for_each_nil; intros ? _; writes_nothing
    | apply writes_skip; [writes_nothing | intros ?; writes_nothing]
    | match goal with
      | |- writes _ (if ?b then _ else _) _ => destruct b; writes_nothing
      | |- writes _ (let '(_, _) := ?x in _) _ => destruct x; writes_nothing
      end ].

(** [m ;; k] where [m] appends nothing to the list. *)
Ltac skip_stmt := apply writes_skip; [writes_nothing | intros ?].
(** [m ;; k] where [m] appends the first element of the list asked for. *)
Ltac one_stmt rule :=
  apply writes_cons; [rule | intros ?].
(** [m ;; k] where [k] appends nothing. *)
Ltac last_stmt rule :=
  apply writes_seq_end; [rule | intros ?; writes_nothing].

Section TemplatesInClosedForm.
Import XmlGenerators.
Local Open Scope Z_scope.

Lemma FourWay_writes_nodes self :
  writes nodes (FourWayIntersection.generate_body self)
    (nodes (four_way_network self)).
Proof.
  unfold FourWayIntersection.generate_body.
  cbv beta zeta iota delta [nodes four_way_network].
  do 4 one_stmt ltac:(apply node_writes_nodes).
  last_stmt ltac:(apply node_writes_nodes).
Qed.

Lemma FourWay_writes_edges self :
  writes edges (FourWayIntersection.generate_body self)
    (edges (four_way_network self)).
Proof.
  unfold FourWayIntersection.generate_body.
  cbv beta zeta iota delta [edges four_way_network].
  do 5 skip_stmt.
  last_stmt ltac:(idtac).
  rewrite <- bind_fmap_singleton. apply writes_for_each.
  intros [[id f] t] _. apply edge_writes_edges.
Qed.

Lemma FourWay_writes_programs self :
  writes traffic_lights (FourWayIntersection.generate_body self)
    (traffic_lights (four_way_network self)).
Proof.
  unfold FourWayIntersection.generate_body.
  cbv beta zeta iota delta [traffic_lights four_way_network].
  do 6 skip_stmt. apply program_writes_programs.
Qed.

Lemma FourWay_writes_connections self :
  writes connections (FourWayIntersection.generate_body self) [].
Proof. unfold FourWayIntersection.generate_body. writes_nothing. Qed.


Lemma ThreeWay_writes_nodes self :
  writes nodes (ThreeWayIntersection.generate_body self)
    (nodes (three_way_network self)).
Proof.
  unfold ThreeWayIntersection.generate_body.
  cbv beta zeta iota delta [nodes three_way_network].
  do 3 one_stmt ltac:(apply node_writes_nodes).
  last_stmt ltac:(apply node_writes_nodes).
Qed.

Lemma ThreeWay_writes_edges self :
  writes edges (ThreeWayIntersection.generate_body self)
    (edges (three_way_network self)).
Proof.
  unfold ThreeWayIntersection.generate_body.
  cbv beta zeta iota delta [edges three_way_network].
  do 4 skip_stmt.
  last_stmt ltac:(idtac).
  rewrite <- bind_fmap_singleton. apply writes_for_each.
  intros [[id f] t] _. apply edge_writes_edges.
Qed.

Lemma ThreeWay_writes_programs self :
  writes traffic_lights (ThreeWayIntersection.generate_body self)
    (traffic_lights (three_way_network self)).
Proof.
  unfold ThreeWayIntersection.generate_body.
  cbv beta zeta iota delta [traffic_lights three_way_network].
  do 5 skip_stmt. apply writes_if; [apply program_writes_programs | apply writes_ret].
Qed.

Lemma ThreeWay_writes_connections self :
  writes connections (ThreeWayIntersection.generate_body self) [].
Proof. unfold ThreeWayIntersection.generate_body. writes_nothing. Qed.

Lemma comprehension_fmap {A B} (f : A → result B) (g : A → B) (xs : list A) :
  (∀ x, x ∈ xs → f x = Ok (g x)) → comprehension f xs = Ok (g <$> xs).
Proof.
  induction xs as [|x xs IH]; intros H; cbn; [done|].
  rewrite (H x) by by left. cbn. rewrite IH; [done|].
  intros y Hy. apply H. by right.
Qed.

Lemma enumerate_fmap_seqZ {B} (g : Z → B) (n : Z) :
  enumerate (g <$> seqZ 0 n) = (λ i, (i, g i)) <$> seqZ 0 n.
Proof.
  unfold enumerate. apply list_eq. intros i.
  rewrite list_lookup_imap, !list_lookup_fmap.
  destruct (seqZ 0 n !! i) as [z|] eqn:E; cbn; [|done].
  apply lookup_seqZ in E as [-> _]. do 2 f_equal; lia.
Qed.

(** The angles of the arms, as the first statement computes them. *)
Lemma roundabout_angles `{RT : Runtime} (self : Roundabout.t) angles :
  comprehension
    (λ i, step ← truediv 360 (inject_Z (Roundabout.num_arms self));
          mret (inject_Z i * step)%Q)
    (range (Roundabout.num_arms self)) = Ok angles →
  enumerate angles
  = (λ i, (i, (inject_Z i * (360 / inject_Z (Roundabout.num_arms self)))%Q))
      <$> range (Roundabout.num_arms self).
Proof.
  intros H.
  rewrite (comprehension_fmap _
             (λ i, (inject_Z i * (360 / inject_Z (Roundabout.num_arms self)))%Q))
    in H.
  - injection H as <-. apply enumerate_fmap_seqZ.
  - intros i Hi%elem_of_range. rewrite truediv_ok; [done|].
    intros HK. unfold Qeq in HK. cbn in HK. lia.
Qed.

Lemma Roundabout_writes_nodes `{RT : Runtime} self :
  writes nodes (Roundabout.generate_body self) (nodes (roundabout_network self)).
Proof.
  unfold Roundabout.generate_body.
  cbv beta zeta iota delta [nodes roundabout_network].
  apply writes_lift_bind. intros angles ->%roundabout_angles.
  apply writes_seq.
  { apply writes_for_each_fmap_one. intros i _. apply node_writes_nodes. }
  intros ?. last_stmt ltac:(idtac).
  apply writes_for_each_fmap_one. intros i _. apply node_writes_nodes.
Qed.

Lemma Roundabout_writes_edges `{RT : Runtime} self :
  writes edges (Roundabout.generate_body self) (edges (roundabout_network self)).
Proof.
  unfold Roundabout.generate_body.
  cbv beta zeta iota delta [edges roundabout_network].
  apply writes_lift_bind. intros angles _.
  do 2 skip_stmt.
  apply writes_seq.
  { apply writes_for_each_one. intros i _. apply edge_writes_edges. }
  intros ?. apply writes_for_each. intros i _.
  one_stmt ltac:(apply edge_writes_edges). apply edge_writes_edges.
Qed.

Lemma Roundabout_writes_programs `{RT : Runtime} self :
  writes traffic_lights (Roundabout.generate_body self) [].
Proof.
  unfold Roundabout.generate_body. apply writes_lift_bind. intros angles _.
  writes_nothing.
Qed.

Lemma Roundabout_writes_connections `{RT : Runtime} self :
  writes connections (Roundabout.generate_body self) [].
Proof.
  unfold Roundabout.generate_body. apply writes_lift_bind. intros angles _.
  writes_nothing.
Qed.

Lemma Grid_writes_nodes self :
  writes nodes (GridNetwork.generate_body self) (nodes (grid_network self)).
Proof.
  unfold GridNetwork.generate_body.
  cbv beta zeta iota delta [nodes grid_network].
  last_stmt ltac:(idtac).
  apply writes_for_each. intros row _. apply writes_for_each_one.
  intros col _. apply node_writes_nodes.
Qed.

Lemma Grid_writes_edges self :
  writes edges (GridNetwork.generate_body self) (edges (grid_network self)).
Proof.
  unfold GridNetwork.generate_body.
  cbv beta zeta iota delta [edges grid_network].
  skip_stmt. apply writes_seq.
  { apply writes_for_each. intros row _. apply writes_for_each. intros col _.
    one_stmt ltac:(apply edge_writes_edges). apply edge_writes_edges. }
  intros ?. last_stmt ltac:(idtac).
  apply writes_for_each. intros row _. apply writes_for_each. intros col _.
  one_stmt ltac:(apply edge_writes_edges). apply edge_writes_edges.
Qed.

Lemma Grid_writes_programs self :
  writes traffic_lights (GridNetwork.generate_body self)
    (traffic_lights (grid_network self)).
Proof.
  unfold GridNetwork.generate_body.
  cbv beta zeta iota delta [traffic_lights grid_network].
  do 3 skip_stmt. apply writes_if; [|apply writes_ret].
  apply writes_for_each. intros row _. apply writes_for_each_one.
  intros col _. apply program_writes_programs.
Qed.

Lemma Grid_writes_connections self :
  writes connections (GridNetwork.generate_body self) [].
Proof. unfold GridNetwork.generate_body. writes_nothing. Qed.

Lemma Corridor_writes_nodes self :
  writes nodes (Corridor.generate_body self) (nodes (corridor_network self)).
Proof.
  unfold Corridor.generate_body.
  cbv beta zeta iota delta [nodes corridor_network].
  last_stmt ltac:(idtac).
  apply writes_for_each. intros i _. unfold corridor_nodes.
  apply writes_if; [apply node_writes_nodes|].
  do 2 one_stmt ltac:(apply node_writes_nodes). apply node_writes_nodes.
Qed.

Lemma Corridor_writes_edges self :
  writes edges (Corridor.generate_body self) (edges (corridor_network self)).
Proof.
  unfold Corridor.generate_body.
  cbv beta zeta iota delta [edges corridor_network].
  skip_stmt. apply writes_seq.
  { apply writes_for_each. intros i _.
    one_stmt ltac:(apply edge_writes_edges). apply edge_writes_edges. }
  intros ?. apply writes_for_each. intros i _. unfold corridor_cross_edges.
  do 3 one_stmt ltac:(apply edge_writes_edges).
  last_stmt ltac:(apply edge_writes_edges).
Qed.

Lemma Corridor_writes_programs self :
  writes traffic_lights (Corridor.generate_body self)
    (traffic_lights (corridor_network self)).
Proof.
  unfold Corridor.generate_body.
  cbv beta zeta iota delta [traffic_lights corridor_network].
  do 2 skip_stmt.
  destruct (Corridor.signalized self).
  - apply writes_for_each_one. intros i _. do 4 skip_stmt.
    apply program_writes_programs.
  - writes_nothing.
Qed.

Lemma Corridor_writes_connections self :
  writes connections (Corridor.generate_body self) [].
Proof. unfold Corridor.generate_body. writes_nothing. Qed.

Lemma truediv_inv (a b q : Q) : truediv a b = Ok q → q = (a / b)%Q.
Proof. unfold truediv. case_match; [done|]. by intros [= <-]. Qed.

Lemma Highway_writes_nodes self :
  writes nodes (Highway.generate_body self) (nodes (highway_network self)).
Proof.
  unfold Highway.generate_body.
  cbv beta zeta iota delta [nodes highway_network].
  apply writes_lift_bind. intros spacing ->%truediv_inv.
  do 2 one_stmt ltac:(apply node_writes_nodes).
  apply writes_seq_end.
  - apply writes_for_each. intros i _. unfold highway_nodes.
    do 2 one_stmt ltac:(apply node_writes_nodes). apply node_writes_nodes.
  - intros ?. apply writes_skip.
    + apply writes_fold_each_nil. intros acc i. writes_nothing.
    + intros ?. writes_nothing.
Qed.

(** The carriageway loop threads the previous junction through its
    iterations; the statement after it closes the chain at ["end"]. *)
Lemma Highway_main_writes self (js : list Z) (prev : string) :
  writes edges
    (prev_node ← fold_each js prev (λ prev_node i,
       lift (Edge_new ("hw_" +:+ prev_node +:+ "_" +:+ Highway.junc_ i)
               prev_node (Highway.junc_ i) (Highway.lanes self)
               (kmh_to_ms (Highway.speed_limit self)) 3) ≫= add_edge;;
       mret (Highway.junc_ i));
     lift (Edge_new ("hw_" +:+ prev_node +:+ "_end") prev_node "end"
             (Highway.lanes self) (kmh_to_ms (Highway.speed_limit self)) 3)
       ≫= add_edge)
    (highway_main self prev js).
Proof.
  revert prev. induction js as [|i js IH]; intros prev; cbn [fold_each highway_main].
  - apply writes_ret_bind, edge_writes_edges.
  - do 2 apply writes_assoc.
    one_stmt ltac:(apply edge_writes_edges).
    apply writes_ret_bind, IH.
Qed.

Lemma Highway_writes_edges self :
  writes edges (Highway.generate_body self) (edges (highway_network self)).
Proof.
  unfold Highway.generate_body.
  cbv beta zeta iota delta [edges highway_network].
  apply writes_lift_bind. intros spacing _.
  do 3 skip_stmt. apply writes_assoc_rev, writes_seq.
  - apply Highway_main_writes.
  - intros ?. apply writes_for_each. intros i _.
    one_stmt ltac:(apply edge_writes_edges). apply edge_writes_edges.
Qed.

Lemma Highway_writes_programs self :
  writes traffic_lights (Highway.generate_body self) [].
Proof.
  unfold Highway.generate_body. apply writes_lift_bind. intros spacing _.
  do 3 skip_stmt. apply writes_skip.
  - apply writes_fold_each_nil. intros acc i. writes_nothing.
  - intros ?. writes_nothing.
Qed.

Lemma Highway_writes_connections self :
  writes connections (Highway.generate_body self) [].
Proof.
  unfold Highway.generate_body. apply writes_lift_bind. intros spacing _.
  do 3 skip_stmt. apply writes_skip.
  - apply writes_fold_each_nil. intros acc i. writes_nothing.
  - intros ?. writes_nothing.
Qed.

(** A body that appends these four lists to the empty network returns
    the network made of them. *)
Lemma exec_writes (m : prog NetworkGenerator unit) (expected net : NetworkGenerator) :
  writes nodes m (nodes expected) → writes edges m (edges expected) →
  writes connections m (connections expected) →
  writes traffic_lights m (traffic_lights expected) →
  exec m NetworkGenerator_new = Ok net → net = expected.
Proof.
  intros Hn He Hc Hp Hrun.
  apply (writes_exec _ _ _ _ _ Hn) in Hrun as Hn'.
  apply (writes_exec _ _ _ _ _ He) in Hrun as He'.
  apply (writes_exec _ _ _ _ _ Hc) in Hrun as Hc'.
  apply (writes_exec _ _ _ _ _ Hp) in Hrun as Hp'.
  destruct net, expected. cbn in *. congruence.
Qed.

(** Every template returns, when it returns, the network written in
    closed form. *)
Lemma template_generate_inv `{RT : Runtime} (tpl : template) (net : NetworkGenerator) :
  template_generate tpl = Ok net → net = network_of tpl.
Proof.
  destruct tpl as [self|self|self|self|self|self]; cbn [template_generate];
    apply exec_writes.
  - apply FourWay_writes_nodes.
  - apply FourWay_writes_edges.
  - apply FourWay_writes_connections.
  - apply FourWay_writes_programs.
  - apply ThreeWay_writes_nodes.
  - apply ThreeWay_writes_edges.
  - apply ThreeWay_writes_connections.
  - apply ThreeWay_writes_programs.
  - apply Roundabout_writes_nodes.
  - apply Roundabout_writes_edges.
  - apply Roundabout_writes_connections.
  - apply Roundabout_writes_programs.
  - apply Grid_writes_nodes.
  - apply Grid_writes_edges.
  - apply Grid_writes_connections.
  - apply Grid_writes_programs.
  - apply Corridor_writes_nodes.
  - apply Corridor_writes_edges.
  - apply Corridor_writes_connections.
  - apply Corridor_writes_programs.
  - apply Highway_writes_nodes.
  - apply Highway_writes_edges.
  - apply Highway_writes_connections.
  - apply Highway_writes_programs.
Qed.

Lemma Highway_generate_inv (self : Highway.t) (net : NetworkGenerator) :
  Highway.generate self = Ok net → net = highway_network self.
Proof.
  apply exec_writes.
  - apply Highway_writes_nodes.
  - apply Highway_writes_edges.
  - apply Highway_writes_connections.
  - apply Highway_writes_programs.
Qed.

Lemma ThreeWay_generate_inv (self : ThreeWayIntersection.t) (net : NetworkGenerator) :
  ThreeWayIntersection.generate self = Ok net → net = three_way_network self.
Proof.
  apply exec_writes.
  - apply ThreeWay_writes_nodes.
  - apply ThreeWay_writes_edges.
  - apply ThreeWay_writes_connections.
  - apply ThreeWay_writes_programs.
Qed.

Lemma FourWay_generate_inv (self : FourWayIntersection.t) (net : NetworkGenerator) :
  FourWayIntersection.generate self = Ok net → net = four_way_network self.
Proof.
  apply exec_writes.
  - apply FourWay_writes_nodes.
  - apply FourWay_writes_edges.
  - apply FourWay_writes_connections.
  - apply FourWay_writes_programs.
Qed.

Lemma template_generate_valid `{RT : Runtime} (tpl : template) :
  valid tpl → template_generate tpl = Ok (network_of tpl).
Proof.
  intros [net Hnet]%generate_accepts_valid.
  by rewrite <- (template_generate_inv tpl net Hnet).
Qed.

End TemplatesInClosedForm.

(* ===================================================================== *)
(** * Identifiers built from printed integers                             *)
(* ===================================================================== *)

Section PrintedIntegers.

Lemma append_cons (c : Ascii.ascii) (s t : string) :
  String c s +:+ t = String c (s +:+ t).
Proof. done. Qed.

Lemma append_nil_r (s : string) : s +:+ "" = s.
Proof. induction s as [|c s IH]; [done|]. by rewrite append_cons, IH. Qed.

Lemma append_assoc (s t u : string) : (s +:+ t) +:+ u = s +:+ (t +:+ u).
Proof. induction s as [|c s IH]; [done|]. by rewrite !append_cons, IH. Qed.


Lemma is_num_char_digit (d : N) : is_num_char (pretty_N_char d) = true.
Proof. unfold pretty_N_char. by repeat case_match. Qed.

Lemma numeric_pretty_N_go (x : N) (s : string) :
  numeric s = true → numeric (pretty_N_go x s) = true.
Proof.
  revert s. induction (N.lt_wf_0 x) as [x _ IH]; intros s Hs.
  assert (x = 0 ∨ 0 < x)%N as [->|Hx] by lia.
  - by rewrite pretty_N_go_0.
  - rewrite pretty_N_go_step by done. apply IH.
    + by apply N.div_lt.
    + cbn. by rewrite is_num_char_digit, Hs.
Qed.

Lemma numeric_pretty_N (x : N) : numeric (pretty x) = true.
Proof.
  unfold pretty, pretty_N. case_decide; [done|]. by apply numeric_pretty_N_go.
Qed.

Lemma numeric_pretty (z : Z) : numeric (pretty z) = true.
Proof.
  destruct z as [|p|p]; [done|apply numeric_pretty_N|].
  unfold pretty, pretty_Z. cbn. apply numeric_pretty_N.
Qed.

Lemma numeric_app (s t : string) :
  numeric (s +:+ t) = numeric s && numeric t.
Proof.
  induction s as [|c s IH]; simpl; [done|]. by rewrite IH, andb_assoc.
Qed.

(** Two strings that agree and start with a printed integer agree on the
    integer part, on the character that ends it and on what follows. *)
Lemma split_numeric (s1 s2 t1 t2 : string) (c1 c2 : Ascii.ascii) :
  numeric s1 = true → numeric s2 = true →
  is_num_char c1 = false → is_num_char c2 = false →
  s1 +:+ String c1 t1 = s2 +:+ String c2 t2 → s1 = s2 ∧ c1 = c2 ∧ t1 = t2.
Proof.
  revert s2. induction s1 as [|a s1 IH]; intros [|b s2]; cbn;
    intros H1 H2 Hc1 Hc2 Heq.
  - by injection Heq as -> ->.
  - injection Heq as -> _. apply andb_true_iff in H2 as [H2 _]. congruence.
  - injection Heq as -> _. apply andb_true_iff in H1 as [H1 _]. congruence.
  - injection Heq as -> Heq.
    apply andb_true_iff in H1 as [_ H1]. apply andb_true_iff in H2 as [_ H2].
    destruct (IH s2 H1 H2 Hc1 Hc2 Heq) as (-> & -> & ->). done.
Qed.

(** [prefix ++ pretty i ++ c ++ rest] determines [i] and [rest]. *)
Lemma pretty_then_inj (i j : Z) (c1 c2 : Ascii.ascii) (t1 t2 : string) :
  is_num_char c1 = false → is_num_char c2 = false →
  pretty i +:+ String c1 t1 = pretty j +:+ String c2 t2 →
  i = j ∧ c1 = c2 ∧ t1 = t2.
Proof.
  intros Hc1 Hc2 Heq.
  destruct (split_numeric _ _ _ _ _ _ (numeric_pretty i) (numeric_pretty j)
              Hc1 Hc2 Heq) as (Hp & -> & ->).
  by apply (inj pretty) in Hp as ->.
Qed.

End PrintedIntegers.

(* ===================================================================== *)
(** * What the templates generate                                         *)
(* ===================================================================== *)

Section ListCounting.

Lemma length_bind_const {A B} (f : A → list B) (k : nat) (l : list A) :
  (∀ x, x ∈ l → length (f x) = k) → length (l ≫= f) = (length l * k)%nat.
Proof.
  induction l as [|x l IH]; intros H; [done|].
  rewrite bind_cons, length_app, (H x) by by left. cbn.
  rewrite IH; [done|]. intros y Hy. apply H. by right.
Qed.

Lemma length_range2 (lo hi : Z) : length (range2 lo hi) = Z.to_nat (hi - lo).
Proof. apply length_seqZ. Qed.

End ListCounting.

Section TemplateCounts.
Context `{RT : Runtime}.
Import XmlGenerators.
Local Open Scope Z_scope.

Lemma length_highway_main self prev js :
  length (highway_main self prev js) = S (length js).
Proof.
  revert prev. induction js as [|i js IH]; intros prev; cbn; [done|].
  by rewrite IH.
Qed.

(** The corridor has one node at each end and three at each junction. *)
Lemma range_ends (n : Z) :
  0 ≤ n → range (n + 2) = 0 :: range2 1 (n + 1) ++ [n + 1].
Proof.
  intros Hn. unfold range, range2.
  replace (n + 2 - 0) with (1 + (n + 1)) by lia.
  rewrite seqZ_app by lia. cbn [seqZ].
  replace (n + 1) with (n + 1) at 1 by done.
  rewrite (seqZ_app (0 + 1) n 1) by lia.
  replace (n + 1 - 1) with n by lia.
  replace (0 + 1 + n) with (n + 1) by lia. done.
Qed.

Lemma corridor_nodes_end self i :
  i = 0 ∨ i = Corridor.num_intersections self + 1 →
  length (corridor_nodes self i) = 1%nat.
Proof.
  intros Hi. unfold corridor_nodes.
  destruct (bool_decide (i = 0) || bool_decide (i = _)) eqn:E; [done|].
  apply orb_false_iff in E as [?%bool_decide_eq_false ?%bool_decide_eq_false].
  lia.
Qed.

Lemma corridor_nodes_junction self i :
  1 ≤ i < Corridor.num_intersections self + 1 →
  length (corridor_nodes self i) = 3%nat.
Proof.
  intros Hi. unfold corridor_nodes.
  destruct (bool_decide (i = 0) || bool_decide (i = _)) eqn:E; [|done].
  apply orb_true_iff in E as [?%bool_decide_eq_true|?%bool_decide_eq_true]; lia.
Qed.

Lemma length_corridor_nodes self :
  length (range (Corridor.num_intersections self + 2) ≫= corridor_nodes self)
  = (Z.to_nat (Corridor.num_intersections self + 2)
     + 2 * Z.to_nat (Corridor.num_intersections self))%nat.
Proof.
  set (N := Corridor.num_intersections self).
  destruct (decide (N + 2 ≤ 0)) as [H|H].
  { unfold range. rewrite range2_empty by lia. cbn. lia. }
  destruct (decide (N = -1)) as [->|H1].
  { change (range (-1 + 2)) with [0]. rewrite bind_singleton.
    rewrite corridor_nodes_end by by left. done. }
  rewrite range_ends by lia.
  rewrite bind_cons, bind_app, bind_singleton, !length_app.
  rewrite !corridor_nodes_end by (fold N; lia).
  rewrite (length_bind_const _ 3).
  - rewrite length_range2. lia.
  - intros i Hi%elem_of_range2. apply corridor_nodes_junction. fold N. lia.
Qed.

Lemma network_of_counts (tpl : template) :
  length (nodes (network_of tpl)) = node_count tpl
  ∧ length (edges (network_of tpl)) = edge_count tpl
  ∧ length (traffic_lights (network_of tpl)) = program_count tpl.
Proof.
  destruct tpl as [self|self|self|self|self|self];
    cbn [network_of node_count edge_count program_count].
  - done.
  - split; [done|]. split; [done|]. cbn. by destruct (ThreeWayIntersection.has_signal self).
  - cbn [roundabout_network nodes edges traffic_lights].
    rewrite !length_app, !length_fmap, (length_bind_const _ 2), length_range
      by done.
    split; [lia|]. split; [lia|done].
  - cbn [grid_network nodes edges traffic_lights].
    split; [|split].
    + rewrite (length_bind_const _ (Z.to_nat (GridNetwork.cols self))).
      * by rewrite length_range.
      * intros row _. by rewrite length_fmap, length_range.
    + rewrite length_app.
      rewrite (length_bind_const _ (Z.to_nat (GridNetwork.cols self - 1) * 2)).
      2: { intros row _. rewrite (length_bind_const _ 2) by done.
           by rewrite length_range. }
      rewrite (length_bind_const _ (Z.to_nat (GridNetwork.cols self) * 2)).
      2: { intros row _. rewrite (length_bind_const _ 2) by done.
           by rewrite length_range. }
      rewrite !length_range. lia.
    + destruct (GridNetwork.signalized self); [|done].
      rewrite (length_bind_const _ (Z.to_nat (GridNetwork.cols self - 2))).
      * rewrite length_range2. f_equal. lia.
      * intros row _. rewrite length_fmap, length_range2. lia.
  - cbn [corridor_network nodes edges traffic_lights].
    split; [apply length_corridor_nodes|]. split.
    + rewrite length_app, (length_bind_const _ 2), (length_bind_const _ 4)
        by done.
      rewrite length_range, length_range2. lia.
    + destruct (Corridor.signalized self); [|done].
      rewrite length_fmap, length_range2. lia.
  - cbn [highway_network nodes edges traffic_lights].
    rewrite !length_app, length_highway_main, (length_bind_const _ 3),
      (length_bind_const _ 2) by done.
    rewrite length_range2. cbn. split; [lia|]. split; [lia|done].
Qed.

End TemplateCounts.
(** Membership in a list written out, refuted by the first characters. *)
Ltac not_in_list :=
  let H := fresh in
  intros H; repeat (apply elem_of_cons in H as [H|H]; [discriminate H|]);
  by apply elem_of_nil in H.

Section NodeIds.
Context `{RT : Runtime}.
Import XmlGenerators.
Local Open Scope Z_scope.

Lemma fmap_bind {A B C} (g : B → C) (f : A → list B) (l : list A) :
  g <$> (l ≫= f) = l ≫= (λ x, g <$> f x).
Proof.
  induction l as [|x l IH]; [done|]. by rewrite !bind_cons, fmap_app, IH.
Qed.

Lemma n_inj (r1 c1 r2 c2 : Z) :
  GridNetwork.n_ r1 c1 = GridNetwork.n_ r2 c2 → r1 = r2 ∧ c1 = c2.
Proof.
  unfold GridNetwork.n_. cbn. intros [= H].
  apply pretty_then_inj in H as (-> & _ & H); [|done..].
  by apply (inj pretty) in H as ->.
Qed.

Lemma NoDup_range2 (lo hi : Z) : NoDup (range2 lo hi).
Proof. apply NoDup_seqZ. Qed.

Lemma NoDup_range (n : Z) : NoDup (range n).
Proof. apply NoDup_seqZ. Qed.

Lemma NoDup_prefixed (p : string) (l : list Z) :
  NoDup l → NoDup ((λ i, p +:+ pretty i) <$> l).
Proof.
  intros Hl. apply NoDup_fmap_2_strong; [|done].
  intros i j _ _. apply prefix_pretty_inj.
Qed.

Lemma roundabout_node_ids self :
  Node_id <$> nodes (roundabout_network self)
  = (Roundabout.R <$> range (Roundabout.num_arms self))
    ++ (Roundabout.A <$> range (Roundabout.num_arms self)).
Proof.
  cbn [roundabout_network nodes]. by rewrite fmap_app, <- !list_fmap_compose.
Qed.

Lemma grid_node_ids self :
  Node_id <$> nodes (grid_network self)
  = range (GridNetwork.rows self) ≫= λ row,
      GridNetwork.n_ row <$> range (GridNetwork.cols self).
Proof.
  cbn [grid_network nodes]. rewrite fmap_bind. apply list_bind_ext; [|done].
  intros row. by rewrite <- list_fmap_compose.
Qed.

Lemma corridor_node_ids self :
  Node_id <$> nodes (corridor_network self)
  = range (Corridor.num_intersections self + 2) ≫= λ i,
      if bool_decide (i = 0)
         || bool_decide (i = Corridor.num_intersections self + 1)
      then [Corridor.M i] else [Corridor.M i; Corridor.N i; Corridor.S i].
Proof.
  cbn [corridor_network nodes]. rewrite fmap_bind. apply list_bind_ext; [|done].
  intros i. unfold corridor_nodes. by case_match.
Qed.

Lemma highway_node_ids self :
  Node_id <$> nodes (highway_network self)
  = "start" :: "end"
    :: (range2 1 (Highway.num_ramps self + 1) ≫= λ i,
          [Highway.junc_ i; Highway.on_ramp_ i; Highway.off_ramp_ i]).
Proof.
  cbn [highway_network nodes]. rewrite fmap_app, fmap_bind. done.
Qed.

Lemma network_of_node_ids_NoDup (tpl : template) :
  NoDup (Node_id <$> nodes (network_of tpl)).
Proof.
  destruct tpl as [self|self|self|self|self|self]; cbn [network_of].
  - cbn. refine (bool_decide_unpack _ _). by vm_compute.
  - cbn. refine (bool_decide_unpack _ _). by vm_compute.
  - rewrite roundabout_node_ids. apply NoDup_app. split; [|split].
    + apply (NoDup_prefixed "R"), NoDup_range.
    + intros id (i & -> & _)%list_elem_of_fmap (j & Hj & _)%list_elem_of_fmap.
      discriminate.
    + apply (NoDup_prefixed "A"), NoDup_range.
  - rewrite grid_node_ids. apply NoDup_bind; [| |apply NoDup_range].
    + intros r1 r2 id _ _ (c1 & -> & _)%list_elem_of_fmap
        (c2 & Hc & _)%list_elem_of_fmap.
      by apply n_inj in Hc as [-> _].
    + intros row _. apply NoDup_fmap_2_strong; [|apply NoDup_range].
      intros c1 c2 _ _ Hc. by apply n_inj in Hc as [_ ->].
  - rewrite corridor_node_ids. apply NoDup_bind; [| |apply NoDup_range].
    + intros i j id _ _ Hi Hj.
      assert (Hids : ∀ k, id ∈ (if bool_decide (k = 0)
                     || bool_decide (k = Corridor.num_intersections self + 1)
                   then [Corridor.M k]
                   else [Corridor.M k; Corridor.N k; Corridor.S k]) →
                id = Corridor.M k ∨ id = Corridor.N k ∨ id = Corridor.S k).
      { intros k Hk. case_match.
        - apply list_elem_of_singleton in Hk. by left.
        - repeat (apply elem_of_cons in Hk as [Hk|Hk]; [tauto|]).
          by apply elem_of_nil in Hk. }
      apply Hids in Hi, Hj.
      destruct Hi as [Hi|[Hi|Hi]], Hj as [Hj|[Hj|Hj]]; rewrite Hi in Hj;
        unfold Corridor.M, Corridor.N, Corridor.S in Hj; cbn in Hj;
        first [discriminate | by apply prefix_pretty_inj in Hj].
    + intros i _. case_match.
      * apply NoDup_singleton.
      * repeat (apply NoDup_cons; split; [not_in_list|]). apply NoDup_nil_2.
  - rewrite highway_node_ids.
    assert (Hids : ∀ id, id ∈ (range2 1 (Highway.num_ramps self + 1) ≫= λ i,
                     [Highway.junc_ i; Highway.on_ramp_ i; Highway.off_ramp_ i]) →
              ∃ i, id = Highway.junc_ i ∨ id = Highway.on_ramp_ i
                   ∨ id = Highway.off_ramp_ i).
    { intros id (i & Hid & _)%list_elem_of_bind. exists i.
      repeat (apply elem_of_cons in Hid as [Hid|Hid]; [tauto|]).
      by apply elem_of_nil in Hid. }
    apply NoDup_cons. split.
    { intros [H|(i & [H|[H|H]])%Hids]%elem_of_cons; discriminate H. }
    apply NoDup_cons. split.
    { intros (i & [H|[H|H]])%Hids; discriminate H. }
    apply NoDup_bind; [| |apply NoDup_range2].
    + intros i j id _ _ Hi Hj.
      assert (Hi' : id = Highway.junc_ i ∨ id = Highway.on_ramp_ i
                    ∨ id = Highway.off_ramp_ i).
      { repeat (apply elem_of_cons in Hi as [Hi|Hi]; [tauto|]).
        by apply elem_of_nil in Hi. }
      assert (Hj' : id = Highway.junc_ j ∨ id = Highway.on_ramp_ j
                    ∨ id = Highway.off_ramp_ j).
      { repeat (apply elem_of_cons in Hj as [Hj|Hj]; [tauto|]).
        by apply elem_of_nil in Hj. }
      destruct Hi' as [Hi'|[Hi'|Hi']], Hj' as [Hj'|[Hj'|Hj']]; rewrite Hi' in Hj';
        unfold Highway.junc_, Highway.on_ramp_, Highway.off_ramp_ in Hj';
        cbn in Hj';
        first [discriminate | by apply prefix_pretty_inj in Hj'].
    + intros i _.
      repeat (apply NoDup_cons; split; [not_in_list|]). apply NoDup_nil_2.
Qed.

End NodeIds.
Section SignalisedNodes.
Context `{RT : Runtime}.
Import XmlGenerators.
Local Open Scope Z_scope.

Lemma elem_of_signalised_ids net id :
  id ∈ signalised_ids net
  ↔ ∃ n, n ∈ nodes net ∧ Node_id n = id ∧ node_type n = "traffic_light".
Proof.
  unfold signalised_ids. rewrite list_elem_of_fmap. split.
  - intros (n & -> & [Hty Hn]%list_elem_of_filter). by exists n.
  - intros (n & Hn & <- & Hty). exists n. split; [done|].
    by apply list_elem_of_filter.
Qed.

Lemma grid_node_signalised self row col :
  0 ≤ row < GridNetwork.rows self → 0 ≤ col < GridNetwork.cols self →
  node_type (grid_node self row col) = "traffic_light"
  ↔ GridNetwork.signalized self = true
    ∧ 1 ≤ row < GridNetwork.rows self - 1 ∧ 1 ≤ col < GridNetwork.cols self - 1.
Proof.
  intros Hr Hc. unfold grid_node. cbn [node_type].
  destruct (GridNetwork.signalized self); cbn [negb].
  2: { rewrite orb_true_r. split; [done | by intros [? _]]. }
  rewrite orb_false_r.
  repeat case_bool_decide; cbn; split; try done; try (intros (_ & ? & ?); lia).
  intros _. split; [done | lia].
Qed.

Lemma corridor_nodes_signalised self i n :
  n ∈ corridor_nodes self i →
  node_type n = "traffic_light"
  ↔ Corridor.signalized self = true ∧ n = mkNode (Corridor.M i)
        (inject_Z i * Corridor.spacing self) 0 "traffic_light" ""
    ∧ i ≠ 0 ∧ i ≠ Corridor.num_intersections self + 1.
Proof.
  unfold corridor_nodes. intros Hn.
  destruct (bool_decide (i = 0) || bool_decide (i = _)) eqn:E.
  - apply list_elem_of_singleton in Hn as ->. cbn. split; [done|].
    intros (_ & _ & H0 & HN).
    apply orb_true_iff in E as [?%bool_decide_eq_true|?%bool_decide_eq_true];
      done.
  - apply orb_false_iff in E as [H0%bool_decide_eq_false HN%bool_decide_eq_false].
    repeat (apply elem_of_cons in Hn as [->|Hn]); [..|by apply elem_of_nil in Hn];
      cbn; [|split; [done | by intros (_ & [=] & _)]..].
    destruct (Corridor.signalized self); [done|].
    split; [done | by intros [? _]].
Qed.

Lemma network_of_programs_signalised (tpl : template) (id : string) :
  id ∈ program_ids (network_of tpl) ↔ id ∈ signalised_ids (network_of tpl).
Proof.
  destruct tpl as [self|self|self|self|self|self]; cbn [network_of].
  - done.
  - unfold program_ids, signalised_ids. cbn.
    by destruct (ThreeWayIntersection.has_signal self).
  - rewrite elem_of_signalised_ids. cbn [roundabout_network nodes].
    unfold program_ids. cbn. split; [by intros ?%elem_of_nil|].
    intros (n & [Hn|Hn]%elem_of_app & _ & Hty);
      apply list_elem_of_fmap in Hn as (i & -> & _); discriminate.
  - rewrite elem_of_signalised_ids. unfold program_ids.
    cbn [grid_network nodes traffic_lights]. split.
    + destruct (GridNetwork.signalized self) eqn:Hs; [|by intros ?%elem_of_nil].
      intros (tl & -> & (row & (col & -> & Hc%elem_of_range2)%list_elem_of_fmap
                         & Hr%elem_of_range2)%list_elem_of_bind)%list_elem_of_fmap.
      exists (grid_node self row col). split; [|split; [done|]].
      * apply list_elem_of_bind. exists row. split; [|apply elem_of_range; lia].
        apply list_elem_of_fmap. exists col. split; [done|].
        apply elem_of_range. lia.
      * apply grid_node_signalised; [lia..|]. split; [done | lia].
    + intros (n & (row & (col & -> & Hc%elem_of_range)%list_elem_of_fmap
                   & Hr%elem_of_range)%list_elem_of_bind & <- & Hty).
      apply grid_node_signalised in Hty as (-> & Hr' & Hc'); [|done..].
      apply list_elem_of_fmap. exists (grid_program self row col).
      split; [done|]. apply list_elem_of_bind. exists row.
      split; [|by apply elem_of_range2].
      apply list_elem_of_fmap. exists col. split; [done|].
      by apply elem_of_range2.
  - rewrite elem_of_signalised_ids. unfold program_ids.
    cbn [corridor_network nodes traffic_lights]. split.
    + destruct (Corridor.signalized self) eqn:Hs; [|by intros ?%elem_of_nil].
      intros (tl & -> & (i & -> & Hi%elem_of_range2)%list_elem_of_fmap)%list_elem_of_fmap.
      exists (mkNode (Corridor.M i) (inject_Z i * Corridor.spacing self) 0
                "traffic_light" "").
      split; [|done]. apply list_elem_of_bind. exists i.
      split; [|apply elem_of_range; lia]. unfold corridor_nodes.
      rewrite Hs. repeat case_bool_decide; try lia. cbn. by left.
    + intros (n & (i & Hn & Hi%elem_of_range)%list_elem_of_bind & <- & Hty).
      apply (corridor_nodes_signalised _ _ _ Hn) in Hty as (-> & -> & H0 & HN).
      apply list_elem_of_fmap. exists (corridor_program self i).
      split; [done|]. apply list_elem_of_fmap. exists i. split; [done|].
      apply elem_of_range2. lia.
  - rewrite elem_of_signalised_ids. cbn [highway_network nodes].
    unfold program_ids. cbn [traffic_lights]. split; [by intros ?%elem_of_nil|].
    intros (n & [Hn|Hn]%elem_of_app & _ & Hty).
    + repeat (apply elem_of_cons in Hn as [->|Hn]); [..|by apply elem_of_nil in Hn];
        discriminate.
    + apply list_elem_of_bind in Hn as (i & Hn & _). unfold highway_nodes in Hn.
      repeat (apply elem_of_cons in Hn as [->|Hn]); [..|by apply elem_of_nil in Hn];
        discriminate.
Qed.

End SignalisedNodes.
Section TwoWay.
Context `{RT : Runtime}.
Import XmlGenerators.
Local Open Scope Z_scope.








End TwoWay.

Section HighwayPath.
Context `{RT : Runtime}.
Import XmlGenerators.
Local Open Scope Z_scope.

Lemma highway_main_path self prev js :
  path prev "end" (highway_main self prev js).
Proof.
  revert prev. induction js as [|i js IH]; intros prev; cbn; [done|].
  split; [done | apply IH].
Qed.

Lemma highway_main_to self prev js :
  to_node <$> highway_main self prev js = (Highway.junc_ <$> js) ++ ["end"].
Proof.
  revert prev. induction js as [|i js IH]; intros prev; cbn; [done|].
  by rewrite IH.
Qed.

Lemma highway_main_uniform self prev js e :
  e ∈ highway_main self prev js →
  num_lanes e = Highway.lanes self
  ∧ speed e = kmh_to_ms (Highway.speed_limit self) ∧ priority e = 3.
Proof.
  revert prev. induction js as [|i js IH]; intros prev; cbn.
  - by intros ->%list_elem_of_singleton.
  - intros [->|He]%elem_of_cons; [done | by eapply IH].
Qed.

End HighwayPath.
Section ConstructorChecks.
Import XmlGenerators.
Local Open Scope Z_scope.

Lemma Node_new_checks id x y ty tl n :
  Node_new id x y ty tl = Ok n → node_ok n.
Proof.
  unfold Node_new.
  destruct (truthy id) eqn:Hid; [|done]. cbn [negb].
  case_bool_decide as Hty; [|done]. cbn [negb]. intros [= <-].
  split; [by apply truthy_iff | done].
Qed.

Lemma Edge_new_checks id f t l s p e :
  Edge_new id f t l s p = Ok e → edge_ok e.
Proof.
  unfold Edge_new.
  destruct (truthy id) eqn:Hid; [|done].
  destruct (truthy f) eqn:Hf; [|done].
  destruct (truthy t) eqn:Ht; [|done]. cbn [negb].
  case_bool_decide as Hft; [done|].
  destruct (l <? 1) eqn:Hl; [done|].
  destruct (Qle_bool s 0) eqn:Hs; [done|]. intros [= <-].
  repeat split; cbn; try by apply truthy_iff.
  - done.
  - by apply Z.ltb_ge in Hl.
  - apply positive_iff. unfold positive. by rewrite Hs.
Qed.

Lemma Phase_new_checks d st a b nm ph :
  Phase_new d st a b nm = Ok ph → phase_ok ph.
Proof.
  unfold Phase_new.
  destruct (d <=? 0) eqn:Hd; [done|].
  destruct (truthy st) eqn:Hst; [|done]. cbn [negb].
  destruct (a <? 0) eqn:Ha; [done|].
  destruct (b <? 0) eqn:Hb; [done|].
  destruct ((0 <? b) && (0 <? a) && (b <? a)) eqn:Hab; [done|].
  intros [= <-]. repeat split; cbn.
  - by apply Z.leb_gt in Hd.
  - by apply truthy_iff.
  - by apply Z.ltb_ge in Ha.
  - by apply Z.ltb_ge in Hb.
  - intros (H1 & H2 & H3).
    apply Z.ltb_lt in H1, H2, H3. by rewrite H1, H2, H3 in Hab.
Qed.

Lemma well_formed_new : well_formed NetworkGenerator_new.
Proof. by repeat split. Qed.

Lemma new_node_wf id x y ty tl :
  hoare well_formed (lift (Node_new id x y ty tl) ≫= add_node)
    (λ _, well_formed).
Proof.
  apply hoare_lift_bind. intros n Hn%Node_new_checks. apply hoare_modify.
  intros net (Hnodes & Hedges & Htls). repeat split; [|done..].
  cbn. apply Forall_app. split; [done|]. by apply Forall_singleton.
Qed.

Lemma new_edge_wf id f t l s p :
  hoare well_formed (lift (Edge_new id f t l s p) ≫= add_edge)
    (λ _, well_formed).
Proof.
  apply hoare_lift_bind. intros e He%Edge_new_checks. apply hoare_modify.
  intros net (Hnodes & Hedges & Htls). repeat split; [done| |done].
  cbn. apply Forall_app. split; [done|]. by apply Forall_singleton.
Qed.

Lemma new_program_wf id ty d1 d2 d3 d4 s1 s2 s3 s4 n1 n2 n3 n4 :
  hoare well_formed
    (p1 ← lift (Phase_new d1 s1 0 0 n1);
     p2 ← lift (Phase_new d2 s2 0 0 n2);
     p3 ← lift (Phase_new d3 s3 0 0 n3);
     p4 ← lift (Phase_new d4 s4 0 0 n4);
     add_traffic_light (TrafficLight_new id [p1; p2; p3; p4] ty))
    (λ _, well_formed).
Proof.
  apply hoare_lift_bind. intros p1 H1%Phase_new_checks.
  apply hoare_lift_bind. intros p2 H2%Phase_new_checks.
  apply hoare_lift_bind. intros p3 H3%Phase_new_checks.
  apply hoare_lift_bind. intros p4 H4%Phase_new_checks.
  apply hoare_modify.
  intros net (Hnodes & Hedges & Htls). repeat split; [done..|].
  cbn. apply Forall_app. split; [done|]. apply Forall_singleton. cbn.
  by repeat (apply Forall_cons; split; [done|]).
Qed.

End ConstructorChecks.

Section TemplatesWellFormed.
Import XmlGenerators.
Local Open Scope Z_scope.

Lemma FourWay_body_wf (self : FourWayIntersection.t) :
  hoare well_formed (FourWayIntersection.generate_body self) (λ _, well_formed).
Proof.
  unfold FourWayIntersection.generate_body.
  do 5 hstep ltac:(apply new_node_wf).
  hstep ltac:(apply hoare_for_each).
  { intros [[id f] t] _. apply new_edge_wf. }
  apply new_program_wf.
Qed.

Lemma ThreeWay_body_wf (self : ThreeWayIntersection.t) :
  hoare well_formed (ThreeWayIntersection.generate_body self) (λ _, well_formed).
Proof.
  unfold ThreeWayIntersection.generate_body.
  do 4 hstep ltac:(apply new_node_wf).
  hstep ltac:(apply hoare_for_each).
  { intros [[id f] t] _. apply new_edge_wf. }
  apply hoare_if; intros _; [apply new_program_wf | by apply hoare_ret].
Qed.

Lemma Roundabout_body_wf `{RT : Runtime} (self : Roundabout.t) :
  hoare well_formed (Roundabout.generate_body self) (λ _, well_formed).
Proof.
  unfold Roundabout.generate_body.
  apply hoare_lift_bind. intros angles _.
  do 2 (hstep ltac:(apply hoare_for_each);
        [intros [i angle] _; apply new_node_wf|]).
  hstep ltac:(apply hoare_for_each).
  { intros i _. apply new_edge_wf. }
  apply hoare_for_each. intros i _.
  hstep ltac:(apply new_edge_wf). apply new_edge_wf.
Qed.

Lemma Grid_body_wf (self : GridNetwork.t) :
  hoare well_formed (GridNetwork.generate_body self) (λ _, well_formed).
Proof.
  unfold GridNetwork.generate_body.
  hstep ltac:(apply hoare_for_each).
  { intros row _. apply hoare_for_each. intros col _. apply new_node_wf. }
  do 2 (hstep ltac:(apply hoare_for_each);
        [intros row _; apply hoare_for_each; intros col _;
         hstep ltac:(apply new_edge_wf); apply new_edge_wf|]).
  apply hoare_if; intros _; [|by apply hoare_ret].
  apply hoare_for_each. intros row _. apply hoare_for_each. intros col _.
  apply new_program_wf.
Qed.

Lemma Corridor_body_wf (self : Corridor.t) :
  hoare well_formed (Corridor.generate_body self) (λ _, well_formed).
Proof.
  unfold Corridor.generate_body.
  hstep ltac:(apply hoare_for_each).
  { intros i _. apply hoare_if; intros _; [apply new_node_wf|].
    do 2 hstep ltac:(apply new_node_wf). apply new_node_wf. }
  hstep ltac:(apply hoare_for_each).
  { intros i _. hstep ltac:(apply new_edge_wf). apply new_edge_wf. }
  apply hoare_for_each. intros i _.
  do 4 hstep ltac:(apply new_edge_wf).
  apply hoare_if; intros _; [apply new_program_wf | by apply hoare_ret].
Qed.

Lemma Highway_body_wf (self : Highway.t) :
  hoare well_formed (Highway.generate_body self) (λ _, well_formed).
Proof.
  unfold Highway.generate_body.
  apply hoare_lift_bind. intros ramp_spacing _.
  do 2 hstep ltac:(apply new_node_wf).
  hstep ltac:(apply hoare_for_each).
  { intros i _. do 2 hstep ltac:(apply new_node_wf). apply new_node_wf. }
  eapply hoare_bind.
  { apply (hoare_fold_each (λ _ : string, well_formed)).
    intros prev i _. hstep ltac:(apply new_edge_wf). by apply hoare_ret. }
  intros prev. hstep ltac:(apply new_edge_wf).
  apply hoare_for_each. intros i _.
  hstep ltac:(apply new_edge_wf). apply new_edge_wf.
Qed.

Lemma template_generate_wf `{RT : Runtime} (tpl : template) (net : NetworkGenerator) :
  template_generate tpl = Ok net → well_formed net.
Proof.
  intros Hgen.
  destruct tpl as [self|self|self|self|self|self]; cbn in Hgen;
    (eapply hoare_exec; [|apply well_formed_new|exact Hgen]).
  - apply FourWay_body_wf.
  - apply ThreeWay_body_wf.
  - apply Roundabout_body_wf.
  - apply Grid_body_wf.
  - apply Corridor_body_wf.
  - apply Highway_body_wf.
Qed.

End TemplatesWellFormed.
Section Programs.
Context `{RT : Runtime}.
Import XmlGenerators.
Local Open Scope Z_scope.

Lemma network_of_four_phases (tpl : template) (tl : TrafficLight) :
  tl ∈ traffic_lights (network_of tpl) → length (phases tl) = 4%nat.
Proof.
  destruct tpl as [self|self|self|self|self|self]; cbn [network_of].
  - by intros ->%list_elem_of_singleton.
  - cbn. destruct (ThreeWayIntersection.has_signal self);
      [by intros ->%list_elem_of_singleton | by intros ?%elem_of_nil].
  - by intros ?%elem_of_nil.
  - cbn [grid_network traffic_lights].
    destruct (GridNetwork.signalized self); [|by intros ?%elem_of_nil].
    by intros (row & (col & -> & _)%list_elem_of_fmap & _)%list_elem_of_bind.
  - cbn [corridor_network traffic_lights].
    destruct (Corridor.signalized self); [|by intros ?%elem_of_nil].
    by intros (i & -> & _)%list_elem_of_fmap.
  - by intros ?%elem_of_nil.
Qed.

Lemma network_of_program_ids_NoDup (tpl : template) :
  NoDup (program_ids (network_of tpl)).
Proof.
  unfold program_ids.
  destruct tpl as [self|self|self|self|self|self]; cbn [network_of].
  - apply NoDup_singleton.
  - cbn. destruct (ThreeWayIntersection.has_signal self);
      [apply NoDup_singleton | apply NoDup_nil_2].
  - apply NoDup_nil_2.
  - cbn [grid_network traffic_lights].
    destruct (GridNetwork.signalized self); [|apply NoDup_nil_2].
    rewrite fmap_bind. apply NoDup_bind; [| |apply NoDup_range2].
    + intros r1 r2 id _ _
        (tl1 & -> & (c1 & -> & _)%list_elem_of_fmap)%list_elem_of_fmap
        (tl2 & Hid & (c2 & -> & _)%list_elem_of_fmap)%list_elem_of_fmap.
      cbn in Hid. by apply n_inj in Hid as [-> _].
    + intros row _. rewrite <- list_fmap_compose.
      apply NoDup_fmap_2_strong; [|apply NoDup_range2].
      intros c1 c2 _ _ Hc. cbn in Hc. by apply n_inj in Hc as [_ ->].
  - cbn [corridor_network traffic_lights].
    destruct (Corridor.signalized self); [|apply NoDup_nil_2].
    rewrite <- list_fmap_compose.
    apply (NoDup_prefixed "M"), NoDup_range2.
  - apply NoDup_nil_2.
Qed.

Lemma three_blocks_width (c1 c2 c3 : Ascii.ascii) (a : Z) :
  0 ≤ a →
  Z.of_nat (String.length (blocks3 (String c1 "") (String c2 "") (String c3 "") a))
  = 3 * a.
Proof.
  intros Ha. unfold blocks3. rewrite !length_append, !length_str_mul. lia.
Qed.

Lemma three_way_width (self : ThreeWayIntersection.t) :
  1 ≤ ThreeWayIntersection.lanes_per_arm self →
  all_width (2 * ThreeWayIntersection.lanes_per_arm self * 3)
    (three_way_network self).
Proof.
  intros Hn tl. cbn.
  destruct (ThreeWayIntersection.has_signal self); [|by intros ?%elem_of_nil].
  intros ->%list_elem_of_singleton.
  assert (Hall : state_width (2 * ThreeWayIntersection.lanes_per_arm self * 3)
                   (program_of "C" "static" 30 3 30 3
                      (blocks3 "G" "r" "r" (ThreeWayIntersection.lanes_per_arm self * 2))
                      (blocks3 "y" "r" "r" (ThreeWayIntersection.lanes_per_arm self * 2))
                      (blocks3 "r" "G" "G" (ThreeWayIntersection.lanes_per_arm self * 2))
                      (blocks3 "r" "y" "y" (ThreeWayIntersection.lanes_per_arm self * 2))
                      "" "" "" "")).
  { intros ph Hph. cbn in Hph.
    repeat (apply elem_of_cons in Hph as [->|Hph]); [..|by apply elem_of_nil in Hph];
      cbn [state]; rewrite three_blocks_width by lia; lia. }
  split; [done|].
  intros p q Hp Hq. apply Nat2Z.inj. by rewrite (Hall p), (Hall q).
Qed.

End Programs.
Section EdgeIds.
Context `{RT : Runtime}.
Import XmlGenerators.
Local Open Scope Z_scope.

Lemma append_nil_l (s : string) : "" +:+ s = s.
Proof. done. Qed.

(** [pretty i] followed by the digit 2 and a character that is no digit. *)
Lemma pretty_2_then_inj (i j : Z) (c1 c2 : Ascii.ascii) (t1 t2 : string) :
  is_num_char c1 = false → is_num_char c2 = false →
  pretty i +:+ String (Ascii.ascii_of_nat 50) (String c1 t1) = pretty j +:+ String (Ascii.ascii_of_nat 50) (String c2 t2) →
  i = j ∧ c1 = c2 ∧ t1 = t2.
Proof.
  intros Hc1 Hc2 Heq.
  change (String (Ascii.ascii_of_nat 50) (String c1 t1)) with ("2" +:+ String c1 t1) in Heq.
  change (String (Ascii.ascii_of_nat 50) (String c2 t2)) with ("2" +:+ String c2 t2) in Heq.
  rewrite <- !append_assoc in Heq.
  apply split_numeric in Heq as (Hp & -> & ->); [|
    by rewrite numeric_app, numeric_pretty..|done|done].
  apply app_cancel_r in Hp. by apply (inj pretty) in Hp as ->.
Qed.

Lemma roundabout_edge_ids self :
  Edge_id <$> edges (roundabout_network self)
  = ((λ i, Roundabout.R i +:+ "2"
           +:+ Roundabout.R ((i + 1) `mod` Roundabout.num_arms self))
       <$> range (Roundabout.num_arms self))
    ++ (range (Roundabout.num_arms self) ≫= λ i,
          [Roundabout.A i +:+ "2" +:+ Roundabout.R i;
           Roundabout.R i +:+ "2" +:+ Roundabout.A i]).
Proof.
  cbn [roundabout_network edges].
  by rewrite fmap_app, fmap_bind, <- list_fmap_compose.
Qed.

Lemma roundabout_edge_ids_NoDup self :
  NoDup (Edge_id <$> edges (roundabout_network self)).
Proof.
  rewrite roundabout_edge_ids. apply NoDup_app. split; [|split].
  - apply NoDup_fmap_2_strong; [|apply NoDup_range].
    intros i j _ _ H. unfold Roundabout.R in H.
    rewrite ?append_assoc, ?append_cons, ?append_nil_l in H.
    injection H as H. by apply pretty_2_then_inj in H as [-> _].
  - intros id (i & -> & _)%list_elem_of_fmap (j & Hj & _)%list_elem_of_bind.
    unfold Roundabout.R, Roundabout.A in Hj.
    rewrite ?append_assoc, ?append_cons, ?append_nil_l in Hj.
    repeat (apply elem_of_cons in Hj as [Hj|Hj]); [| |by apply elem_of_nil in Hj].
    + discriminate Hj.
    + injection Hj as Hj. by apply pretty_2_then_inj in Hj as (_ & [=] & _).
  - apply NoDup_bind; [| |apply NoDup_range].
    + intros i j id _ _ Hi Hj. unfold Roundabout.R, Roundabout.A in Hi, Hj.
      rewrite ?append_assoc, ?append_cons, ?append_nil_l in Hi, Hj.
      repeat (apply elem_of_cons in Hi as [Hi|Hi]); [| |by apply elem_of_nil in Hi];
        (repeat (apply elem_of_cons in Hj as [Hj|Hj]);
           [| |by apply elem_of_nil in Hj]);
        rewrite Hi in Hj; first [discriminate Hj | injection Hj as Hj];
        by apply pretty_2_then_inj in Hj as [-> _].
    + intros i _. unfold Roundabout.R, Roundabout.A.
      rewrite ?append_assoc, ?append_cons, ?append_nil_l.
      repeat (apply NoDup_cons; split; [not_in_list|]). apply NoDup_nil_2.
Qed.

Lemma e_inj (r1 c1 r2 c2 : Z) (d1 d2 : string) :
  GridNetwork.e_ r1 c1 d1 = GridNetwork.e_ r2 c2 d2 → r1 = r2 ∧ c1 = c2 ∧ d1 = d2.
Proof.
  unfold GridNetwork.e_. intros H.
  rewrite ?append_assoc, ?append_cons, ?append_nil_l in H.
  injection H as H.
  apply pretty_then_inj in H as (-> & _ & H); [|done..].
  apply pretty_then_inj in H as (-> & _ & H); [|done..].
  done.
Qed.

(** One of the two double loops of the grid: two edges per cell. *)
Lemma elem_of_grid_part self (rs cs : list Z) (d1 d2 : string)
    (f1 t1 f2 t2 : Z → Z → string) (id : string) :
  id ∈ Edge_id <$> (rs ≫= λ row, cs ≫= λ col,
          [grid_edge self row col d1 (f1 row col) (t1 row col);
           grid_edge self row col d2 (f2 row col) (t2 row col)]) →
  ∃ row col d, row ∈ rs ∧ col ∈ cs ∧ (d = d1 ∨ d = d2)
               ∧ id = GridNetwork.e_ row col d.
Proof.
  intros (e & -> & (row & (col & He & Hc)%list_elem_of_bind & Hr)%list_elem_of_bind)%list_elem_of_fmap.
  exists row, col.
  repeat (apply elem_of_cons in He as [->|He]); [| |by apply elem_of_nil in He].
  - exists d1. eauto.
  - exists d2. eauto.
Qed.

Lemma NoDup_grid_part self (rs cs : list Z) (d1 d2 : string)
    (f1 t1 f2 t2 : Z → Z → string) :
  d1 ≠ d2 → NoDup rs → NoDup cs →
  NoDup (Edge_id <$> (rs ≫= λ row, cs ≫= λ col,
           [grid_edge self row col d1 (f1 row col) (t1 row col);
            grid_edge self row col d2 (f2 row col) (t2 row col)])).
Proof.
  intros Hd Hrs Hcs. rewrite fmap_bind. apply NoDup_bind; [| |done].
  - intros r1 r2 id _ _
      (e1 & -> & (c1 & He1 & _)%list_elem_of_bind)%list_elem_of_fmap
      (e2 & Hid & (c2 & He2 & _)%list_elem_of_bind)%list_elem_of_fmap.
    repeat (apply elem_of_cons in He1 as [->|He1]); [| |by apply elem_of_nil in He1];
      (repeat (apply elem_of_cons in He2 as [->|He2]);
         [| |by apply elem_of_nil in He2]);
      cbn in Hid; by apply e_inj in Hid as (-> & _).
  - intros row _. rewrite fmap_bind. apply NoDup_bind; [| |done].
    + intros c1 c2 id _ _ He1 He2. cbn in He1, He2.
      repeat (apply elem_of_cons in He1 as [->|He1]); [| |by apply elem_of_nil in He1];
        (repeat (apply elem_of_cons in He2 as [He2|He2]);
           [| |by apply elem_of_nil in He2]);
        by apply e_inj in He2 as (_ & -> & _).
    + intros col _. cbn. apply NoDup_cons. split; [|apply NoDup_singleton].
      intros H%list_elem_of_singleton. by apply e_inj in H as (_ & _ & ?).
Qed.

Lemma grid_edge_ids_NoDup self :
  NoDup (Edge_id <$> edges (grid_network self)).
Proof.
  cbn [grid_network edges]. rewrite fmap_app. apply NoDup_app.
  split; [|split].
  - apply (NoDup_grid_part self _ _ "EB" "WB"
             (λ row col, GridNetwork.n_ row col)
             (λ row col, GridNetwork.n_ row (col + 1))
             (λ row col, GridNetwork.n_ row (col + 1))
             (λ row col, GridNetwork.n_ row col));
      [done | apply NoDup_range..].
  - intros id H1 H2.
    apply (elem_of_grid_part self _ _ "EB" "WB"
             (λ row col, GridNetwork.n_ row col)
             (λ row col, GridNetwork.n_ row (col + 1))
             (λ row col, GridNetwork.n_ row (col + 1))
             (λ row col, GridNetwork.n_ row col))
      in H1 as (r1 & c1 & d1 & _ & _ & Hd1 & ->).
    apply (elem_of_grid_part self _ _ "NB" "SB"
             (λ row col, GridNetwork.n_ row col)
             (λ row col, GridNetwork.n_ (row + 1) col)
             (λ row col, GridNetwork.n_ (row + 1) col)
             (λ row col, GridNetwork.n_ row col))
      in H2 as (r2 & c2 & d2 & _ & _ & Hd2 & (_ & _ & ->)%e_inj).
    destruct Hd1 as [->| ->], Hd2 as [?|?]; done.
  - apply (NoDup_grid_part self _ _ "NB" "SB"
             (λ row col, GridNetwork.n_ row col)
             (λ row col, GridNetwork.n_ (row + 1) col)
             (λ row col, GridNetwork.n_ (row + 1) col)
             (λ row col, GridNetwork.n_ row col));
      [done | apply NoDup_range..].
Qed.

(** [prefix ++ pretty i ++ "_" ++ suffix] *)
Lemma corridor_id_inj (i j : Z) (s1 s2 : string) :
  pretty i +:+ String (Ascii.ascii_of_nat 95) s1
  = pretty j +:+ String (Ascii.ascii_of_nat 95) s2 → i = j ∧ s1 = s2.
Proof. intros H. by apply pretty_then_inj in H as (-> & _ & ->). Qed.

Lemma corridor_edge_ids_NoDup self :
  NoDup (Edge_id <$> edges (corridor_network self)).
Proof.
  cbn [corridor_network edges]. rewrite fmap_app, !fmap_bind.
  assert (Hmain : ∀ i id, id ∈ Edge_id <$> corridor_main_edges self i →
            ∃ s, id = "main_" +:+ pretty i +:+ String (Ascii.ascii_of_nat 95) s
                 ∧ s ∈ ["EB"; "WB"]).
  { intros i id (e & -> & He)%list_elem_of_fmap. unfold corridor_main_edges in He.
    repeat (apply elem_of_cons in He as [->|He]); [| |by apply elem_of_nil in He];
      eexists; (split; [reflexivity|]); by repeat constructor. }
  assert (Hcross : ∀ i id, id ∈ Edge_id <$> corridor_cross_edges self i →
            ∃ s, id = "cross_" +:+ pretty i +:+ String (Ascii.ascii_of_nat 95) s
                 ∧ s ∈ ["NB"; "NB2"; "SB"; "SB2"]).
  { intros i id (e & -> & He)%list_elem_of_fmap. unfold corridor_cross_edges in He.
    repeat (apply elem_of_cons in He as [->|He]); [..|by apply elem_of_nil in He];
      eexists; (split; [reflexivity|]); by repeat constructor. }
  apply NoDup_app. split; [|split].
  - apply NoDup_bind; [| |apply NoDup_range].
    + intros i j id _ _ (s1 & -> & _)%Hmain (s2 & H & _)%Hmain.
      rewrite ?append_cons, ?append_nil_l in H. injection H as H.
      by apply corridor_id_inj in H as [-> _].
    + intros i _. cbn. apply NoDup_cons. split; [|apply NoDup_singleton].
      intros H%list_elem_of_singleton.
      rewrite ?append_cons, ?append_nil_l in H. injection H as H.
      by apply corridor_id_inj in H as [_ ?].
  - intros id (i & (s1 & -> & _)%Hmain & _)%list_elem_of_bind
      (j & (s2 & H & _)%Hcross & _)%list_elem_of_bind.
    discriminate H.
  - apply NoDup_bind; [| |apply NoDup_range2].
    + intros i j id _ _ (s1 & -> & _)%Hcross (s2 & H & _)%Hcross.
      rewrite ?append_cons, ?append_nil_l in H. injection H as H.
      by apply corridor_id_inj in H as [-> _].
    + intros i _. cbn.
      repeat (apply NoDup_cons; split;
              [intros H; repeat (apply elem_of_cons in H as [H|H];
                 [rewrite ?append_cons, ?append_nil_l in H; injection H as H;
                  by apply corridor_id_inj in H as [_ ?]|]);
               by apply elem_of_nil in H|]).
      apply NoDup_nil_2.
Qed.

(** The ids of the carriageway edges start with the node the edge leaves. *)
Lemma highway_main_ids self prev js id :
  id ∈ Edge_id <$> highway_main self prev js →
  ∃ q tail, q ∈ prev :: (Highway.junc_ <$> js)
            ∧ id = "hw_" +:+ q +:+ String (Ascii.ascii_of_nat 95) tail.
Proof.
  revert prev. induction js as [|i js IH]; intros prev; cbn [highway_main fmap list_fmap].
  - intros ->%list_elem_of_singleton. exists prev, "end".
    split; [by left | done].
  - intros [->|Hid]%elem_of_cons.
    + exists prev, (Highway.junc_ i). split; [by left | done].
    + destruct (IH _ Hid) as (q & tail & Hq & ->). exists q, tail.
      split; [by right | done].
Qed.

Lemma hw_id_junc_inj (prev tail1 tail2 : string) (p k : Z) :
  prev = "start" ∨ prev = Highway.junc_ p →
  "hw_" +:+ prev +:+ String (Ascii.ascii_of_nat 95) tail1
  = "hw_" +:+ Highway.junc_ k +:+ String (Ascii.ascii_of_nat 95) tail2 →
  prev = Highway.junc_ k.
Proof.
  unfold Highway.junc_. intros [-> | ->] H;
    rewrite ?append_assoc, ?append_cons, ?append_nil_l in H.
  - discriminate H.
  - injection H as H. by apply corridor_id_inj in H as [-> _].
Qed.

Lemma highway_main_ids_NoDup self (js : list Z) (prev : string) (p : Z) :
  NoDup js → prev = "start" ∨ (prev = Highway.junc_ p ∧ p ∉ js) →
  NoDup (Edge_id <$> highway_main self prev js).
Proof.
  revert prev p. induction js as [|i js IH]; intros prev p Hjs Hprev;
    cbn [highway_main fmap list_fmap]; [apply NoDup_singleton|].
  apply NoDup_cons in Hjs as [Hi Hjs]. apply NoDup_cons. split.
  - intros (q & tail & Hq & Heq)%highway_main_ids.
    assert (Hq' : ∃ k, q = Highway.junc_ k ∧ k ∈ i :: js).
    { apply elem_of_cons in Hq as [->|(k & -> & Hk)%list_elem_of_fmap].
      - exists i. split; [done | by left].
      - exists k. split; [done | by right]. }
    destruct Hq' as (k & -> & Hk). cbn [Edge_id edge_of] in Heq.
    assert (Hp : prev = "start" ∨ prev = Highway.junc_ p) by tauto.
    pose proof (hw_id_junc_inj _ _ _ _ _ Hp Heq) as Hpk.
    destruct Hprev as [->|[-> Hnot]]; [discriminate Hpk|].
    apply prefix_pretty_inj in Hpk as ->. done.
  - apply (IH _ i); [done|]. right. done.
Qed.

Lemma highway_edge_ids_NoDup self :
  NoDup (Edge_id <$> edges (highway_network self)).
Proof.
  cbn [highway_network edges]. rewrite fmap_app, fmap_bind.
  assert (Hramp : ∀ i id, id ∈ Edge_id <$> highway_ramps self i →
                    id = Highway.on_ramp_ i ∨ id = Highway.off_ramp_ i).
  { intros i id (e & -> & He)%list_elem_of_fmap. unfold highway_ramps in He.
    repeat (apply elem_of_cons in He as [->|He]); [| |by apply elem_of_nil in He];
      tauto. }
  apply NoDup_app. split; [|split].
  - apply (highway_main_ids_NoDup _ _ _ 0); [apply NoDup_range2 | by left].
  - intros id (q & tail & _ & ->)%highway_main_ids
      (i & [H|H]%Hramp & _)%list_elem_of_bind; discriminate H.
  - apply NoDup_bind; [| |apply NoDup_range2].
    + intros i j id _ _ Hi%Hramp Hj%Hramp.
      destruct Hi as [Hi|Hi], Hj as [Hj|Hj]; rewrite Hi in Hj;
        first [discriminate Hj | by apply prefix_pretty_inj in Hj].
    + intros i _. cbn. apply NoDup_cons. split; [|apply NoDup_singleton].
      intros H%list_elem_of_singleton. discriminate H.
Qed.

Lemma network_of_edge_ids_NoDup (tpl : template) :
  NoDup (Edge_id <$> edges (network_of tpl)).
Proof.
  destruct tpl as [self|self|self|self|self|self]; cbn [network_of].
  - cbn. refine (bool_decide_unpack _ _). by vm_compute.
  - cbn. refine (bool_decide_unpack _ _). by vm_compute.
  - apply roundabout_edge_ids_NoDup.
  - apply grid_edge_ids_NoDup.
  - apply corridor_edge_ids_NoDup.
  - apply highway_edge_ids_NoDup.
Qed.

End EdgeIds.
(* ===================================================================== *)
(** * Generated networks: further properties                              *)
(* ===================================================================== *)

Section GeneratedNetworks.
Import XmlGenerators.
Local Open Scope Z_scope.

Lemma kmh_to_ms_pos_inv (kmh : Q) : (0 < kmh_to_ms kmh)%Q → (0 < kmh)%Q.
Proof.
  unfold kmh_to_ms. intros H.
  destruct (Qlt_le_dec 0 kmh) as [|Hle]; [done|]. exfalso.
  assert (kmh / 3.6 <= 0)%Q; [|lra].
  apply Qle_shift_div_r; lra.
Qed.

(** X1.  Each template returns, when it returns, the network written in
    closed form in [network_of]: the nodes, edges and signal programs in
    the order the loops of [generate] create them, and no connection; on
    valid parameters it does return. *)
Theorem generated_network_closed_form `{RT : Runtime} :
  (∀ (tpl : template) (net : NetworkGenerator),
     template_generate tpl = Ok net → net = network_of tpl)
  ∧ (∀ tpl : template, valid tpl → template_generate tpl = Ok (network_of tpl)).
Proof. split; [apply template_generate_inv | apply template_generate_valid]. Qed.

Lemma generated_network_closed_form_witness :
  (∃ net, template_generate (RT := Example.runtime) (Tcorridor example_corridor)
          = Ok net
          ∧ net = network_of (RT := Example.runtime) (Tcorridor example_corridor))
  ∧ valid (Thighway example_highway)
  ∧ template_generate (RT := Example.runtime) (Thighway example_highway)
    = Ok (network_of (RT := Example.runtime) (Thighway example_highway)).
Proof.
  split; [|split].
  - eexists. split; [vm_compute; reflexivity|].
    apply (proj1 (generated_network_closed_form (RT := Example.runtime))
             (Tcorridor example_corridor)).
    reflexivity.
  - repeat split; cbn; lia.
  - apply (proj2 (generated_network_closed_form (RT := Example.runtime))
             (Thighway example_highway)).
    repeat split; cbn; lia.
Defined.

(** X2.  The numbers of nodes, edges and signal programs of a generated
    network are those of [node_count], [edge_count] and [program_count]:
    5, 8 and 1 for the four-way intersection; [2K] nodes and [3K] edges for
    a roundabout of [K] arms; [rows * cols] nodes,
    [2 rows (cols - 1) + 2 (rows - 1) cols] edges and, when signalised,
    [(rows - 2) (cols - 2)] programs for a grid; and so on.  No template
    makes a connection. *)
Theorem generated_counts `{RT : Runtime} (tpl : template) (net : NetworkGenerator) :
  template_generate tpl = Ok net →
  length (nodes net) = node_count tpl
  ∧ length (edges net) = edge_count tpl
  ∧ length (traffic_lights net) = program_count tpl
  ∧ connections net = [].
Proof.
  intros ->%template_generate_inv.
  destruct (network_of_counts tpl) as (Hn & He & Hp).
  repeat split; [done..|]. by destruct tpl.
Qed.

Lemma generated_counts_witness :
  ∃ net, template_generate (RT := Example.runtime) (Tgrid example_grid) = Ok net
         ∧ length (nodes net) = 9%nat ∧ length (edges net) = 24%nat
         ∧ length (traffic_lights net) = 1%nat ∧ connections net = [].
Proof.
  eexists. split; [vm_compute; reflexivity|].
  apply (generated_counts (RT := Example.runtime) (Tgrid example_grid)).
  reflexivity.
Defined.

(** X3.  In a generated network no two nodes share an id, no two edges
    share an id, and no two signal programs share an id. *)
Theorem generated_ids_distinct `{RT : Runtime} (tpl : template)
    (net : NetworkGenerator) :
  template_generate tpl = Ok net →
  NoDup (Node_id <$> nodes net) ∧ NoDup (Edge_id <$> edges net)
  ∧ NoDup (program_ids net).
Proof.
  intros ->%template_generate_inv.
  split; [apply network_of_node_ids_NoDup|].
  split; [apply network_of_edge_ids_NoDup | apply network_of_program_ids_NoDup].
Qed.

Lemma generated_ids_distinct_witness :
  ∃ net, template_generate (RT := Example.runtime) (Tcorridor example_corridor)
         = Ok net
         ∧ length (nodes net) = 17%nat ∧ length (edges net) = 32%nat
         ∧ NoDup (Node_id <$> nodes net) ∧ NoDup (Edge_id <$> edges net)
         ∧ NoDup (program_ids net).
Proof.
  eexists. split; [vm_compute; reflexivity|]. split; [reflexivity|].
  split; [reflexivity|].
  apply (generated_ids_distinct (RT := Example.runtime) (Tcorridor example_corridor)).
  reflexivity.
Defined.

(** X4.  In a generated network the signal programs are those of the nodes
    of type [traffic_light]: an id has a program exactly when it is the id
    of such a node; and every program has four phases. *)
Theorem generated_programs_match_nodes `{RT : Runtime} (tpl : template)
    (net : NetworkGenerator) :
  template_generate tpl = Ok net →
  (∀ id, id ∈ program_ids net ↔ id ∈ signalised_ids net)
  ∧ (∀ tl, tl ∈ traffic_lights net → length (phases tl) = 4%nat).
Proof.
  intros ->%template_generate_inv.
  split; [apply network_of_programs_signalised | apply network_of_four_phases].
Qed.

Lemma generated_programs_match_nodes_witness :
  ∃ net, template_generate (RT := Example.runtime) (Tgrid example_grid) = Ok net
         ∧ program_ids net = ["n1_1"]
         ∧ (∀ id, id ∈ program_ids net ↔ id ∈ signalised_ids net)
         ∧ (∀ tl, tl ∈ traffic_lights net → length (phases tl) = 4%nat).
Proof.
  eexists. split; [vm_compute; reflexivity|]. split; [reflexivity|].
  apply (generated_programs_match_nodes (RT := Example.runtime) (Tgrid example_grid)).
  reflexivity.
Defined.



(** X6.  The main carriageway of a generated highway is a path: its first
    [num_ramps + 1] edges lead from ["start"] through the junctions
    [junc_1], [junc_2], ... in order to ["end"], each edge starting where
    the one before it ends, all with [lanes] lanes and priority 3. *)
Theorem highway_carriageway_is_path (self : Highway.t) (net : NetworkGenerator) :
  Highway.generate self = Ok net →
  let main := take (S (Z.to_nat (Highway.num_ramps self))) (edges net) in
  length main = S (Z.to_nat (Highway.num_ramps self))
  ∧ path "start" "end" main
  ∧ to_node <$> main
    = (Highway.junc_ <$> range2 1 (Highway.num_ramps self + 1)) ++ ["end"]
  ∧ ∀ e, e ∈ main → num_lanes e = Highway.lanes self ∧ priority e = 3.
Proof.
  intros Hgen main.
  apply Highway_generate_inv in Hgen.
  assert (Hmain : main = highway_main self "start"
                           (range2 1 (Highway.num_ramps self + 1))).
  { unfold main. rewrite Hgen. cbn [highway_network edges].
    rewrite take_app_length'; [done|].
    rewrite length_highway_main, length_range2. f_equal. lia. }
  rewrite Hmain. split; [|split; [|split]].
  - rewrite length_highway_main, length_range2. f_equal. lia.
  - apply highway_main_path.
  - apply highway_main_to.
  - intros e He. by destruct (highway_main_uniform _ _ _ _ He) as (? & _ & ?).
Qed.

Lemma highway_carriageway_is_path_witness :
  ∃ net, Highway.generate example_highway = Ok net
         ∧ to_node <$> take 3 (edges net) = ["junc_1"; "junc_2"; "end"]
         ∧ path "start" "end" (take 3 (edges net)).
Proof.
  eexists. split; [vm_compute; reflexivity|]. split; [reflexivity|].
  apply (highway_carriageway_is_path example_highway). reflexivity.
Defined.

End GeneratedNetworks.
Section GeneratedNetworksChecked.
Import XmlGenerators.
Local Open Scope Z_scope.

(** X7.  Every node, edge and phase of a generated network satisfies the
    checks of its constructor: ids and endpoints are non-empty, no edge
    joins a node to itself, every edge has at least one lane and a positive
    speed, every node type is a known one, every phase has a positive
    duration and a non-empty state. *)
Theorem generated_entities_pass_checks `{RT : Runtime} (tpl : template)
    (net : NetworkGenerator) :
  template_generate tpl = Ok net → well_formed net.
Proof. apply template_generate_wf. Qed.

Lemma generated_entities_pass_checks_witness :
  ∃ net, template_generate (RT := Example.runtime) (Troundabout example_roundabout)
         = Ok net
         ∧ length (edges net) = 12%nat ∧ well_formed net.
Proof.
  eexists. split; [vm_compute; reflexivity|]. split; [reflexivity|].
  apply (generated_entities_pass_checks (RT := Example.runtime)
           (Troundabout example_roundabout)).
  reflexivity.
Defined.

(** X8.  The four-way and the T intersection are generated exactly from
    valid parameters: [generate] returns if and only if there is at least
    one lane per arm and the speed limit is positive and, for the four-way
    intersection, the two green times and the yellow time are positive.
    A highway with [num_ramps = -1] raises [ZeroDivisionError] before any
    check. *)
Theorem intersections_generated_iff_valid :
  (∀ self : FourWayIntersection.t,
     (∃ net, FourWayIntersection.generate self = Ok net) ↔ valid (T4way self))
  ∧ (∀ self : ThreeWayIntersection.t,
       (∃ net, ThreeWayIntersection.generate self = Ok net) ↔ valid (T3way self))
  ∧ (∀ self : Highway.t,
       Highway.num_ramps self = -1 →
       Highway.generate self = Raise ZeroDivisionError).
Proof.
  split; [|split].
  - intros self. split.
    + intros [net Hgen].
      assert (well_formed net) as (_ & He & Hp).
      { eapply hoare_exec; [apply FourWay_body_wf|apply well_formed_new|exact Hgen]. }
      apply FourWay_generate_inv in Hgen as ->.
      cbn in He, Hp.
      apply Forall_cons in He as [He _].
      destruct He as (_ & _ & _ & _ & Hl & Hs).
      apply Forall_cons in Hp as [Hp _]. cbn in Hp.
      apply Forall_cons in Hp as [Hd1 Hp]. destruct Hd1 as [Hd1 _].
      apply Forall_cons in Hp as [Hd2 Hp]. destruct Hd2 as [Hd2 _].
      apply Forall_cons in Hp as [Hd3 _]. destruct Hd3 as [Hd3 _].
      cbn in *. repeat split; try done. by apply kmh_to_ms_pos_inv.
    + intros Hv. eapply returns_exec. by apply FourWay_body_returns.
  - intros self. split.
    + intros [net Hgen].
      assert (well_formed net) as (_ & He & _).
      { eapply hoare_exec; [apply ThreeWay_body_wf|apply well_formed_new|exact Hgen]. }
      apply ThreeWay_generate_inv in Hgen as ->.
      cbn in He.
      apply Forall_cons in He as [He _].
      destruct He as (_ & _ & _ & _ & Hl & Hs).
      cbn in *. split; [done | by apply kmh_to_ms_pos_inv].
    + intros Hv. eapply returns_exec. by apply ThreeWay_body_returns.
  - intros self HR. unfold Highway.generate, Highway.generate_body, exec.
    rewrite run_bind, HR. done.
Qed.

Lemma intersections_generated_iff_valid_witness :
  (∃ net, FourWayIntersection.generate example_four_way = Ok net)
  ∧ valid (T4way example_four_way)
  ∧ ¬ valid (T3way (ThreeWayIntersection.mk 200 0 50 true))
  ∧ ¬ (∃ net, ThreeWayIntersection.generate
                (ThreeWayIntersection.mk 200 0 50 true) = Ok net)
  ∧ Highway.generate (Highway.mk 2000 3 100 (-1) 1) = Raise ZeroDivisionError.
Proof.
  split; [|split; [|split; [|split]]].
  - apply (proj1 intersections_generated_iff_valid example_four_way).
    repeat split; cbn; lia.
  - apply (proj1 intersections_generated_iff_valid example_four_way).
    eexists. vm_compute. reflexivity.
  - intros [H _]. cbn in H. lia.
  - intros H.
    apply (proj1 (proj2 intersections_generated_iff_valid)
             (ThreeWayIntersection.mk 200 0 50 true)) in H as [H _].
    cbn in H. lia.
  - apply (proj2 (proj2 intersections_generated_iff_valid)
             (Highway.mk 2000 3 100 (-1) 1)).
    reflexivity.
Defined.

(** X9.  In the program of a generated T intersection every phase has a
    state string of [2 * lanes_per_arm * 3] characters: three approaches
    of [lanes_per_arm] lanes. *)
Theorem three_way_state_width (self : ThreeWayIntersection.t)
    (net : NetworkGenerator) :
  ThreeWayIntersection.generate self = Ok net →
  all_width (2 * ThreeWayIntersection.lanes_per_arm self * 3) net.
Proof.
  intros Hgen.
  assert (well_formed net) as (_ & He & _).
  { eapply hoare_exec; [apply ThreeWay_body_wf|apply well_formed_new|exact Hgen]. }
  apply ThreeWay_generate_inv in Hgen as ->.
  cbn in He. apply Forall_cons in He as [He _].
  destruct He as (_ & _ & _ & _ & Hl & _).
  by apply three_way_width.
Qed.

Lemma three_way_state_width_witness :
  ∃ net, ThreeWayIntersection.generate example_three_way = Ok net
         ∧ traffic_lights net ≠ [] ∧ all_width 12 net.
Proof.
  eexists. split; [vm_compute; reflexivity|]. split; [discriminate|].
  apply (three_way_state_width example_three_way). reflexivity.
Defined.

Lemma nonempty_length {A} (l : list A) : nonempty l = negb (length l =? 0)%nat.
Proof. by destruct l. Qed.



Lemma in_range_valid (c : TemplatesTab.config) :
  TemplatesTab.in_range c → valid (TemplatesTab.template_of c).
Proof.
  destruct c; cbn; intros H; repeat split; try lia;
    (unfold Qlt; cbn; lia).
Qed.

(** X11.  The "Generate Network" button of the templates tab never fails:
    for every position of the sliders the selected template is generated
    and its files are written to [outputs/network.*]. *)
Theorem generate_button_never_fails `{RT : Runtime} (c : TemplatesTab.config)
    (fs : files) :
  TemplatesTab.in_range c →
  ∃ net,
    TemplatesTab.create_network c = Ok net
    ∧ valid (TemplatesTab.template_of c)
    ∧ run (TemplatesTab.generate_button c) fs
      = Ok (tt, network_files net "outputs" "network"
                  (has_programs (TemplatesTab.template_of c)) fs).
Proof.
  intros Hv%in_range_valid. unfold TemplatesTab.generate_button.
  destruct (generate_accepts_valid _ Hv) as [net Hnet].
  exists net. unfold TemplatesTab.create_network. rewrite Hnet.
  split; [done|]. split; [done|].
  rewrite run_bind. cbn [lift run].
  rewrite run_save_all. do 2 f_equal.
  apply template_generate_inv in Hnet as ->.
  unfold written, network_files, has_programs.
  destruct (network_of_counts (TemplatesTab.template_of c)) as (_ & _ & Hp).
  rewrite (nonempty_length (traffic_lights _)), Hp.
  replace (connections (network_of (TemplatesTab.template_of c)))
    with (@nil Connection) by by destruct c.
  done.
Qed.

Lemma generate_button_never_fails_witness :
  ∃ net,
    TemplatesTab.create_network (RT := Example.runtime)
      (TemplatesTab.ConfigGrid 2 3 200 2 50 true) = Ok net
    ∧ valid (TemplatesTab.template_of (TemplatesTab.ConfigGrid 2 3 200 2 50 true))
    ∧ run (TemplatesTab.generate_button (RT := Example.runtime)
             (TemplatesTab.ConfigGrid 2 3 200 2 50 true)) ∅
      = Ok (tt, network_files (RT := Example.runtime) net "outputs" "network"
                  (has_programs (TemplatesTab.template_of
                                   (TemplatesTab.ConfigGrid 2 3 200 2 50 true))) ∅).
Proof.
  apply (generate_button_never_fails (RT := Example.runtime)
           (TemplatesTab.ConfigGrid 2 3 200 2 50 true) ∅).
  repeat split; cbn; lia.
Defined.

End GeneratedNetworksChecked.
Section GeneratedRecords.
Context `{RT : Runtime}.
Import XmlGenerators.
Local Open Scope Z_scope.

Lemma network_of_edges_plain (tpl : template) (e : Edge) :
  e ∈ edges (network_of tpl) →
  edge_type e = "" ∧ allow e = "" ∧ disallow e = "".
Proof.
  destruct tpl as [self|self|self|self|self|self]; cbn [network_of].
  - cbn [four_way_network edges].
    by intros ([[id f] t] & -> & _)%list_elem_of_fmap.
  - cbn [three_way_network edges].
    by intros ([[id f] t] & -> & _)%list_elem_of_fmap.
  - cbn [roundabout_network edges].
    intros [(i & -> & _)%list_elem_of_fmap|(i & He & _)%list_elem_of_bind]%elem_of_app;
      [done|].
    repeat (apply elem_of_cons in He as [->|He]); [done..|by apply elem_of_nil in He].
  - cbn [grid_network edges].
    intros [(r & (c & He & _)%list_elem_of_bind & _)%list_elem_of_bind
           |(r & (c & He & _)%list_elem_of_bind & _)%list_elem_of_bind]%elem_of_app;
      (repeat (apply elem_of_cons in He as [->|He]);
         [done..|by apply elem_of_nil in He]).
  - cbn [corridor_network edges].
    intros [(i & He & _)%list_elem_of_bind|(i & He & _)%list_elem_of_bind]%elem_of_app;
      (repeat (apply elem_of_cons in He as [->|He]);
         [done..|by apply elem_of_nil in He]).
  - cbn [highway_network edges].
    intros [He|(i & He & _)%list_elem_of_bind]%elem_of_app.
    + revert He. generalize "start". generalize (range2 1 (Highway.num_ramps self + 1)).
      intros js. induction js as [|j js IH]; intros prev; cbn.
      * by intros ->%list_elem_of_singleton.
      * intros [->|He]%elem_of_cons; [done | by eapply IH].
    + repeat (apply elem_of_cons in He as [->|He]); [done..|by apply elem_of_nil in He].
Qed.

Lemma network_of_phases_unbounded (tpl : template) (tl : TrafficLight) (ph : Phase) :
  tl ∈ traffic_lights (network_of tpl) → ph ∈ phases tl →
  min_dur ph = 0 ∧ max_dur ph = 0.
Proof.
  assert (Hprog : ∀ id ty d1 d2 d3 d4 s1 s2 s3 s4 n1 n2 n3 n4,
            ph ∈ phases (program_of id ty d1 d2 d3 d4 s1 s2 s3 s4 n1 n2 n3 n4) →
            min_dur ph = 0 ∧ max_dur ph = 0).
  { intros * Hph. cbn in Hph.
    repeat (apply elem_of_cons in Hph as [->|Hph]); [done..|by apply elem_of_nil in Hph]. }
  destruct tpl as [self|self|self|self|self|self]; cbn [network_of].
  - intros ->%list_elem_of_singleton. apply Hprog.
  - cbn. destruct (ThreeWayIntersection.has_signal self);
      [intros ->%list_elem_of_singleton; apply Hprog | by intros ?%elem_of_nil].
  - by intros ?%elem_of_nil.
  - cbn [grid_network traffic_lights].
    destruct (GridNetwork.signalized self); [|by intros ?%elem_of_nil].
    intros (row & (col & -> & _)%list_elem_of_fmap & _)%list_elem_of_bind.
    apply Hprog.
  - cbn [corridor_network traffic_lights].
    destruct (Corridor.signalized self); [|by intros ?%elem_of_nil].
    intros (i & -> & _)%list_elem_of_fmap. apply Hprog.
  - by intros ?%elem_of_nil.
Qed.

(** X26.  The records of a generated network carry no optional attribute:
    every edge is written with exactly [id], [from], [to], [numLanes],
    [speed] and [priority], without [type], [allow] or [disallow], and no
    phase is written with [minDur] or [maxDur]. *)
Theorem generated_records_plain (tpl : template) (net : NetworkGenerator) :
  template_generate tpl = Ok net →
  (∀ e, e ∈ edges net →
     (Edge_to_xml_attrib e).*1
     = ["id"; "from"; "to"; "numLanes"; "speed"; "priority"])
  ∧ (∀ tl ph, tl ∈ traffic_lights net → ph ∈ phases tl →
       ET.dict_get (Phase_to_xml_attrib ph) "minDur" = None
       ∧ ET.dict_get (Phase_to_xml_attrib ph) "maxDur" = None).
Proof.
  intros ->%template_generate_inv. split.
  - intros e (Ht & Ha & Hd)%network_of_edges_plain.
    unfold Edge_to_xml_attrib. by rewrite Ht, Ha, Hd.
  - intros tl ph Htl Hph.
    destruct (network_of_phases_unbounded _ _ _ Htl Hph) as [Hmin Hmax].
    unfold Phase_to_xml_attrib. rewrite Hmin, Hmax. cbn.
    by destruct (truthy (Phase_name ph)).
Qed.

End GeneratedRecords.

Section GeneratedRecordsWitness.
Import XmlGenerators.

Lemma generated_records_plain_witness :
  ∃ net, template_generate (RT := Example.runtime) (T4way example_four_way) = Ok net
         ∧ length (edges net) = 8%nat
         ∧ (∀ e, e ∈ edges net →
              (Edge_to_xml_attrib (RT := Example.runtime) e).*1
              = ["id"; "from"; "to"; "numLanes"; "speed"; "priority"])
         ∧ (∀ tl ph, tl ∈ traffic_lights net → ph ∈ phases tl →
              ET.dict_get (Phase_to_xml_attrib ph) "minDur" = None
              ∧ ET.dict_get (Phase_to_xml_attrib ph) "maxDur" = None).
Proof.
  eexists. split; [vm_compute; reflexivity|]. split; [reflexivity|].
  apply (generated_records_plain (RT := Example.runtime) (T4way example_four_way)).
  reflexivity.
Defined.

End GeneratedRecordsWitness.

(* ===================================================================== *)
(** * Timing calculations: further properties                             *)
(* ===================================================================== *)

Section TimingFacts.
Local Open Scope Q_scope.
Import SignalDesigner XmlGenerators.

Lemma clamp_bounds (x : Q) :
  30 <= Py.max 30 (Py.min x 180) ∧ Py.max 30 (Py.min x 180) <= 180.
Proof.
  destruct (clamp_30_180 x) as (Hlo & Hmid & Hhi).
  destruct (Qlt_le_dec x 30) as [H|H]; [rewrite Hlo; lra|].
  destruct (Qlt_le_dec 180 x) as [H'|H']; [rewrite Hhi; lra|].
  rewrite Hmid; lra.
Qed.

(** A quotient by a number in [(0, 1]] is no smaller than the numerator. *)
Lemma div_by_fraction (a b : Q) : 0 <= a → 0 < b → b <= 1 → a <= a / b.
Proof.
  intros Ha Hb Hb1. apply Qle_shift_div_l; [done|].
  assert (0 <= a * (1 - b)) by (apply Qmult_le_0_compat; lra). lra.
Qed.

Lemma sum_from (l : list Q) (a : Q) : fold_left Qplus l a == a + Py.sum l.
Proof.
  unfold Py.sum. revert a. induction l as [|x l IH]; intros a; cbn; [lra|].
  rewrite (IH (a + x)), (IH (0 + x)). lra.
Qed.

Lemma sum_cons (x : Q) (l : list Q) : Py.sum (x :: l) == x + Py.sum l.
Proof. unfold Py.sum at 1. cbn. rewrite sum_from. lra. Qed.

Lemma sum_nonneg (l : list Q) : (∀ y, y ∈ l → 0 <= y) → 0 <= Py.sum l.
Proof.
  induction l as [|x l IH]; intros H; [by cbn|].
  rewrite sum_cons.
  assert (0 <= x) by (apply H; by left).
  assert (0 <= Py.sum l) by (apply IH; intros y Hy; apply H; by right).
  lra.
Qed.

(** With non-negative terms no term exceeds the sum. *)
Lemma sum_ge_elem (l : list Q) (y : Q) :
  (∀ z, z ∈ l → 0 <= z) → y ∈ l → y <= Py.sum l.
Proof.
  induction l as [|x l IH]; intros H Hy; [by apply elem_of_nil in Hy|].
  rewrite sum_cons.
  assert (0 <= x) by (apply H; by left).
  assert (0 <= Py.sum l) by (apply sum_nonneg; intros z Hz; apply H; by right).
  apply elem_of_cons in Hy as [->|Hy]; [lra|].
  assert (y <= Py.sum l); [|lra].
  apply IH; [|done]. intros z Hz. apply H. by right.
Qed.

Lemma result_bind_ok {A B} (a : A) (f : A → result B) : Ok a ≫= f = f a.
Proof. done. Qed.

Lemma offsets_loop_returns (C v : Q) :
  ¬ v == 0 → ¬ C == 0 → ∀ d offs, ∃ r, offsets_loop d v C offs = Ok r.
Proof.
  intros Hv HC. induction d as [|di d IH]; intros offs; cbn; [by eexists|].
  rewrite truediv_ok by done. cbn. unfold mod_.
  destruct (Qeq_bool C 0) eqn:E; [by apply Qeq_bool_iff in E|]. cbn. apply IH.
Qed.

Lemma kmh_speed_zero (speed : Z) : inject_Z speed / 3.6 == 0 ↔ speed = 0%Z.
Proof.
  split.
  - intros H. destruct (Z.eq_dec speed 0%Z) as [|Hne]; [done|]. exfalso.
    assert (Hs : ¬ inject_Z speed == 0).
    { unfold Qeq. cbn. lia. }
    apply Hs.
    assert (Hd : inject_Z speed == inject_Z speed / 3.6 * 3.6) by (field; lra).
    rewrite Hd, H. lra.
  - intros ->. reflexivity.
Qed.

End TimingFacts.
Section TimingExtras.
Local Open Scope Q_scope.
Import SignalDesigner XmlGenerators.

(** X12.  [calculate_webster_cycle] raises [ValueError] exactly when the
    critical ratios sum to 1 or more, and never divides by zero; below
    saturation it returns Webster's cycle [(1.5 L + 5) / (1 - Y)], which
    for non-negative ratios and lost time is at least [1.5 L + 5] and so
    longer than the lost time. *)
Theorem calculate_webster_cycle_total (ys : list Q) (L : Q) :
  (1 <= Py.sum ys →
   calculate_webster_cycle ys L
   = Raise (ValueError "Sum of critical ratios must be less than 1"))
  ∧ (Py.sum ys < 1 →
     ∃ C, calculate_webster_cycle ys L = Ok C
          ∧ C == (1.5 * L + 5) / (1 - Py.sum ys)
          ∧ (0 <= Py.sum ys → 0 <= L → 1.5 * L + 5 <= C ∧ L < C)).
Proof.
  split; [apply calculate_webster_cycle_oversaturated|].
  intros HY. rewrite calculate_webster_cycle_undersaturated by done.
  eexists. split; [reflexivity|]. split; [reflexivity|].
  intros HY0 HL.
  assert (1.5 * L + 5 <= (1.5 * L + 5) / (1 - Py.sum ys))
    by (apply div_by_fraction; lra).
  split; [done | lra].
Qed.

Lemma calculate_webster_cycle_total_witness :
  (1 <= Py.sum [0.5; 0.5]
   ∧ calculate_webster_cycle [0.5; 0.5] 12
     = Raise (ValueError "Sum of critical ratios must be less than 1"))
  ∧ (Py.sum [0.3; 0.3] < 1
     ∧ ∃ C, calculate_webster_cycle [0.3; 0.3] 6 = Ok C
            ∧ C == (1.5 * 6 + 5) / (1 - Py.sum [0.3; 0.3])
            ∧ (0 <= Py.sum [0.3; 0.3] → 0 <= 6 → 1.5 * 6 + 5 <= C ∧ 6 < C)).
Proof.
  split.
  - split; [discriminate|].
    apply (proj1 (calculate_webster_cycle_total [0.5; 0.5] 12)). discriminate.
  - split; [reflexivity|].
    apply (proj2 (calculate_webster_cycle_total [0.3; 0.3] 6)). reflexivity.
Defined.



(** X14.  Below saturation, with non-negative flow ratios that are not all
    zero and a total lost time below 180 seconds, the cycle of the Webster
    tab is longer than the lost time and every green time lies between 0
    and the effective green time [C - L]. *)
Theorem webster_green_times_bounded (ys : list Q) (L : Q) :
  (∀ y, y ∈ ys → 0 <= y) → 0 < Py.sum ys → Py.sum ys < 1 →
  0 <= L → L < 180 →
  ∃ C gs, webster_timing ys L = Ok (C, gs)
          ∧ L < C ∧ ∀ g, g ∈ gs → 0 <= g ∧ g <= C - L.
Proof.
  intros Hpos HY0 HY1 HL0 HL. unfold webster_timing.
  rewrite truediv_ok by lra. cbn.
  rewrite green_loop_spec by lra. cbn.
  set (raw := (1.5 * L + 5) / (1 - Py.sum ys)).
  set (C := Py.max 30 (Py.min raw 180)).
  eexists _, _. split; [reflexivity|].
  assert (Hraw : 1.5 * L + 5 <= raw) by (apply div_by_fraction; lra).
  assert (HC : L < C).
  { destruct (clamp_30_180 raw) as (Hlo & Hmid & Hhi). fold C in Hlo, Hmid, Hhi.
    destruct (clamp_bounds raw) as [H30 H180]. fold C in H30, H180.
    destruct (Qlt_le_dec 180 raw) as [H|H]; [rewrite Hhi; lra|].
    destruct (Qlt_le_dec raw 30) as [H'|H']; [|rewrite Hmid; lra].
    lra. }
  split; [done|].
  intros g (y & -> & Hy)%list_elem_of_fmap.
  assert (Hy0 : 0 <= y) by by apply Hpos.
  assert (HyY : y <= Py.sum ys) by by apply sum_ge_elem.
  assert (Hr0 : 0 <= y / Py.sum ys) by (apply Qle_shift_div_l; lra).
  assert (Hr1 : y / Py.sum ys <= 1) by (apply Qle_shift_div_r; lra).
  set (r := y / Py.sum ys) in *.
  assert (0 <= r * (C - L)) by (apply Qmult_le_0_compat; lra).
  assert (0 <= (1 - r) * (C - L)) by (apply Qmult_le_0_compat; lra).
  split; lra.
Qed.

Lemma webster_green_times_bounded_witness :
  ∃ C gs, webster_timing [0.3; 0.3] 6 = Ok (C, gs)
          ∧ 6 < C ∧ ∀ g, g ∈ gs → 0 <= g ∧ g <= C - 6.
Proof.
  apply (webster_green_times_bounded [0.3; 0.3] 6).
  - intros y Hy.
    repeat (apply elem_of_cons in Hy as [->|Hy]); [discriminate..|].
    by apply elem_of_nil in Hy.
  - reflexivity.
  - reflexivity.
  - discriminate.
  - reflexivity.
Defined.



(** X16.  The coordination tab with at least one distance returns offsets
    exactly when the speed limit and the common cycle are both non-zero;
    otherwise it raises [ZeroDivisionError].  Without a distance it returns
    the single offset 0. *)
Theorem green_wave_button_returns_iff (common_cycle speed_limit : Z)
    (distances : list Z) :
  green_wave_button common_cycle speed_limit [] = Ok [0]
  ∧ (distances ≠ [] →
     ((∃ offsets, green_wave_button common_cycle speed_limit distances = Ok offsets)
      ↔ speed_limit ≠ 0%Z ∧ common_cycle ≠ 0%Z)
     ∧ (speed_limit = 0%Z ∨ common_cycle = 0%Z →
        green_wave_button common_cycle speed_limit distances
        = Raise ZeroDivisionError)).
Proof.
  split; [unfold green_wave_button; by rewrite truediv_ok by lra|].
  intros Hd. destruct distances as [|d ds]; [done|].
  assert (Hraise : speed_limit = 0%Z ∨ common_cycle = 0%Z →
                   green_wave_button common_cycle speed_limit (d :: ds)
                   = Raise ZeroDivisionError).
  { intros H. unfold green_wave_button. rewrite truediv_ok by lra. cbn.
    destruct (Z.eq_dec speed_limit 0%Z) as [->|Hs].
    - by rewrite truediv_zero.
    - destruct H as [?| ->]; [done|].
      rewrite truediv_ok by by rewrite kmh_speed_zero. cbn.
      unfold mod_. by rewrite (proj2 (Qeq_bool_iff (inject_Z 0) 0)). }
  split; [|done]. split.
  - intros [offs Hrun].
    destruct (Z.eq_dec speed_limit 0%Z) as [Hs|Hs];
      [specialize (Hraise (or_introl Hs)); congruence|].
    destruct (Z.eq_dec common_cycle 0%Z) as [Hc|Hc];
      [specialize (Hraise (or_intror Hc)); congruence|].
    done.
  - intros [Hs Hc]. unfold green_wave_button, green_wave_offsets.
    rewrite truediv_ok, result_bind_ok by lra.
    apply offsets_loop_returns.
    + by rewrite kmh_speed_zero.
    + unfold Qeq. cbn. lia.
Qed.

Lemma green_wave_button_returns_iff_witness :
  (∃ offsets, green_wave_button 90 50 [300; 300]%Z = Ok offsets)
  ∧ green_wave_button 0 50 [300]%Z = Raise ZeroDivisionError.
Proof.
  split.
  - apply (proj1 (proj2 (green_wave_button_returns_iff 90 50 [300; 300]%Z)
                    ltac:(discriminate))).
    split; discriminate.
  - apply (proj2 (proj2 (green_wave_button_returns_iff 0 50 [300]%Z)
                    ltac:(discriminate))).
    by right.
Defined.

End TimingExtras.
Section CapacityExtras.
Local Open Scope Q_scope.
Import CapacityAnalysis.

Lemma approach_capacity_ok (lanes sat green cycle : Z) :
  cycle ≠ 0%Z →
  approach_capacity lanes sat green cycle
  = Ok (inject_Z (lanes * sat) * (inject_Z green / inject_Z cycle)).
Proof.
  intros Hc. unfold approach_capacity. rewrite truediv_ok; [done|].
  unfold Qeq. cbn. lia.
Qed.

Lemma share_le_1 (green cycle : Z) :
  (0 < cycle)%Z → inject_Z green / inject_Z cycle <= 1 ↔ (green ≤ cycle)%Z.
Proof.
  intros Hc.
  assert (HcQ : 0 < inject_Z cycle) by (unfold Qlt; cbn; lia).
  rewrite Zle_Qle. split; intros H.
  - destruct (Qlt_le_dec (inject_Z cycle) (inject_Z green)) as [Hlt|]; [|done].
    exfalso. assert (1 < inject_Z green / inject_Z cycle); [|lra].
    apply Qlt_shift_div_l; lra.
  - apply Qle_shift_div_r; lra.
Qed.

(** X17.  For every setting of the inputs of the capacity tab the analysis
    returns: both approach capacities are positive, the total is their sum,
    and the five level-of-service thresholds are strictly increasing.  The
    green times are not compared with the cycle length: the capacity of an
    approach stays within its saturation flow exactly when its green time
    does not exceed the cycle. *)
Theorem capacity_analysis_in_range
    (num_lanes_ns num_lanes_ew cycle_length green_time_ns green_time_ew
       saturation_flow_per_lane : Z) :
  (1 ≤ num_lanes_ns ≤ 4)%Z → (1 ≤ num_lanes_ew ≤ 4)%Z →
  (30 ≤ cycle_length ≤ 180)%Z →
  (10 ≤ green_time_ns ≤ 120)%Z → (10 ≤ green_time_ew ≤ 120)%Z →
  (1000 ≤ saturation_flow_per_lane ≤ 2200)%Z →
  ∃ capacity_ns capacity_ew total_capacity,
    analyze_button num_lanes_ns num_lanes_ew cycle_length green_time_ns
      green_time_ew saturation_flow_per_lane
    = Ok (capacity_ns, capacity_ew, total_capacity)
    ∧ 0 < capacity_ns ∧ 0 < capacity_ew
    ∧ total_capacity == capacity_ns + capacity_ew
    ∧ (capacity_ns <= inject_Z (num_lanes_ns * saturation_flow_per_lane)
       ↔ (green_time_ns ≤ cycle_length)%Z)
    ∧ increasing (los_thresholds total_capacity).
Proof.
  intros Hns Hew Hc Hgns Hgew Hsat. unfold analyze_button.
  rewrite !approach_capacity_ok by lia. cbn.
  eexists _, _, _. split; [reflexivity|].
  assert (HcQ : 0 < inject_Z cycle_length) by (unfold Qlt; cbn; lia).
  assert (Hk : ∀ lanes : Z, (1 ≤ lanes)%Z →
                 0 < inject_Z (lanes * saturation_flow_per_lane)).
  { intros lanes Hl. unfold Qlt. cbn. nia. }
  assert (Hr : ∀ green : Z, (10 ≤ green)%Z →
                 0 < inject_Z green / inject_Z cycle_length).
  { intros green Hg. apply Qlt_shift_div_l; [done|].
    assert (0 < inject_Z green) by (unfold Qlt; cbn; lia). lra. }
  assert (H1 : 0 < inject_Z (num_lanes_ns * saturation_flow_per_lane)
                   * (inject_Z green_time_ns / inject_Z cycle_length)).
  { apply Qmult_lt_0_compat; [apply Hk | apply Hr]; lia. }
  assert (H2 : 0 < inject_Z (num_lanes_ew * saturation_flow_per_lane)
                   * (inject_Z green_time_ew / inject_Z cycle_length)).
  { apply Qmult_lt_0_compat; [apply Hk | apply Hr]; lia. }
  split; [done|]. split; [done|]. split; [reflexivity|]. split.
  - rewrite <- (share_le_1 green_time_ns cycle_length) by lia.
    specialize (Hk num_lanes_ns ltac:(lia)).
    set (k := inject_Z (num_lanes_ns * saturation_flow_per_lane)) in *.
    set (r := inject_Z green_time_ns / inject_Z cycle_length) in *.
    split; intros H.
    + destruct (Qlt_le_dec 1 r) as [Hlt|]; [|done]. exfalso.
      assert (0 < k * (r - 1)) by (apply Qmult_lt_0_compat; lra). lra.
    + assert (0 <= k * (1 - r)) by (apply Qmult_le_0_compat; lra). lra.
  - unfold los_thresholds.
    set (t := _ + _) in *. assert (0 < t) by (unfold t; lra).
    cbn. repeat split; lra.
Qed.

Lemma capacity_analysis_in_range_witness :
  ∃ capacity_ns capacity_ew total_capacity,
    analyze_button 2 2 30 120 40 1800 = Ok (capacity_ns, capacity_ew, total_capacity)
    ∧ 0 < capacity_ns ∧ 0 < capacity_ew
    ∧ total_capacity == capacity_ns + capacity_ew
    ∧ (capacity_ns <= inject_Z (2 * 1800) ↔ (120 ≤ 30)%Z)
    ∧ increasing (los_thresholds total_capacity).
Proof. apply (capacity_analysis_in_range 2 2 30 120 40 1800); lia. Defined.

End CapacityExtras.

(* ===================================================================== *)
(** * Entities and generators: further properties                         *)
(* ===================================================================== *)

Section Constructors.
Import XmlGenerators.
Local Open Scope Z_scope.

Lemma Phase_new_accepts d st a b nm :
  phase_ok (mkPhase d st a b nm) →
  Phase_new d st a b nm = Ok (mkPhase d st a b nm).
Proof.
  intros (Hd & Hst & Ha & Hb & Hab). cbn in *. unfold Phase_new.
  rewrite (proj2 (Z.leb_gt d 0)) by done.
  rewrite (proj2 (truthy_iff st)) by done. cbn [negb].
  rewrite (proj2 (Z.ltb_ge a 0)), (proj2 (Z.ltb_ge b 0)) by done.
  destruct ((0 <? b) && (0 <? a) && (b <? a)) eqn:E; [|done].
  exfalso. apply Hab.
  apply andb_true_iff in E as [[H1 H2]%andb_true_iff H3].
  by apply Z.ltb_lt in H1, H2, H3.
Qed.

Lemma Node_new_raises id x y ty tl :
  (∃ n, Node_new id x y ty tl = Ok n)
  ∨ ∃ msg, Node_new id x y ty tl = Raise (ValueError msg).
Proof. unfold Node_new. repeat case_match; eauto. Qed.

Lemma Edge_new_raises id f t l s p :
  (∃ e, Edge_new id f t l s p = Ok e)
  ∨ ∃ msg, Edge_new id f t l s p = Raise (ValueError msg).
Proof. unfold Edge_new. repeat case_match; eauto. Qed.

Lemma Phase_new_raises d st a b nm :
  (∃ ph, Phase_new d st a b nm = Ok ph)
  ∨ ∃ msg, Phase_new d st a b nm = Raise (ValueError msg).
Proof. unfold Phase_new. repeat case_match; eauto. Qed.

(** X18.  [Node], [Edge] and [Phase] return exactly the record of their
    arguments, and exactly when it passes the checks of [__post_init__]:
    a non-empty id and a known type for a node; non-empty id and endpoints,
    two different endpoints, at least one lane and a positive speed for an
    edge (its priority is not checked); a positive duration, a non-empty
    state and non-negative duration bounds that are ordered when both are
    positive for a phase.  Otherwise they raise [ValueError]. *)
Theorem constructors_validate :
  (∀ id x y ty tl n,
     Node_new id x y ty tl = Ok n ↔ n = mkNode id x y ty tl ∧ node_ok n)
  ∧ (∀ id f t l s p e,
       Edge_new id f t l s p = Ok e
       ↔ e = mkEdge id f t l s p "" "" "" ∧ edge_ok e)
  ∧ (∀ d st a b nm ph,
       Phase_new d st a b nm = Ok ph ↔ ph = mkPhase d st a b nm ∧ phase_ok ph)
  ∧ (∀ id x y ty tl,
       (∃ n, Node_new id x y ty tl = Ok n)
       ∨ ∃ msg, Node_new id x y ty tl = Raise (ValueError msg))
  ∧ (∀ id f t l s p,
       (∃ e, Edge_new id f t l s p = Ok e)
       ∨ ∃ msg, Edge_new id f t l s p = Raise (ValueError msg))
  ∧ (∀ d st a b nm,
       (∃ ph, Phase_new d st a b nm = Ok ph)
       ∨ ∃ msg, Phase_new d st a b nm = Raise (ValueError msg)).
Proof.
  split; [|split; [|split; [|split; [|split]]]].
  - intros id x y ty tl n. split.
    + intros H. split; [by eapply Node_new_inv | by eapply Node_new_checks].
    + intros [-> [Hid Hty]]. by apply Node_new_ok.
  - intros id f t l s p e. split.
    + intros H. split; [by eapply Edge_new_inv | by eapply Edge_new_checks].
    + intros [-> (? & ? & ? & ? & ? & ?)]. by apply Edge_new_ok.
  - intros d st a b nm ph. split.
    + intros H. split; [by eapply Phase_new_inv | by eapply Phase_new_checks].
    + intros [-> H]. by apply Phase_new_accepts.
  - apply Node_new_raises.
  - apply Edge_new_raises.
  - apply Phase_new_raises.
Qed.

Lemma constructors_validate_witness :
  Edge_new "e" "A" "B" 2 13.89 (-7) = Ok (mkEdge "e" "A" "B" 2 13.89 (-7) "" "" "")
  ∧ Phase_new 30 "GGrr" 10 0 "" = Ok (mkPhase 30 "GGrr" 10 0 "")
  ∧ ¬ Node_new "" 0 0 "priority" "" = Ok (mkNode "" 0 0 "priority" "").
Proof.
  split; [|split].
  - apply (proj1 (proj2 constructors_validate)).
    split; [reflexivity|]. repeat split; cbn; try done.
  - apply (proj1 (proj2 (proj2 constructors_validate))).
    split; [reflexivity|]. repeat split; cbn; try done. lia.
  - intros H. apply (proj1 constructors_validate) in H as [_ [H _]]. done.
Defined.

End Constructors.

Section Records.
Context `{RT : Runtime}.
Import XmlGenerators.

(** X19.  A vehicle record names its route in one way only: with a
    [route] attribute when [route_id] is set, and then without a child;
    otherwise with one [route] child holding the edges joined by spaces
    when there are edges, and with neither when there are none. *)
Theorem vehicle_route_exclusive (v : Vehicle) :
  let e := Vehicle_to_xml_element v in
  (Vehicle_route_id v ≠ "" →
   ET.dict_get (ET.attrib e) "route" = Some (Vehicle_route_id v)
   ∧ ET.children e = [])
  ∧ (Vehicle_route_id v = "" →
     ET.dict_get (ET.attrib e) "route" = None
     ∧ ET.children e
       = if nonempty (route_edges v)
         then [ET.Elem "route" [("edges", join " " (route_edges v))] []]
         else []).
Proof.
  unfold Vehicle_to_xml_element. split.
  - intros Hr%truthy_iff. rewrite Hr. done.
  - intros Hr%truthy_false_iff. rewrite Hr.
    by destruct (route_edges v).
Qed.

End Records.
Section RecordsWitness.
Import XmlGenerators.

Lemma vehicle_route_exclusive_witness :
  let v := mkVehicle "v0" "" ["N2C"; "C2S"] "car" "0" "best" "max" in
  let e := Vehicle_to_xml_element v in
  ET.dict_get (ET.attrib e) "route" = None
  ∧ ET.children e = [ET.Elem "route" [("edges", "N2C C2S")] []].
Proof.
  apply (proj2 (vehicle_route_exclusive
                  (mkVehicle "v0" "" ["N2C"; "C2S"] "car" "0" "best" "max"))).
  reflexivity.
Defined.

End RecordsWitness.

Section Generators.
Context `{RT : Runtime}.
Import XmlGenerators.

Lemma route_calls_return (cs : list route_call) :
  returns (for_each cs route_call_run) (λ _, True).
Proof.
  apply returns_for_each. intros c _. destruct c; apply returns_modify.
Qed.

Lemma route_calls_write_vehicle_types (cs : list route_call) :
  writes vehicle_types (for_each cs route_call_run) (vehicle_types_of cs).
Proof.
  apply writes_for_each. intros c _.
  destruct c; apply writes_modify; intros g; cbn; by rewrite ?app_nil_r.
Qed.

Lemma route_calls_write_routes (cs : list route_call) :
  writes routes (for_each cs route_call_run) (routes_of cs).
Proof.
  apply writes_for_each. intros c _.
  destruct c; apply writes_modify; intros g; cbn; by rewrite ?app_nil_r.
Qed.

Lemma route_calls_write_vehicles (cs : list route_call) :
  writes vehicles (for_each cs route_call_run) (vehicles_of cs).
Proof.
  apply writes_for_each. intros c _.
  destruct c; apply writes_modify; intros g; cbn; by rewrite ?app_nil_r.
Qed.

Lemma route_calls_write_flows (cs : list route_call) :
  writes flows (for_each cs route_call_run) (flows_of cs).
Proof.
  apply writes_for_each. intros c _.
  destruct c; apply writes_modify; intros g; cbn; by rewrite ?app_nil_r.
Qed.

Lemma children_route_xml (g : RouteGenerator) :
  ET.children (RouteGenerator_generate_xml g)
  = (VehicleType_to_xml_element <$> vehicle_types g)
    ++ (Route_to_xml_element <$> routes g)
    ++ (Vehicle_to_xml_element <$> vehicles g)
    ++ (Flow_to_xml_element <$> flows g).
Proof.
  unfold RouteGenerator_generate_xml.
  rewrite (children_fold_append Flow_to_xml_element),
    (children_fold_append Vehicle_to_xml_element),
    (children_fold_append Route_to_xml_element),
    (children_fold_append VehicleType_to_xml_element).
  cbn. by rewrite <- !app_assoc.
Qed.

(** X20.  Whatever the order of the calls of [add_vehicle_type],
    [add_route], [add_vehicle] and [add_flow] on a new [RouteGenerator],
    the route file lists all vehicle types first, then the routes, then the
    vehicles, then the flows, each kind in call order; no call raises. *)
Theorem route_file_groups_by_kind (cs : list route_call) :
  ∃ g, exec (for_each cs route_call_run) RouteGenerator_new = Ok g
       ∧ ET.tag (RouteGenerator_generate_xml g) = "routes"
       ∧ ET.children (RouteGenerator_generate_xml g)
         = (VehicleType_to_xml_element <$> vehicle_types_of cs)
           ++ (Route_to_xml_element <$> routes_of cs)
           ++ (Vehicle_to_xml_element <$> vehicles_of cs)
           ++ (Flow_to_xml_element <$> flows_of cs).
Proof.
  destruct (returns_exec _ _ RouteGenerator_new (route_calls_return cs))
    as [g Hg].
  exists g. split; [done|]. split.
  - unfold RouteGenerator_generate_xml.
    generalize (vehicle_types g), (routes g), (vehicles g), (flows g).
    intros l1 l2 l3 l4.
    assert (Htag : ∀ {A} (f : A → ET.Element) (l : list A) root,
              ET.tag (fold_left (λ r x, ET.append r (f x)) l root) = ET.tag root).
    { intros A f l. induction l as [|x l IH]; intros root; cbn; [done|].
      rewrite IH. by destruct root. }
    by rewrite !Htag.
  - rewrite children_route_xml.
    rewrite (writes_exec _ _ _ _ _ (route_calls_write_vehicle_types cs) Hg),
      (writes_exec _ _ _ _ _ (route_calls_write_routes cs) Hg),
      (writes_exec _ _ _ _ _ (route_calls_write_vehicles cs) Hg),
      (writes_exec _ _ _ _ _ (route_calls_write_flows cs) Hg).
    done.
Qed.

End Generators.
Section ConfigFile.
Context `{RT : Runtime}.
Import XmlGenerators.

(** X21.  A configuration file always has the four sections [input],
    [time], [output] and [processing] in this order; the [time] section
    always holds [begin], [end] and [step-length]; the [output] section
    holds one element for each output option that is set, in the fixed
    order of [output_settings], and none for an option left empty.
    [set_outputs] replaces all six options: an option set by an earlier
    call and not repeated is lost. *)
Theorem config_file_sections (c : ConfigGenerator) :
  (∃ input time output processing,
     ET.children (ConfigGenerator_generate_xml c)
     = [input; time; output; processing]
     ∧ ET.tag input = "input" ∧ ET.tag time = "time"
     ∧ ET.tag output = "output" ∧ ET.tag processing = "processing"
     ∧ ET.children time
       = value_element <$> [("begin", str_float (Config_begin c));
                            ("end", str_float (Config_end c));
                            ("step-length", str_float (step_length c))]
     ∧ ET.children output
       = value_element <$> filter (λ kv, kv.2 ≠ "") (output_settings c))
  ∧ ∀ t1 f1 e1 s1 q1 st1 t2 f2 e2 s2 q2 st2,
      exec (set_outputs t1 f1 e1 s1 q1 st1 ;; set_outputs t2 f2 e2 s2 q2 st2) c
      = exec (set_outputs t2 f2 e2 s2 q2 st2) c.
Proof.
  split; [|done].
  unfold ConfigGenerator_generate_xml, output_settings.
  eexists _, _, _, _. split; [reflexivity|].
  split.
  { by destruct (net_file c), (route_files c), (additional_files c). }
  split; [done|]. split.
  { by destruct (tripinfo_output c), (fcd_output c), (emission_output c),
       (summary_output c), (queue_output c), (statistic_output c). }
  split.
  { by destruct (ignore_route_errors c). }
  split; [done|].
  by destruct (tripinfo_output c), (fcd_output c), (emission_output c),
     (summary_output c), (queue_output c), (statistic_output c).
Qed.

End ConfigFile.

Section AdditionalFile.
Context `{RT : Runtime}.
Import XmlGenerators.

Lemma additional_calls_return (cs : list additional_call) :
  returns (for_each cs additional_call_run) (λ _, True).
Proof.
  apply returns_for_each. intros c _. destruct c; apply returns_modify.
Qed.

Lemma children_additional_xml (g : AdditionalGenerator) :
  ET.children (AdditionalGenerator_generate_xml g) = elements g.
Proof.
  unfold AdditionalGenerator_generate_xml.
  rewrite (children_fold_append id). cbn. by rewrite list_fmap_id.
Qed.

(** The element a call appends. *)
Lemma additional_call_writes (c : additional_call) :
  ∃ elem, writes elements (additional_call_run c) [elem]
          ∧ ET.tag elem = additional_call_tag c
          ∧ ET.dict_get (ET.attrib elem) "id" = Some (additional_call_id c).
Proof.
  destruct c; cbn.
  - eexists. split; [by apply writes_modify|]. done.
  - eexists. split; [by apply writes_modify|]. by destruct (positive endPos).
  - eexists. split; [by apply writes_modify|]. by destruct (truthy name).
  - eexists. split; [by apply writes_modify|]. done.
Qed.

Lemma additional_calls_write (cs : list additional_call) :
  ∃ elems, writes elements (for_each cs additional_call_run) elems
           ∧ ET.tag <$> elems = additional_call_tag <$> cs
           ∧ (λ e, ET.dict_get (ET.attrib e) "id") <$> elems
             = (λ c, Some (additional_call_id c)) <$> cs.
Proof.
  induction cs as [|c cs (elems & Hw & Htag & Hid)].
  - exists []. split; [apply writes_ret | done].
  - destruct (additional_call_writes c) as (elem & Hw1 & Htag1 & Hid1).
    exists (elem :: elems). split; [|split].
    + cbn [for_each]. apply writes_cons; [done | by intros ?].
    + cbn. by rewrite Htag1, Htag.
    + cbn. by rewrite Hid1, Hid.
Qed.

(** X22.  An additional file lists what was added in call order: one
    element per call of an [add_] method, with the tag of the method and
    the id given.  A lane area detector carries [endPos] only when the
    argument is positive, so not at its default [-1]. *)
Theorem additional_file_in_call_order (cs : list additional_call) :
  (∃ g, exec (for_each cs additional_call_run) AdditionalGenerator_new = Ok g
        ∧ ET.tag <$> ET.children (AdditionalGenerator_generate_xml g)
          = additional_call_tag <$> cs
        ∧ (λ e, ET.dict_get (ET.attrib e) "id")
            <$> ET.children (AdditionalGenerator_generate_xml g)
          = (λ c, Some (additional_call_id c)) <$> cs)
  ∧ ∀ id lane pos endPos period file,
      ∃ elem,
        exec (add_lane_area_detector id lane pos endPos period file)
          AdditionalGenerator_new = Ok (mkAdditionalGenerator [elem])
        ∧ ET.dict_get (ET.attrib elem) "endPos"
          = if positive endPos then Some (str_float endPos) else None.
Proof.
  split.
  - destruct (returns_exec _ _ AdditionalGenerator_new (additional_calls_return cs))
      as [g Hg].
    destruct (additional_calls_write cs) as (elems & Hw & Htag & Hid).
    exists g. split; [done|]. rewrite children_additional_xml.
    by rewrite (writes_exec _ _ _ _ _ Hw Hg).
  - intros id lane pos endPos period file. eexists. split; [reflexivity|].
    by destruct (positive endPos).
Qed.

End AdditionalFile.
Section SavedText.
Context `{RT : Runtime}.
Import XmlGenerators.

Lemma rev_app_shift (s t u : string) :
  String.rev_app s t +:+ u = String.rev_app s (t +:+ u).
Proof.
  revert t. induction s as [|c s IH]; intros t; cbn [String.rev_app]; [done|].
  by rewrite IH, append_cons.
Qed.

Lemma rev_app_append (s t : string) :
  String.rev_app s t = String.rev s +:+ t.
Proof. unfold String.rev. by rewrite rev_app_shift. Qed.

Lemma rev_cons (c : Ascii.ascii) (s : string) :
  String.rev (String c s) = String.rev s +:+ String c "".
Proof. unfold String.rev at 1. cbn. apply rev_app_append. Qed.

(** Splitting a line that has no newline, followed or not by a newline
    and more text. *)
Lemma split_line_then (line rest cur : string) :
  one_line line = true →
  split_newline_go cur (line +:+ String newline rest)
  = (String.rev cur +:+ line) :: split_newline_go "" rest.
Proof.
  revert cur. induction line as [|c line IH]; intros cur Hl.
  - change ("" +:+ String newline rest) with (String newline rest).
    cbn [split_newline_go]. rewrite decide_True by done. by rewrite append_nil_r.
  - rewrite append_cons. cbn [split_newline_go]. cbn in Hl. apply andb_true_iff in Hl as [Hc Hl].
    apply negb_true_iff, bool_decide_eq_false in Hc.
    rewrite decide_False by done. rewrite IH by done.
    by rewrite rev_cons, append_assoc, append_cons.
Qed.

Lemma split_line_last (line cur : string) :
  one_line line = true →
  split_newline_go cur line = [String.rev cur +:+ line].
Proof.
  revert cur. induction line as [|c line IH]; intros cur Hl;
    cbn [split_newline_go].
  - by rewrite append_nil_r.
  - cbn in Hl. apply andb_true_iff in Hl as [Hc Hl].
    apply negb_true_iff, bool_decide_eq_false in Hc.
    rewrite decide_False by done. rewrite IH by done.
    by rewrite rev_cons, append_assoc, append_cons.
Qed.

(** Joining lines and splitting again gives the lines back. *)
Lemma split_join (lines : list string) :
  lines ≠ [] → Forall (λ l, one_line l = true) lines →
  split_newline (join_newline lines) = lines.
Proof.
  unfold split_newline.
  induction lines as [|l lines IH]; intros Hne Hall; [done|].
  apply Forall_cons in Hall as [Hl Hall].
  destruct lines as [|l' lines].
  - cbn. by rewrite split_line_last.
  - change (join_newline (l :: l' :: lines))
      with (l +:+ String newline (join_newline (l' :: lines))).
    rewrite split_line_then by done. cbn [String.rev String.rev_app].
    rewrite IH by done. done.
Qed.

(** The pieces of a split have no newline. *)
Lemma split_one_line (s cur : string) :
  one_line (String.rev cur) = true →
  Forall (λ l, one_line l = true) (split_newline_go cur s).
Proof.
  revert cur. induction s as [|c s IH]; intros cur Hcur; cbn.
  - by apply Forall_singleton.
  - case_decide as Hc.
    + apply Forall_cons. split; [done|]. by apply IH.
    + apply IH. rewrite rev_cons.
      clear IH. induction (String.rev cur) as [|a r IHr].
      * change ("" +:+ String c "") with (String c ""). cbn [one_line].
        by rewrite bool_decide_eq_false_2 by done.
      * rewrite append_cons. cbn [one_line] in *.
        apply andb_true_iff in Hcur as [Ha Hr].
        rewrite Ha. cbn [andb]. by apply IHr.
Qed.

End SavedText.

Section SavedTextExtra.
Context `{RT : Runtime}.
Import XmlGenerators.

Lemma filter_idem {A} (P : A → Prop) `{!∀ x, Decision (P x)} (l : list A) :
  filter P (filter P l) = filter P l.
Proof.
  induction l as [|x l IH]; [done|].
  rewrite filter_cons. case_decide; [|done].
  by rewrite filter_cons_True, IH.
Qed.

(** X23.  [XMLGenerator.save] drops the blank lines of the pretty-printed
    text and nothing else: the lines of the saved text are exactly the
    non-blank lines of the pretty-printed text, in order, and saving the
    saved text again would not change it. *)
Theorem saved_text_has_no_blank_line (elem : ET.Element) :
  let lines := filter (λ line, strip_nonempty line = true)
                 (split_newline (prettify elem)) in
  (lines = [] → file_text elem = "")
  ∧ (lines ≠ [] →
     split_newline (file_text elem) = lines
     ∧ Forall (λ line, strip_nonempty line = true)
         (split_newline (file_text elem)))
  ∧ join_newline (filter (λ line, strip_nonempty line = true)
                    (split_newline (file_text elem)))
    = file_text elem.
Proof.
  intros lines.
  assert (Hlines : Forall (λ l, one_line l = true) lines).
  { apply Forall_forall. intros l [_ Hl]%list_elem_of_filter.
    revert l Hl. apply Forall_forall. by apply split_one_line. }
  assert (Hnb : Forall (λ l, strip_nonempty l = true) lines).
  { apply Forall_forall. by intros l [Hl _]%list_elem_of_filter. }
  assert (Hsplit : lines ≠ [] → split_newline (file_text elem) = lines).
  { intros Hne. unfold file_text. fold lines. by apply split_join. }
  split; [|split].
  - intros Hl. unfold file_text. fold lines. by rewrite Hl.
  - intros Hne. rewrite Hsplit by done. done.
  - destruct (decide (lines = [])) as [Hl|Hne].
    + unfold file_text. fold lines. by rewrite Hl.
    + rewrite Hsplit by done. unfold lines at 1.
      rewrite filter_idem. done.
Qed.

End SavedTextExtra.

Section SavedTextWitness.
Import XmlGenerators.

Lemma saved_text_has_no_blank_line_witness :
  let elem := ET.Elem "nodes" [] [ET.Elem "node" [("id", "C")] []] in
  split_newline (file_text (RT := Example.runtime) elem)
  = filter (λ line, strip_nonempty line = true)
      (split_newline (prettify (RT := Example.runtime) elem))
  ∧ Forall (λ line, strip_nonempty line = true)
      (split_newline (file_text (RT := Example.runtime) elem)).
Proof.
  apply (proj1 (proj2 (saved_text_has_no_blank_line (RT := Example.runtime)
                         (ET.Elem "nodes" [] [ET.Elem "node" [("id", "C")] []])))).
  vm_compute. discriminate.
Defined.

End SavedTextWitness.

(* ===================================================================== *)
(** * The custom network editor and the demand page                       *)
(* ===================================================================== *)

Section Editor.
Import NetworkStudio.
Local Open Scope Z_scope.

Lemma any_false {A} (p : A → bool) (l : list A) :
  any p l = false ↔ ∀ x, x ∈ l → p x = false.
Proof.
  unfold any. induction l as [|y l IH]; cbn.
  - split; [by intros _ x ?%elem_of_nil | done].
  - rewrite orb_false_iff, IH. split.
    + intros [Hy Hl] x [->|Hx]%elem_of_cons; [done | by apply Hl].
    + intros H. split; [apply H; by left|]. intros x Hx. apply H. by right.
Qed.

Lemma NoDup_fmap_filter {A B} (f : A → B) (P : A → Prop)
    `{!∀ x, Decision (P x)} (l : list A) :
  NoDup (f <$> l) → NoDup (f <$> filter P l).
Proof.
  induction l as [|x l IH]; [done|]. cbn [fmap list_fmap].
  intros [Hx Hl]%NoDup_cons. rewrite filter_cons. case_decide; [|by apply IH].
  cbn. apply NoDup_cons. split; [|by apply IH].
  intros (y & Hy & [_ Hin]%list_elem_of_filter)%list_elem_of_fmap.
  apply Hx. apply list_elem_of_fmap. by exists y.
Qed.

Lemma edge_entry_ok_mono (st st' : session) (e : edge_entry) :
  (∀ id, id ∈ node_ids st → id ∈ node_ids st') →
  edge_entry_ok st e → edge_entry_ok st' e.
Proof.
  intros Hsub (? & ? & ? & ?). split; [done|]. split; [by apply Hsub|].
  split; [by apply Hsub | done].
Qed.

Lemma add_node_ok node_id node_x node_y node_type st :
  node_type ∈ type_options → editor_ok st →
  editor_ok (add_node node_id node_x node_y node_type st).
Proof.
  intros Hty (Hn & He & Hnodes & Hedges). unfold add_node.
  destruct (truthy node_id) eqn:Hid; [|done]. cbn [andb].
  destruct (any _ _) eqn:Hany; [done|]. cbn [negb].
  assert (Hfresh : node_id ∉ node_ids st).
  { intros (n & -> & Hin)%list_elem_of_fmap.
    apply (proj1 (any_false _ _) Hany) in Hin.
    by apply bool_decide_eq_false in Hin. }
  unfold editor_ok, node_ids. cbn. rewrite fmap_app. cbn.
  split; [|split; [done|split]].
  - apply NoDup_app. split; [done|]. split; [|apply NoDup_singleton].
    intros id Hin ->%list_elem_of_singleton. done.
  - apply Forall_app. split; [done|]. apply Forall_singleton.
    split; [by apply truthy_iff | done].
  - eapply Forall_impl; [exact Hedges|]. intros e.
    apply edge_entry_ok_mono. intros id Hin. unfold node_ids. cbn.
    rewrite fmap_app. apply elem_of_app. by left.
Qed.

Lemma add_edge_ok edge_id from_node to_node num_lanes speed_limit priority st :
  offered st (AddEdge edge_id from_node to_node num_lanes speed_limit priority) →
  editor_ok st →
  editor_ok (add_edge edge_id from_node to_node num_lanes speed_limit priority st).
Proof.
  intros (_ & Hf & Ht & Hl & Hs1 & Hs2 & Hp) (Hn & He & Hnodes & Hedges).
  unfold add_edge.
  destruct (truthy edge_id) eqn:Hid; [|done]. cbn [andb].
  case_bool_decide as Hft; [done|]. cbn [negb andb].
  destruct (any _ _) eqn:Hany; [done|]. cbn [negb].
  assert (Hfresh : edge_id ∉ e_id <$> custom_edges st).
  { intros (e & -> & Hin)%list_elem_of_fmap.
    apply (proj1 (any_false _ _) Hany) in Hin.
    by apply bool_decide_eq_false in Hin. }
  unfold editor_ok, node_ids. cbn. rewrite fmap_app. cbn.
  split; [done|]. split; [|split; [done|]].
  - apply NoDup_app. split; [done|]. split; [|apply NoDup_singleton].
    intros id Hin ->%list_elem_of_singleton. done.
  - apply Forall_app. split; [exact Hedges|]. apply Forall_singleton.
    split; [by apply truthy_iff|]. split; [exact Hf|]. split; [exact Ht|].
    split; [done|]. split; [done|]. split; [done|]. split; [done | done].
Qed.

Lemma delete_node_ok id st : editor_ok st → editor_ok (delete_node id st).
Proof.
  intros (Hn & He & Hnodes & Hedges). unfold delete_node, editor_ok, node_ids.
  cbn. split; [by apply NoDup_fmap_filter|].
  split; [by apply NoDup_fmap_filter|]. split.
  - apply Forall_forall. intros n [_ Hin]%list_elem_of_filter.
    by apply (proj1 (Forall_forall _ _) Hnodes).
  - apply Forall_forall. intros e [[Hf Ht] Hin]%list_elem_of_filter.
    pose proof (proj1 (Forall_forall _ _) Hedges e Hin) as Hok.
    destruct Hok as (? & Hfrom & Hto & ?).
    assert (Hkeep : ∀ x, x ≠ id → x ∈ node_ids st →
                      x ∈ n_id <$> filter (λ n, n_id n ≠ id) (custom_nodes st)).
    { intros x Hx (n & -> & Hn')%list_elem_of_fmap.
      apply list_elem_of_fmap. exists n. split; [done|].
      by apply list_elem_of_filter. }
    split; [done|]. split; [by apply Hkeep|]. split; [by apply Hkeep | done].
Qed.

Lemma delete_edge_ok id st : editor_ok st → editor_ok (delete_edge id st).
Proof.
  intros (Hn & He & Hnodes & Hedges). unfold delete_edge, editor_ok, node_ids.
  cbn. split; [done|]. split; [by apply NoDup_fmap_filter|]. split; [done|].
  apply Forall_forall. intros e [_ Hin]%list_elem_of_filter.
  by apply (proj1 (Forall_forall _ _) Hedges).
Qed.

Lemma reachable_ok st : reachable st → editor_ok st.
Proof.
  induction 1 as [|st c _ IH Hoff].
  - unfold editor_ok, node_ids. cbn.
    split; [apply NoDup_nil_2|]. split; [apply NoDup_nil_2|]. done.
  - destruct c; cbn [handle].
    + by apply add_node_ok.
    + by apply add_edge_ok.
    + by apply delete_node_ok.
    + by apply delete_edge_ok.
Qed.

End Editor.

Section EditorExtra.
Import NetworkStudio XmlGenerators.
Local Open Scope Z_scope.

(** X24.  In every state the custom editor can reach, node ids are
    non-empty and pairwise different, edge ids likewise, every edge joins
    two different nodes that are still in the node list (deleting a node
    deletes its edges), and although the editor keeps plain dictionaries,
    each of them would be accepted by the [Node] and [Edge] classes. *)
Theorem editor_keeps_network_consistent (st : session) :
  reachable st →
  editor_ok st
  ∧ (∀ n, n ∈ custom_nodes st →
       Node_new (n_id n) (n_x n) (n_y n) (n_type n) ""
       = Ok (mkNode (n_id n) (n_x n) (n_y n) (n_type n) ""))
  ∧ (∀ e, e ∈ custom_edges st →
       Edge_new (e_id e) (e_from e) (e_to e) (e_numLanes e) (e_speed e)
         (e_priority e)
       = Ok (mkEdge (e_id e) (e_from e) (e_to e) (e_numLanes e) (e_speed e)
               (e_priority e) "" "" "")).
Proof.
  intros Hst%reachable_ok. split; [done|].
  destruct Hst as (Hn & He & Hnodes & Hedges). split.
  - intros n Hin.
    pose proof (proj1 (Forall_forall _ _) Hnodes n Hin) as Hok.
    destruct Hok as [Hid Hty]. apply Node_new_ok; [done|].
    unfold type_options in Hty. unfold valid_types.
    repeat (apply elem_of_cons in Hty as [->|Hty]);
      [by repeat constructor..|by apply elem_of_nil in Hty].
  - intros e Hin.
    pose proof (proj1 (Forall_forall _ _) Hedges e Hin) as Hok.
    destruct Hok as (Hid & Hf & Ht & Hft & Hl & Hs & _).
    assert (Hne : ∀ x, x ∈ node_ids st → x ≠ "").
    { intros x (n & -> & Hn')%list_elem_of_fmap.
      pose proof (proj1 (Forall_forall _ _) Hnodes n Hn') as Hok.
      by destruct Hok. }
    apply Edge_new_ok; try done; [by apply Hne | by apply Hne | lia | lra].
Qed.

Lemma editor_keeps_network_consistent_witness :
  let st := handle (DeleteNode "a")
              (handle (AddEdge "e" "a" "b" 2 13.89 5)
                 (handle (AddNode "b" 100 0 "traffic_light")
                    (handle (AddNode "a" 0 0 "priority") session_new))) in
  custom_nodes st = [mkNodeEntry "b" 100 0 "traffic_light"]
  ∧ custom_edges st = []
  ∧ editor_ok st.
Proof.
  split; [reflexivity|]. split; [reflexivity|].
  apply (editor_keeps_network_consistent
           (handle (DeleteNode "a")
              (handle (AddEdge "e" "a" "b" 2 13.89 5)
                 (handle (AddNode "b" 100 0 "traffic_light")
                    (handle (AddNode "a" 0 0 "priority") session_new))))).
  apply reachable_click.
  - apply reachable_click.
    + apply reachable_click.
      * apply reachable_click; [apply reachable_new|].
        vm_compute. by repeat constructor.
      * vm_compute. by repeat constructor.
    + vm_compute.
      repeat split; first [discriminate | by repeat constructor].
  - vm_compute. by repeat constructor.
Defined.

End EditorExtra.
Section Demand.
Context `{RT : Runtime}.
Import DemandGenerator XmlGenerators.
Local Open Scope Z_scope.




End Demand.

Section DemandWitness.
Import DemandGenerator XmlGenerators.


End DemandWitness.
